(** * dbcat: the terminal table renderer ([src/table.ts]) and the
      command line ([src/index.ts])

    A shallow embedding of [truncate], [padRight], [padLeft], [wrapLines]
    and [printTable], and of the functions of the command line that do
    not need a database ([createConnection], [getDatabaseName],
    [formatTableOutput], [formatQueryResult], [displayTable],
    [displayQueryResult], [readStdin], [parseArgs]), followed by their
    properties.

    Conventions of the embedding.
    - A JavaScript string is the list of its UTF-16 code units, so that
      [length] is [str.length] and [slice] is [String.prototype.slice].
    - A JavaScript number that holds a width is a [num]: an integer or
      [NaN] (the only non-integer the width computations can produce,
      through [0 / 0] in the fair-share formula).
    - [console.log] appends a line to the output of the [io] monad; a
      thrown exception ends the run and keeps the lines already written.
    - [Bun.stringWidth], [Bun.inspect], [Bun.enableANSIColors],
      [process.stdout.columns] and the floating-point value of the
      fair-share formula belong to the runtime, not to the repository:
      they are the fields of the class [Runtime]. *)

From Stdlib Require Import String Ascii Decimal DecimalString.
From Stdlib Require Import ZArith NArith List Bool Lia.
From Stdlib Require PrimFloat FloatOps SpecFloat Uint63.
Import ListNotations.
Open Scope Z_scope.

(** ** Strings *)

Definition codeunit := N.
Definition jsstring := list codeunit.

(** Decoding of the UTF-8 bytes of a Rocq string literal into code points. *)
Fixpoint utf8_points (bs : list N) : list N :=
  match bs with
  | [] => []
  | b0 :: r0 =>
    if (b0 <? 128)%N then b0 :: utf8_points r0
    else if (b0 <? 224)%N then
      match r0 with
      | b1 :: r1 => ((b0 - 192) * 64 + (b1 - 128))%N :: utf8_points r1
      | _ => []
      end
    else if (b0 <? 240)%N then
      match r0 with
      | b1 :: b2 :: r2 =>
        ((b0 - 224) * 4096 + (b1 - 128) * 64 + (b2 - 128))%N :: utf8_points r2
      | _ => []
      end
    else
      match r0 with
      | b1 :: b2 :: b3 :: r3 =>
        ((b0 - 240) * 262144 + (b1 - 128) * 4096 + (b2 - 128) * 64 + (b3 - 128))%N
          :: utf8_points r3
      | _ => []
      end
  end.

(** A code point as UTF-16: itself, or a surrogate pair above the BMP. *)
Definition utf16_units (cp : N) : jsstring :=
  if (cp <? 65536)%N then [cp]
  else [(55296 + (cp - 65536) / 1024)%N; (56320 + (cp - 65536) mod 1024)%N].

(** [lit "..."] is the JavaScript string written by that literal. *)
Definition lit (s : string) : jsstring :=
  flat_map utf16_units (utf8_points (map N_of_ascii (list_ascii_of_string s))).

Arguments lit s%_string.

Definition len {A : Type} (l : list A) : Z := Z.of_nat (length l).

(** [Array.prototype.slice] and [String.prototype.slice] on integer
    arguments: a negative index counts from the end, and both ends are
    clamped to the length. *)
Definition rel_index (n i : Z) : Z :=
  if i <? 0 then Z.max (n + i) 0 else Z.min i n.

Definition slice {A : Type} (l : list A) (from to : Z) : list A :=
  let a := rel_index (len l) from in
  let b := rel_index (len l) to in
  firstn (Z.to_nat (b - a)) (skipn (Z.to_nat a) l).

Definition slice_from {A : Type} (l : list A) (from : Z) : list A :=
  slice l from (len l).

(** [parts.join(sep)] *)
Fixpoint join (sep : jsstring) (parts : list jsstring) : jsstring :=
  match parts with
  | [] => []
  | [p] => p
  | p :: rest => p ++ sep ++ join sep rest
  end.

(** [str.split(c)] for a one-unit separator, with the piece being read
    kept in [cur]. *)
Fixpoint split_on (c : codeunit) (cur : jsstring) (s : jsstring) : list jsstring :=
  match s with
  | [] => [cur]
  | x :: s' => if (x =? c)%N then cur :: split_on c [] s' else split_on c (cur ++ [x]) s'
  end.

(** [str.replace(/\n/g, "\\n")] *)
Definition escape_newlines (s : jsstring) : jsstring :=
  flat_map (fun x => if (x =? 10)%N then [92%N; 110%N] else [x]) s.

(** [raw.split(/([ ]+)/)]: the pieces between runs of spaces alternate
    with the runs themselves; the first and the last piece may be empty. *)
Fixpoint split_text (cur : jsstring) (s : jsstring) : list jsstring :=
  match s with
  | [] => [cur]
  | x :: s' =>
    if (x =? 32)%N then cur :: split_spaces [x] s' else split_text (cur ++ [x]) s'
  end
with split_spaces (cur : jsstring) (s : jsstring) : list jsstring :=
  match s with
  | [] => [cur; []]
  | x :: s' =>
    if (x =? 32)%N then split_spaces (cur ++ [x]) s' else cur :: split_text [x] s'
  end.

(** [String(n)] for an integer below 1e21. *)
Definition numberToString (z : Z) : jsstring :=
  lit (NilZero.string_of_int (Z.to_int z)).

(** ** Numbers *)

Inductive num : Type :=
| Fin (z : Z)
| NaN.

Definition nadd (a b : num) : num :=
  match a, b with Fin x, Fin y => Fin (x + y) | _, _ => NaN end.
Definition nsub (a b : num) : num :=
  match a, b with Fin x, Fin y => Fin (x - y) | _, _ => NaN end.
(** [Math.max] and [Math.min] answer [NaN] as soon as an argument is. *)
Definition nmax (a b : num) : num :=
  match a, b with Fin x, Fin y => Fin (Z.max x y) | _, _ => NaN end.
Definition nmin (a b : num) : num :=
  match a, b with Fin x, Fin y => Fin (Z.min x y) | _, _ => NaN end.
(** Every comparison with [NaN] is false. *)
Definition ngtb (a b : num) : bool :=
  match a, b with Fin x, Fin y => x >? y | _, _ => false end.
Definition ngeb (a b : num) : bool :=
  match a, b with Fin x, Fin y => x >=? y | _, _ => false end.
Definition nltb (a b : num) : bool :=
  match a, b with Fin x, Fin y => x <? y | _, _ => false end.
Definition nleb (a b : num) : bool :=
  match a, b with Fin x, Fin y => x <=? y | _, _ => false end.

(** [ws.reduce((a, b) => a + b, 0)] *)
Definition nsum (ws : list num) : num := fold_left nadd ws (Fin 0).

Definition zsum (ws : list Z) : Z := fold_left Z.add ws 0.

(** ** Exceptions and output *)

Inductive exn : Type :=
| TypeError
| RangeError.

Definition res (A : Type) : Type := (exn + A)%type.

(** A run: the lines written so far, and an exception or a value. *)
Definition io (A : Type) : Type := (list jsstring * res A)%type.

Definition ret {A : Type} (a : A) : io A := ([], inr a).
Definition throw {A : Type} (e : exn) : io A := ([], inl e).
Definition lift {A : Type} (r : res A) : io A := ([], r).
Definition console_log (line : jsstring) : io unit := ([line], inr tt).

Definition bind {A B : Type} (m : io A) (k : A -> io B) : io B :=
  match m with
  | (out, inl e) => (out, inl e)
  | (out, inr a) => let (out', r) := k a in (out ++ out', r)
  end.

Declare Scope io_scope.
Delimit Scope io_scope with io.
Notation "x <- m ;; k" := (bind m (fun x => k))
  (at level 61, m at next level, right associativity) : io_scope.
Notation "m ;;; k" := (bind m (fun _ => k))
  (at level 61, right associativity) : io_scope.

Definition rbind {A B : Type} (r : res A) (k : A -> res B) : res B :=
  match r with inl e => inl e | inr a => k a end.

(** [xs.map(f)] where [f] may throw: left to right, stopping at the
    first exception. *)
Fixpoint rmap {A B : Type} (f : A -> res B) (xs : list A) : res (list B) :=
  match xs with
  | [] => inr []
  | x :: xs' => rbind (f x) (fun y => rbind (rmap f xs') (fun ys => inr (y :: ys)))
  end.

Fixpoint for_each {A : Type} (f : A -> io unit) (xs : list A) : io unit :=
  match xs with
  | [] => ret tt
  | x :: xs' => bind (f x) (fun _ => for_each f xs')
  end.

Definition emitted {A : Type} (m : io A) : list jsstring := fst m.
Definition outcome {A : Type} (m : io A) : res A := snd m.

(** [str.repeat(count)]: [NaN] counts as 0, a negative count throws. *)
Definition str_repeat (s : jsstring) (count : num) : res jsstring :=
  match count with
  | NaN => inr []
  | Fin z => if z <? 0 then inl RangeError else inr (concat (repeat s (Z.to_nat z)))
  end.

(** ** Constants of [table.ts] *)

Definition RESET : jsstring := Eval cbv in 27%N :: lit "[0m".
Definition DIM : jsstring := Eval cbv in 27%N :: lit "[2m".
Definition BOLD : jsstring := Eval cbv in 27%N :: lit "[1m".

Module BOX.
Definition topLeft : jsstring := Eval cbv in lit "╭".
Definition topRight : jsstring := Eval cbv in lit "╮".
Definition bottomLeft : jsstring := Eval cbv in lit "╰".
Definition bottomRight : jsstring := Eval cbv in lit "╯".
Definition horizontal : jsstring := Eval cbv in lit "─".
Definition vertical : jsstring := Eval cbv in lit "│".
Definition headerLeft : jsstring := Eval cbv in lit "├".
Definition headerRight : jsstring := Eval cbv in lit "┤".
Definition headerCross : jsstring := Eval cbv in lit "┼".
Definition topCross : jsstring := Eval cbv in lit "┬".
Definition bottomCross : jsstring := Eval cbv in lit "┴".
End BOX.

Definition ELLIPSIS : jsstring := Eval cbv in lit "…".
Definition SPACE : jsstring := Eval cbv in lit " ".

(** ** Values and rows *)

(** A cell value by its [typeof]; anything that is not null, undefined,
    a string, a number or a bigint is [VOther]. *)
Inductive value : Type :=
| VNull
| VUndefined
| VString (s : jsstring)
| VNumber (z : Z)
| VBigInt (z : Z)
| VOther (shown : jsstring).

(** A row lists its own properties in the order of [Object.keys]. *)
Definition row := list (jsstring * value).

Definition jsstring_eqb (a b : jsstring) : bool :=
  if list_eq_dec N.eq_dec a b then true else false.

Definition keys (r : row) : list jsstring := map fst r.

(** [row[col]]: [undefined] when the row has no such property. *)
Fixpoint get (r : row) (col : jsstring) : value :=
  match r with
  | [] => VUndefined
  | (k, v) :: r' => if jsstring_eqb k col then v else get r' col
  end.

(** [maxRows] is a JavaScript number: an integer, a finite number that
    is not an integer (written as a fraction), [NaN], [Infinity] or
    [-Infinity]. *)
Inductive limit : Type :=
| Count (z : Z)
| Fraction (numerator : Z) (denominator : positive)
| NotANumber
| Infinity
| MinusInfinity.

(** [TableOptions]. [totalRows] is the number of rows of the whole
    result and is taken to be an integer. *)
Record TableOptions : Type := mkOptions {
  maxRows : option limit;
  title : option jsstring;
  totalRows : option Z;
  fullContent : option bool
}.

(** [options = {}] *)
Definition defaultOptions : TableOptions := mkOptions None None None None.

(** Truthiness of [title]: present and not the empty string. *)
Definition truthy_title (t : option jsstring) : option jsstring :=
  match t with
  | Some (c :: s) => Some (c :: s)
  | _ => None
  end.

(** ** The renderer *)

(** What the renderer takes from the runtime. *)
Class Runtime : Type := mkRuntime {
  (** [Bun.stringWidth]: the number of terminal columns of a string. *)
  stringWidth : jsstring -> nat;
  (** [Bun.inspect(value, { colors: Bun.enableANSIColors, depth: 2 })] *)
  inspect : value -> jsstring;
  enableANSIColors : bool;
  (** [process.stdout.columns] and [process.stderr.columns] *)
  stdoutColumns : option Z;
  stderrColumns : option Z;
  (** [floatFair ws avail i] is the double
      [Math.floor((Math.sqrt(ws[i]) / sqrtTotal) * avail)] when
      [sqrtTotal] is not 0; it is then a finite integer. *)
  floatFair : list Z -> Z -> nat -> Z
}.

Section Renderer.

Context {R : Runtime}.

Definition width (s : jsstring) : Z := Z.of_nat (stringWidth s).

(** [a || b] on an optional number: 0 and [undefined] are falsy. *)
Definition or_else (a : option Z) (b : Z) : Z :=
  match a with
  | Some c => if c =? 0 then b else c
  | None => b
  end.

Definition getTerminalWidth : Z :=
  or_else stdoutColumns (or_else stderrColumns 120).

Definition dim : jsstring := if enableANSIColors then DIM else [].
Definition reset : jsstring := if enableANSIColors then RESET else [].
Definition bold : jsstring := if enableANSIColors then BOLD else [].

Definition formatValue (v : value) : jsstring :=
  match v with
  | VNull | VUndefined => dim ++ lit "NULL" ++ reset
  | VString s => s
  | _ => inspect v
  end.

(** The binary search of [truncate]; the loop runs at most
    [high - low] times. *)
Fixpoint truncate_loop (fuel : nat) (str : jsstring) (maxWidth : num)
    (low high : Z) : Z :=
  match fuel with
  | O => low
  | S fuel' =>
    if low <? high then
      let mid := (low + high + 1) / 2 in
      if nleb (Fin (width (slice str 0 mid) + 1)) maxWidth
      then truncate_loop fuel' str maxWidth mid high
      else truncate_loop fuel' str maxWidth low (mid - 1)
    else low
  end.

(** The last two lines of [truncate]: the ellipsis, then the reset
    sequence when colors are on. *)
Definition ellipsized (prefix : jsstring) : jsstring :=
  let truncated := prefix ++ ELLIPSIS in
  if enableANSIColors then truncated ++ RESET else truncated.

Definition truncate (str : jsstring) (maxWidth : num) : jsstring :=
  if nleb (Fin (width str)) maxWidth then str
  else
    let low := truncate_loop (length str) str maxWidth 0 (len str) in
    ellipsized (slice str 0 low).

Definition padRight (str : jsstring) (w : num) : res jsstring :=
  let strWidth := Fin (width str) in
  if ngeb strWidth w then inr str
  else rbind (str_repeat SPACE (nsub w strWidth)) (fun pad => inr (str ++ pad)).

Definition padLeft (str : jsstring) (w : num) : res jsstring :=
  let strWidth := Fin (width str) in
  if ngeb strWidth w then inr str
  else rbind (str_repeat SPACE (nsub w strWidth)) (fun pad => inr (pad ++ str)).

(** The search for the cut point of a fragment wider than [maxWidth]:
    at most [fragment.length] steps. *)
Fixpoint cut_loop (fuel : nat) (fragment : jsstring) (maxWidth : num)
    (cutPoint : Z) : Z :=
  match fuel with
  | O => cutPoint
  | S fuel' =>
    if (cutPoint <? len fragment)
       && nltb (Fin (width (slice fragment 0 cutPoint))) maxWidth
    then cut_loop fuel' fragment maxWidth (cutPoint + 1)
    else cutPoint
  end.

(** [while (fragment.length > 0)]: every second step at least
    shortens the fragment. *)
Fixpoint fragment_loop (fuel : nat) (maxWidth : num) (lines : list jsstring)
    (current fragment : jsstring) : list jsstring * jsstring * jsstring :=
  match fuel with
  | O => (lines, current, fragment)
  | S fuel' =>
    if len fragment >? 0 then
      if ngtb (Fin (width (current ++ fragment))) maxWidth then
        if len current >? 0
        then fragment_loop fuel' maxWidth (lines ++ [current]) [] fragment
        else
          let cutPoint := cut_loop (length fragment) fragment maxWidth 1 in
          fragment_loop fuel' maxWidth (lines ++ [slice fragment 0 cutPoint])
            current (slice_from fragment cutPoint)
      else fragment_loop fuel' maxWidth lines (current ++ fragment) []
    else (lines, current, fragment)
  end.

(** One turn of [for (const token of tokens)]. *)
Definition wrap_token (maxWidth : num) (st : list jsstring * jsstring)
    (token : jsstring) : list jsstring * jsstring :=
  let '(lines, current) := st in
  let '(lines1, current1, _) :=
    fragment_loop (2 * length token + 1) maxWidth lines current token in
  if ngeb (Fin (width current1)) maxWidth
  then (lines1 ++ [current1], [])
  else (lines1, current1).

Definition wrapLines (str : jsstring) (maxWidth : num) : list jsstring :=
  let raw := join SPACE (split_on 10%N [] str) in
  match raw with
  | [] => [[]]
  | _ =>
    let tokens := split_text [] raw in
    let '(lines, current) := fold_left (wrap_token maxWidth) tokens ([], []) in
    if len current >? 0 then lines ++ [current] else lines
  end.

(** *** [printTable]: columns and natural widths *)

Definition minColWidth : Z := 3.

Definition is_numeric (v : value) : bool :=
  match v with
  | VNull | VUndefined | VNumber _ | VBigInt _ => true
  | _ => false
  end.

Definition isNumericCol (displayRows : list row) (allColumns : list jsstring)
    : list bool :=
  map (fun col => forallb (fun r => is_numeric (get r col)) displayRows)
    allColumns.

Definition formatRow (allColumns : list jsstring) (r : row) : list jsstring :=
  map (fun col => escape_newlines (formatValue (get r col))) allColumns.

(** [colWidths[i] = Math.max(colWidths[i], Bun.stringWidth(formatted))]
    for the cells of one row. *)
Definition widen (colWidths : list Z) (formatted : list jsstring) : list Z :=
  map (fun p => Z.max (fst p) (width (snd p))) (combine colWidths formatted).

Definition naturalWidths (allColumns : list jsstring)
    (formattedRows : list (list jsstring)) : list Z :=
  fold_left widen formattedRows (map width allColumns).

(** *** Column hiding *)

Definition borderOverhead (columns : list jsstring) : Z :=
  4 + (len columns - 1) * 3.

(** The [while] loop that drops the last column: at most
    [columns.length] turns. The state is the visible columns, the
    number of hidden ones and the width left for the columns. *)
Fixpoint hide_loop (fuel : nat) (termWidth : Z) (columns : list jsstring)
    (hiddenCols : Z) (availableForColumns : Z)
    : list jsstring * Z * Z :=
  match fuel with
  | O => (columns, hiddenCols, availableForColumns)
  | S fuel' =>
    if (len columns * minColWidth >? availableForColumns) && (len columns >? 1)
    then
      let columns' := slice columns 0 (-1) in
      hide_loop fuel' termWidth columns' (hiddenCols + 1)
        (termWidth - (4 + (len columns' - 1) * 3))
    else (columns, hiddenCols, availableForColumns)
  end.

Definition hideColumns (termWidth : Z) (allColumns : list jsstring)
    : list jsstring * Z * Z :=
  hide_loop (length allColumns) termWidth allColumns 0
    (termWidth - borderOverhead allColumns).

(** The number of visible columns after hiding. *)
Definition visibleCount (termWidth : Z) (allColumns : list jsstring) : Z :=
  len (fst (fst (hideColumns termWidth allColumns))).

(** *** Width compression *)

Definition headerWidths (columns : list jsstring) : list Z :=
  map (fun col => Z.max minColWidth (width col)) columns.

(** [Math.floor((sqrtWidths[i] / sqrtTotal) * availableForColumns)]:
    [sqrtTotal] is 0 exactly when every width is 0, and the quotient
    is then [0 / 0]. *)
Definition fair (ws : list Z) (availableForColumns : Z) (i : nat) : num :=
  if forallb (Z.eqb 0) ws then NaN else Fin (floatFair ws availableForColumns i).

Definition fairWidths (columns : list jsstring) (ws : list Z)
    (availableForColumns : Z) : list num :=
  map (fun i =>
         nmax (Fin (nth i (headerWidths columns) 0)) (fair ws availableForColumns i))
      (seq 0 (length ws)).

(** [ws[i]], where a missing element compares and adds like [NaN]. *)
Definition at_ (ws : list num) (i : nat) : num := nth i ws NaN.

Fixpoint set_at (ws : list num) (i : nat) (w : num) : list num :=
  match ws, i with
  | [], _ => []
  | _ :: ws', O => w :: ws'
  | x :: ws', S i' => x :: set_at ws' i' w
  end.

(** The index of the first widest column. *)
Definition widest (ws : list num) : nat :=
  fold_left (fun maxIdx i => if ngtb (at_ ws i) (at_ ws maxIdx) then i else maxIdx)
    (seq 1 (length ws - 1)) 0%nat.

(** The [while] loop that takes one unit from the widest column: at
    most [totalWidth - availableForColumns] turns. *)
Fixpoint shrink_loop (fuel : nat) (availableForColumns : Z) (ws : list num)
    (totalWidth : num) : list num * num :=
  match fuel with
  | O => (ws, totalWidth)
  | S fuel' =>
    if ngtb totalWidth (Fin availableForColumns)
       && existsb (fun w => ngtb w (Fin minColWidth)) ws
    then
      let maxIdx := widest ws in
      shrink_loop fuel' availableForColumns
        (set_at ws maxIdx (nsub (at_ ws maxIdx) (Fin 1)))
        (nsub totalWidth (Fin 1))
    else (ws, totalWidth)
  end.

Definition shrink_fuel (totalWidth : num) (availableForColumns : Z) : nat :=
  match totalWidth with
  | Fin t => Z.to_nat (t - availableForColumns)
  | NaN => O
  end.

(** Lines 212-240: the widths of the visible columns. *)
Definition compress (columns : list jsstring) (ws : list Z)
    (availableForColumns : Z) : list num :=
  if zsum ws >? availableForColumns then
    let ws1 := fairWidths columns ws availableForColumns in
    let total1 := nsum ws1 in
    fst (shrink_loop (shrink_fuel total1 availableForColumns)
           availableForColumns ws1 total1)
  else map Fin ws.

(** *** The trailer text *)

Definition plural (n : Z) : jsstring := if n >? 1 then lit "s" else [].

Definition truncatedRows (rowCount : Z) (totalRows : option Z)
    (displayed : Z) : Z :=
  let actualTotal := match totalRows with Some t => t | None => rowCount end in
  if actualTotal >? displayed then actualTotal - displayed else 0.

Definition infoText (truncatedRows hiddenCols : Z) : jsstring :=
  if (truncatedRows >? 0) || (hiddenCols >? 0) then
    let parts :=
      (if truncatedRows >? 0
       then [numberToString truncatedRows ++ lit " more row" ++ plural truncatedRows]
       else [])
      ++ (if hiddenCols >? 0
          then [numberToString hiddenCols ++ lit " more column" ++ plural hiddenCols]
          else []) in
    lit "... " ++ join (lit ", ") parts
  else [].

(** *** The layout (lines 164-269) *)

Record Layout : Type := mkLayout {
  columns : list jsstring;
  hiddenCols : Z;
  available : Z;
  natural : list Z;
  visibleFormattedRows : list (list jsstring);
  visibleIsNumeric : list bool;
  compressed : list num;
  info : jsstring;
  contentWidth : num;
  innerWidth : num;
  visibleColWidths : list num
}.

Definition titleWidth (t : option jsstring) : Z :=
  match truthy_title t with
  | Some s => width s + 4
  | None => 0
  end.

(** [visibleColWidths[visibleColWidths.length - 1] += extra] *)
Definition expand_last (ws : list num) (extra : num) : list num :=
  set_at ws (length ws - 1) (nadd (at_ ws (length ws - 1)) extra).

Definition layout (termWidth : Z) (rows displayRows : list row) (first : row)
    (options : TableOptions) : Layout :=
  let rowCount := len rows in
  let allColumns := keys first in
  let numeric := isNumericCol displayRows allColumns in
  let formattedRows := map (formatRow allColumns) displayRows in
  let colWidths := naturalWidths allColumns formattedRows in
  let '(columns, hiddenCols, availableForColumns) :=
    hideColumns termWidth allColumns in
  let visibleNatural := slice colWidths 0 (len columns) in
  let visibleRows := map (fun r => slice r 0 (len columns)) formattedRows in
  let visibleNumeric := slice numeric 0 (len columns) in
  let ws := compress columns visibleNatural availableForColumns in
  let text :=
    infoText (truncatedRows rowCount (totalRows options) (len displayRows))
      hiddenCols in
  let content := nadd (nsum ws) (Fin ((len columns - 1) * 3)) in
  let maxInnerWidth := termWidth - 4 in
  let inner :=
    nmin (nmax content (Fin (titleWidth (title options)))) (Fin maxInnerWidth) in
  let final :=
    if ngtb inner content && (len ws >? 0)
    then expand_last ws (nsub inner content)
    else ws in
  mkLayout columns hiddenCols availableForColumns visibleNatural visibleRows
    visibleNumeric ws text content inner final.

(** *** Drawing (lines 271-363) *)

Local Open Scope io_scope.

(** [xs.map((x, i) => f(x, i))] *)
Definition mapi {A B : Type} (f : A -> nat -> B) (xs : list A) : list B :=
  map (fun p => f (snd p) (fst p)) (combine (seq 0 (length xs)) xs).

Definition rmapi {A B : Type} (f : A -> nat -> res B) (xs : list A)
    : res (list B) :=
  rmap (fun p => f (snd p) (fst p)) (combine (seq 0 (length xs)) xs).

(** [ws.map((w) => BOX.horizontal.repeat(w)).join(`─${cross}─`)] *)
Definition rule (cross : jsstring) (ws : list num) : res jsstring :=
  rbind (rmap (str_repeat BOX.horizontal) ws) (fun segments =>
  inr (join (BOX.horizontal ++ cross ++ BOX.horizontal) segments)).

(** A cell: truncated, then padded on the left when the column is
    numeric and on the right otherwise. *)
Definition cell (numeric : list bool) (ws : list num) (text : jsstring)
    (i : nat) : res jsstring :=
  let truncated := truncate text (at_ ws i) in
  if nth i numeric false
  then padLeft truncated (at_ ws i)
  else padRight truncated (at_ ws i).

Definition separator : jsstring :=
  SPACE ++ dim ++ BOX.vertical ++ reset ++ SPACE.

Definition row_line (cells : list jsstring) : jsstring :=
  dim ++ BOX.vertical ++ reset ++ SPACE ++ join separator cells ++ SPACE
    ++ dim ++ BOX.vertical ++ reset.

Definition cross_line (left cross right : jsstring) (ws : list num)
    : res jsstring :=
  rbind (rule cross ws) (fun r =>
  inr (dim ++ left ++ BOX.horizontal ++ r ++ BOX.horizontal ++ right ++ reset)).

Definition top_line (t : option jsstring) (ws : list num) : res jsstring :=
  rbind (rule BOX.topCross ws) (fun topBorder =>
  let fullTopBorder :=
    BOX.topLeft ++ BOX.horizontal ++ topBorder ++ BOX.horizontal ++ BOX.topRight in
  match truthy_title t with
  | Some s =>
    let titleDisplay := SPACE ++ s ++ SPACE in
    let titleDisplayWidth := width titleDisplay in
    let beforeTitle := slice fullTopBorder 0 2 in
    let afterTitle := slice_from fullTopBorder (2 + titleDisplayWidth) in
    inr (dim ++ beforeTitle ++ reset ++ bold ++ titleDisplay ++ reset ++ dim
           ++ afterTitle ++ reset)
  | None => inr (dim ++ fullTopBorder ++ reset)
  end).

Definition header_line (L : Layout) : res jsstring :=
  rbind (rmapi (cell (visibleIsNumeric L) (visibleColWidths L)) (columns L))
    (fun cells => inr (row_line cells)).

Definition data_line (L : Layout) (r : list jsstring) : res jsstring :=
  rbind (rmapi (cell (visibleIsNumeric L) (visibleColWidths L)) r)
    (fun cells => inr (row_line cells)).

(** Full-content mode: the lines of one row. *)
Definition rowHeight (wrapped : list (list jsstring)) : nat :=
  fold_right Nat.max O (map (@length jsstring) wrapped).

Definition wrapped_line (L : Layout) (wrapped : list (list jsstring))
    (lineIdx : nat) : res jsstring :=
  rbind (rmapi (fun cellLines i =>
                  cell (visibleIsNumeric L) (visibleColWidths L)
                    (nth lineIdx cellLines []) i) wrapped)
    (fun pieces => inr (row_line pieces)).

Definition draw_wrapped_row (L : Layout) (p : nat * list jsstring) : io unit :=
  let (rowIdx, r) := p in
  let wrapped := mapi (fun val i => wrapLines val (at_ (visibleColWidths L) i)) r in
  for_each (fun lineIdx =>
              line <- lift (wrapped_line L wrapped lineIdx) ;;
              console_log line)
           (seq 0 (rowHeight wrapped)) ;;;
  if Z.of_nat rowIdx <? len (visibleFormattedRows L) - 1 then
    rowSep <- lift (cross_line BOX.headerLeft BOX.headerCross BOX.headerRight
                      (visibleColWidths L)) ;;
    console_log rowSep
  else ret tt.

Definition draw_rows (L : Layout) (options : TableOptions) : io unit :=
  match fullContent options with
  | Some true =>
    for_each (draw_wrapped_row L)
      (combine (seq 0 (length (visibleFormattedRows L))) (visibleFormattedRows L))
  | _ =>
    for_each (fun r => line <- lift (data_line L r) ;; console_log line)
      (visibleFormattedRows L)
  end.

Definition draw_footer (L : Layout) : io unit :=
  match info L with
  | _ :: _ =>
    let truncatedInfo := truncate (info L) (innerWidth L) in
    infoLine <- lift (padRight truncatedInfo (innerWidth L)) ;;
    console_log (dim ++ BOX.vertical ++ SPACE ++ infoLine ++ SPACE
                   ++ BOX.vertical ++ reset) ;;;
    bar <- lift (str_repeat BOX.horizontal (nadd (innerWidth L) (Fin 2))) ;;
    console_log (dim ++ BOX.bottomLeft ++ bar ++ BOX.bottomRight ++ reset)
  | [] =>
    line <- lift (cross_line BOX.bottomLeft BOX.bottomCross BOX.bottomRight
                    (visibleColWidths L)) ;;
    console_log line
  end.

Definition draw (L : Layout) (options : TableOptions) : io unit :=
  top <- lift (top_line (title options) (visibleColWidths L)) ;;
  console_log top ;;;
  header <- lift (header_line L) ;;
  console_log header ;;;
  headerSep <- lift (cross_line BOX.headerLeft BOX.headerCross BOX.headerRight
                       (visibleColWidths L)) ;;
  console_log headerSep ;;;
  draw_rows L options ;;;
  draw_footer L.

(** Lines 131-162: no rows at all. *)
Definition print_empty (options : TableOptions) : io unit :=
  match truthy_title (title options) with
  | Some t =>
    let emptyText := lit "(empty)" in
    let contentWidth := Z.max (width emptyText) (width t) in
    let titleDisplay := SPACE ++ t ++ SPACE in
    let titleWidth := width titleDisplay in
    let innerWidth := contentWidth + 2 in
    let remainingWidth := innerWidth - titleWidth - 1 in
    bar <- lift (str_repeat BOX.horizontal (Fin (Z.max 0 remainingWidth))) ;;
    console_log (dim ++ BOX.topLeft ++ BOX.horizontal ++ reset ++ bold
                   ++ titleDisplay ++ reset ++ dim ++ bar ++ BOX.topRight ++ reset) ;;;
    padded <- lift (padRight emptyText (Fin contentWidth)) ;;
    console_log (dim ++ BOX.vertical ++ reset ++ SPACE ++ padded ++ SPACE
                   ++ dim ++ BOX.vertical ++ reset) ;;;
    bottom <- lift (str_repeat BOX.horizontal (Fin innerWidth)) ;;
    console_log (dim ++ BOX.bottomLeft ++ bottom ++ BOX.bottomRight ++ reset)
  | None => console_log (lit "(empty)")
  end.

(** [const { maxRows = 100 } = options] *)
Definition maxRows_of (options : TableOptions) : limit :=
  match maxRows options with
  | Some m => m
  | None => Count 100
  end.

(** [maxRows === Infinity ? rows : rows.slice(0, maxRows)]: [slice]
    reads its argument through ToIntegerOrInfinity, which drops the
    fraction of a finite number (toward 0) and takes [NaN] for 0; an end
    at [-Infinity] is the start of the rows. *)
Definition displayRows_of (rows : list row) (options : TableOptions) : list row :=
  match maxRows_of options with
  | Infinity => rows
  | Count m => slice rows 0 m
  | Fraction n d => slice rows 0 (Z.quot n (Z.pos d))
  | NotANumber => slice rows 0 0
  | MinusInfinity => []
  end.

Definition printTable (rows : list row) (options : TableOptions) : io unit :=
  match rows with
  | [] => print_empty options
  | _ :: _ =>
    let displayRows := displayRows_of rows options in
    (** [Object.keys(displayRows[0]!)] throws on [undefined]. *)
    match displayRows with
    | [] => throw TypeError
    | first :: _ =>
      let termWidth := getTerminalWidth in
      draw (layout termWidth rows displayRows first options) options
    end
  end.

(** *** Notions used in the statements *)

(** The test of the binary search at a prefix length. *)
Definition room_for_ellipsis (str : jsstring) (maxWidth : num) (m : Z) : Prop :=
  nleb (Fin (width (slice str 0 m) + 1)) maxWidth = true.

(** The number of columns the hiding loop keeps, out of [n], on a
    terminal of width [t]. *)
Definition kept (t n : Z) : Z :=
  if n <=? 1 then n else Z.max 1 (Z.min n ((t - 1) / 6)).

(** [zs[i] = v] on a list of integers. *)
Fixpoint zset (zs : list Z) (i : nat) (v : Z) : list Z :=
  match zs, i with
  | [], _ => []
  | _ :: zs', O => v :: zs'
  | z :: zs', S i' => z :: zset zs' i' v
  end.

(** The glyphs the renderer draws with. *)
Definition glyphs : list jsstring :=
  [BOX.topLeft; BOX.topRight; BOX.bottomLeft; BOX.bottomRight; BOX.horizontal;
   BOX.vertical; BOX.headerLeft; BOX.headerRight; BOX.headerCross; BOX.topCross;
   BOX.bottomCross; ELLIPSIS; SPACE].

(** The code unit that starts an escape sequence. *)
Definition ESC : codeunit := 27%N.

(** A text without escape sequences. *)
Definition plain_text (s : jsstring) : Prop := ~ In ESC s.

(** Where a reader stands in a styling sequence
    [ESC [ parameters m], as [RESET], [DIM] and [BOLD] are. *)
Inductive esc_state : Type :=
| Ground
| Escaped
| Parameters.

(** A parameter of a styling sequence: a digit, [:] or [;]. *)
Definition is_parameter (c : codeunit) : bool := ((48 <=? c) && (c <=? 59))%N.

(** One code unit further; [None] when an escape character does not
    start a styling sequence. *)
Definition esc_step (st : esc_state) (c : codeunit) : option esc_state :=
  match st with
  | Ground => Some (if (c =? ESC)%N then Escaped else Ground)
  | Escaped => if (c =? 91)%N then Some Parameters else None
  | Parameters =>
    if is_parameter c then Some Parameters
    else if (c =? 109)%N then Some Ground
    else None
  end.

Fixpoint esc_run (st : esc_state) (s : jsstring) : option esc_state :=
  match s with
  | [] => Some st
  | c :: s' =>
    match esc_step st c with
    | Some st' => esc_run st' s'
    | None => None
    end
  end.

(** A string in which every escape character starts a styling
    sequence that the string also ends: plain text and styling
    sequences, in any order. *)
Definition whole (s : jsstring) : Prop := esc_run Ground s = Some Ground.

(** The assumptions on [Bun.stringWidth] under which the width of a
    line is computed: widths add up over the concatenation of strings
    that break no styling sequence, each glyph of the renderer takes
    one column, and the styling sequences of the renderer (empty when
    colors are off) take none. *)
Record additive_widths : Prop := mkAdditive {
  width_concat : forall a b : jsstring, whole a -> whole b ->
    stringWidth (a ++ b) = (stringWidth a + stringWidth b)%nat;
  glyph_width : forall g, In g glyphs -> stringWidth g = 1%nat;
  style_width : stringWidth dim = 0%nat /\ stringWidth reset = 0%nat
                /\ stringWidth bold = 0%nat
}.

(** A text that can be measured in a column of width [w]: plain text,
    which [truncate] may cut anywhere, or a text with styling
    sequences that fits the column as it is. *)
Definition drawable (text : jsstring) (w : num) : Prop :=
  plain_text text \/ (whole text /\ nleb (Fin (width text)) w = true).

(** A string made of the glyphs of the frame. *)
Definition narrow (s : jsstring) : Prop := Forall (fun c => In [c] glyphs) s.

(** A printable ASCII character. *)
Definition printable (c : codeunit) : Prop := (32 <= c < 127)%N.

(** The width of every line of a table with the column widths [zs]. *)
Definition line_width (zs : list Z) : Z := zsum zs + (len zs - 1) * 3 + 4.

(** A text fits a column that has room for a truncated text, or that
    is as wide as the text. *)
Definition fits (text : jsstring) (z : Z) : Prop := 1 <= z \/ width text <= z.

(** A width that [repeat] accepts: [NaN], or a number that is not
    negative. *)
Definition repeatable (w : num) : Prop :=
  match w with
  | NaN => True
  | Fin z => 0 <= z
  end.

(** The trailer line around a padded text. *)
Definition trailer_line (infoLine : jsstring) : jsstring :=
  dim ++ BOX.vertical ++ SPACE ++ infoLine ++ SPACE ++ BOX.vertical ++ reset.

(** The layout [printTable] draws: that of the rows kept by [maxRows],
    with the columns of the first of them. *)
Definition layout_of (rows : list row) (options : TableOptions) : Layout :=
  layout getTerminalWidth rows (displayRows_of rows options)
    (hd [] (displayRows_of rows options)) options.

End Renderer.

Arguments additive_widths R : clear implicits.

(** ** A runtime to compute with

    [plainWidth] follows [Bun.stringWidth] on text without escape
    sequences, one code unit at a time: control characters take no
    column, East Asian wide characters two, a surrogate pair two (on its
    first half), everything else one. *)

Definition unitWidth (c : codeunit) : nat :=
  if ((c <? 32) || (c =? 127))%N then 0%nat
  else if ((4352 <=? c) && (c <=? 4447))%N then 2%nat
  else if ((11904 <=? c) && (c <=? 42191))%N then 2%nat
  else if ((44032 <=? c) && (c <=? 55203))%N then 2%nat
  else if ((55296 <=? c) && (c <=? 56319))%N then 2%nat
  else if ((56320 <=? c) && (c <=? 57343))%N then 0%nat
  else if ((63744 <=? c) && (c <=? 64255))%N then 2%nat
  else if ((65072 <=? c) && (c <=? 65103))%N then 2%nat
  else if ((65280 <=? c) && (c <=? 65376))%N then 2%nat
  else if ((65504 <=? c) && (c <=? 65510))%N then 2%nat
  else 1%nat.

Definition plainWidth (s : jsstring) : nat :=
  fold_right (fun c n => (unitWidth c + n)%nat) 0%nat s.

(** [Bun.inspect] without colors on the values of the model. *)
Definition plainInspect (v : value) : jsstring :=
  match v with
  | VNumber z => numberToString z
  | VBigInt z => numberToString z ++ lit "n"
  | VOther shown => shown
  | VString s => s
  | VNull => lit "null"
  | VUndefined => lit "undefined"
  end.

(** The fair share in IEEE 754 doubles, as the runtime computes it. *)
Definition float_of_Z (z : Z) : PrimFloat.float :=
  if z <? 0 then PrimFloat.opp (PrimFloat.of_uint63 (Uint63.of_Z (- z)))
  else PrimFloat.of_uint63 (Uint63.of_Z z).

(** [Math.floor] of a finite double. *)
Definition floor_float (f : PrimFloat.float) : Z :=
  match FloatOps.Prim2SF f with
  | SpecFloat.S754_finite s m e =>
    let v := if s then Z.neg m else Z.pos m in
    if e >=? 0 then v * 2 ^ e else v / 2 ^ (- e)
  | _ => 0
  end.

Definition ieeeFair (ws : list Z) (availableForColumns : Z) (i : nat) : Z :=
  let sqrtWidths := map (fun w => PrimFloat.sqrt (float_of_Z w)) ws in
  let sqrtTotal := fold_left PrimFloat.add sqrtWidths PrimFloat.zero in
  floor_float
    (PrimFloat.mul (PrimFloat.div (nth i sqrtWidths PrimFloat.zero) sqrtTotal)
       (float_of_Z availableForColumns)).

(** That runtime, without colors, on a terminal of the given width. *)
Definition plain (termWidth : Z) : Runtime :=
  mkRuntime plainWidth plainInspect false (Some termWidth) None ieeeFair.

Definition render (termWidth : Z) (rows : list row) (options : TableOptions)
    : io unit :=
  @printTable (plain termWidth) rows options.

(** The same with colors. [ansiWidth] follows [Bun.stringWidth] on text
    with escape sequences: from the escape character and [[] to the
    first code unit between [@] and [~], nothing takes a column. *)
Fixpoint ansi_scan (st : esc_state) (s : jsstring) : nat :=
  match s with
  | [] => 0%nat
  | c :: s' =>
    match st with
    | Ground =>
      if (c =? ESC)%N then ansi_scan Escaped s'
      else (unitWidth c + ansi_scan Ground s')%nat
    | Escaped =>
      if (c =? 91)%N then ansi_scan Parameters s'
      else (unitWidth c + ansi_scan Ground s')%nat
    | Parameters =>
      if ((64 <=? c) && (c <=? 126))%N then ansi_scan Ground s'
      else ansi_scan Parameters s'
    end
  end.

Definition ansiWidth (s : jsstring) : nat := ansi_scan Ground s.

(** [Bun.inspect] with colors on the values of the model: numbers and
    big integers in yellow. *)
Definition colourInspect (v : value) : jsstring :=
  match v with
  | VNumber z => (ESC :: lit "[33m") ++ numberToString z ++ (ESC :: lit "[39m")
  | VBigInt z =>
    (ESC :: lit "[33m") ++ numberToString z ++ lit "n" ++ (ESC :: lit "[39m")
  | v' => plainInspect v'
  end.

Definition colour (termWidth : Z) : Runtime :=
  mkRuntime ansiWidth colourInspect true (Some termWidth) None ieeeFair.

(** Sample rows. *)
Definition abc_row : row :=
  [(lit "a", VNumber 1); (lit "b", VNumber 2); (lit "c", VNumber 3)].

Definition id_row (i : Z) : row := [(lit "id", VNumber i)].

(** [Array.from({ length: n }, (_, i) => ({ id: i }))] *)
Definition ids (n : nat) : list row :=
  map (fun i => id_row (Z.of_nat i)) (seq 0 n).

Definition alice : row :=
  [(lit "id", VNumber 1); (lit "name", VString (lit "Alice"));
   (lit "email", VString (lit "alice@example.com"))].

Definition bob : row :=
  [(lit "id", VNumber 2); (lit "name", VString (lit "Bob"));
   (lit "email", VString (lit "bob@test.com"))].

(** [{ m: null, name: "Carol", age: 42 }] and
    [{ m: "metre", name: "Dan", age: null }] *)
Definition carol : row :=
  [(lit "m", VNull); (lit "name", VString (lit "Carol")); (lit "age", VNumber 42)].

Definition dan : row :=
  [(lit "m", VString (lit "metre")); (lit "name", VString (lit "Dan"));
   (lit "age", VNull)].

(** [{ a: "ab日cd" }], a cell with a glyph of two columns. *)
Definition wide_glyph_row : row := [(lit "a", VString (lit "ab日cd"))].

(** [{ fullContent: true }] *)
Definition fullContentOptions : TableOptions :=
  mkOptions None None None (Some true).

(** [Array.from({ length: n }, () => ({ guest: "a name of a guest" }))],
    rows of a column wide enough for a trailer. *)
Definition guests (n : nat) : list row :=
  map (fun _ => [(lit "guest", VString (lit "a name of a guest"))]) (seq 0 n).

Definition titled (t : string) : TableOptions :=
  mkOptions None (Some (lit t)) None None.

Definition capped (m : Z) (total : option Z) : TableOptions :=
  mkOptions (Some (Count m)) None total None.

Definition long_title : string :=
  "this_is_a_very_long_table_name_that_exceeds_terminal".

(** [{ abcdefghij: "x" }], a header wider than a narrow terminal. *)
Definition wide_header_row : row := [(lit "abcdefghij", VString (lit "x"))].

(** [{ "": "" }], a column without a name over an empty cell. *)
Definition blank_row : row := [([], VString [])].

(** [haystack.includes(needle)] *)
Fixpoint starts_with (needle haystack : jsstring) : bool :=
  match needle, haystack with
  | [], _ => true
  | _ :: _, [] => false
  | x :: needle', y :: haystack' => (x =? y)%N && starts_with needle' haystack'
  end.

Fixpoint includes (needle haystack : jsstring) : bool :=
  starts_with needle haystack
  || match haystack with
     | [] => false
     | _ :: haystack' => includes needle haystack'
     end.

(** ** The command line ([src/index.ts]) *)

(** [str.endsWith(suffix)] *)
Definition ends_with (suffix s : jsstring) : bool :=
  starts_with (rev suffix) (rev s).

Definition NEWLINE : jsstring := [10%N].

(** *** [createConnection] *)

Section Connection.

(** [new SQL()] and [new SQL(url)], with whatever they answer. *)
Variable connection : Type.
Variable SQL : option jsstring -> connection.

(** [!input] holds for [undefined] and for the empty string. *)
Definition createConnection (input : option jsstring) : connection :=
  match input with
  | None | Some [] => SQL None
  | Some s =>
    if negb (includes (lit "://") s)
       && (ends_with (lit ".db") s
           || ends_with (lit ".sqlite") s
           || ends_with (lit ".sqlite3") s)
    then SQL (Some (lit "sqlite://" ++ s))
    else SQL (Some s)
  end.

End Connection.

Arguments createConnection {connection} SQL input.

(** *** [getDatabaseName] *)

(** The connection as [getDatabaseName] reads it: [sql.options.adapter],
    [sql.options.filename], and the rows a query is answered with
    ([None] when its promise is rejected). *)
Record Sql : Type := mkSql {
  adapter : jsstring;
  filename : option jsstring;
  query : jsstring -> option (list row)
}.

(** [result[0]?.name ?? null] *)
Definition first_name (result : list row) : value :=
  match result with
  | [] => VNull
  | r :: _ =>
    match get r (lit "name") with
    | VUndefined => VNull
    | v => v
    end
  end.

(** [filename.split("/").pop()]: the split of a string is never
    empty, so [?? null] has nothing to replace. *)
Definition base_name (file : jsstring) : jsstring :=
  last (split_on 47%N [] file) [].

(** The promise of [getDatabaseName]: [None] when it is rejected,
    [Some VNull] when it resolves to [null]. *)
Definition getDatabaseName (sql : Sql) : option value :=
  if jsstring_eqb (adapter sql) (lit "postgres") then
    match query sql (lit "SELECT current_database() as name") with
    | Some result => Some (first_name result)
    | None => None
    end
  else if jsstring_eqb (adapter sql) (lit "mysql")
          || jsstring_eqb (adapter sql) (lit "mariadb") then
    match query sql (lit "SELECT DATABASE() as name") with
    | Some result => Some (first_name result)
    | None => None
    end
  else if jsstring_eqb (adapter sql) (lit "sqlite") then
    match filename sql with
    | None | Some [] => Some VNull
    | Some file =>
      if jsstring_eqb file (lit ":memory:") then Some VNull
      else Some (VString (base_name file))
    end
  else Some VNull.

(** *** [formatTableOutput] and [formatQueryResult] *)

Section PlainText.

(** [String(value)] on a value that is neither [null] nor [undefined]. *)
Variable String_of : value -> jsstring.

(** [String(row[k] ?? "NULL")] *)
Definition shown_or_null (v : value) : jsstring :=
  match v with
  | VNull | VUndefined => lit "NULL"
  | _ => String_of v
  end.

(** [keys.map((k) => String(row[k] ?? "NULL")).join(" | ")] *)
Definition plain_row (ks : list jsstring) (r : row) : jsstring :=
  join (lit " | ") (map (fun k => shown_or_null (get r k)) ks).

(** The header and the rule under it: as many dashes as the header
    has code units. *)
Definition plain_header (ks : list jsstring) : list jsstring :=
  [join (lit " | ") ks;
   concat (repeat (lit "-") (length (join (lit " | ") ks)))].

Definition formatTableOutput (tableName : jsstring) (rows : list row)
    : jsstring :=
  let lines := [NEWLINE ++ lit "=== " ++ tableName ++ lit " ==="] in
  match rows with
  | [] => join NEWLINE (lines ++ [lit "(empty table)"])
  | _ :: _ =>
    let maxRows := 100 in
    let displayRows := slice rows 0 maxRows in
    let lines1 :=
      match displayRows with
      | first :: _ =>
        let ks := keys first in
        lines ++ plain_header ks ++ map (plain_row ks) displayRows
      | [] => lines
      end in
    let lines2 :=
      if len rows >? maxRows
      then lines1 ++ [lit "... and " ++ numberToString (len rows - maxRows)
                        ++ lit " more rows"]
      else lines1 in
    join NEWLINE lines2
  end.

Definition formatQueryResult (rows : list row) : jsstring :=
  match rows with
  | [] => lit "(no results)"
  | first :: _ =>
    let ks := keys first in
    join NEWLINE
      (plain_header ks ++ map (plain_row ks) rows
         ++ [NEWLINE ++ numberToString (len rows) ++ lit " row(s)"])
  end.

End PlainText.

(** *** [displayTable] and [displayQueryResult] *)

Section Display.

Context {R : Runtime}.

Local Open Scope io_scope.

(** [console.log()] writes an empty line. *)
Definition displayTable (tableName : jsstring) (rows : list row)
    (totalRows : option Z) (maxRows : option limit) : io unit :=
  console_log [] ;;;
  printTable rows (mkOptions maxRows (Some tableName) totalRows None).

Definition displayQueryResult (rows : list row) : io unit :=
  printTable rows (mkOptions (Some Infinity) (Some (lit "Result")) None None).

End Display.

Definition DEFAULT_LIMIT : Z := 100.

(** *** [readStdin] *)

(** The white space and line terminators [String.prototype.trim]
    removes; all of them are single code units. *)
Definition is_space (c : codeunit) : bool :=
  ((9 <=? c) && (c <=? 13) || (c =? 32) || (c =? 160) || (c =? 5760)
   || (8192 <=? c) && (c <=? 8202) || (c =? 8232) || (c =? 8233)
   || (c =? 8239) || (c =? 8287) || (c =? 12288) || (c =? 65279))%N.

Fixpoint trim_start (s : jsstring) : jsstring :=
  match s with
  | c :: s' => if is_space c then trim_start s' else s
  | [] => []
  end.

Definition trim (s : jsstring) : jsstring :=
  rev (trim_start (rev (trim_start s))).

(** [text] is what [Bun.stdin.text()] resolves to, or [None] when it
    is rejected; [text.trim() || null] turns the empty string into
    [null]. *)
Definition readStdin (isTTY : bool) (text : option jsstring)
    : option jsstring :=
  if isTTY then None
  else
    match text with
    | None => None
    | Some t =>
      match trim t with
      | [] => None
      | c :: q => Some (c :: q)
      end
    end.

(** *** [parseArgs] *)

(** [false | "plain" | "color"] *)
Inductive JsonMode : Type :=
| JsonOff
| JsonPlain
| JsonColor.

Record Args : Type := mkArgs {
  input : option jsstring;
  full : bool;
  json : JsonMode
}.

(** One turn of [for (const arg of args)]. *)
Definition parse_arg (st : Args) (arg : jsstring) : Args :=
  if jsstring_eqb arg (lit "--full") || jsstring_eqb arg (lit "-f")
  then mkArgs (input st) true (json st)
  else if jsstring_eqb arg (lit "--json")
  then mkArgs (input st) (full st) JsonPlain
  else if jsstring_eqb arg (lit "--json=color")
  then mkArgs (input st) (full st) JsonColor
  else if negb (starts_with (lit "-") arg)
  then mkArgs (Some arg) (full st) (json st)
  else st.

(** [argv] is [process.argv]. *)
Definition parseArgs (argv : list jsstring) : Args :=
  let args := slice_from argv 2 in
  fold_left parse_arg args (mkArgs None false JsonOff).

(** ** More notions used in the statements *)

(** The number of lines a row takes in full-content mode: that of its
    tallest cell, each cell wrapped at the width of its column. *)
Definition row_lines {R : Runtime} (L : Layout) (r : list jsstring) : nat :=
  rowHeight (mapi (fun val i => wrapLines val (at_ (visibleColWidths L) i)) r).

(** The arguments by what [parseArgs] does with them. *)
Definition is_full_flag (arg : jsstring) : bool :=
  jsstring_eqb arg (lit "--full") || jsstring_eqb arg (lit "-f").

Definition json_flag (arg : jsstring) : option JsonMode :=
  if is_full_flag arg then None
  else if jsstring_eqb arg (lit "--json") then Some JsonPlain
  else if jsstring_eqb arg (lit "--json=color") then Some JsonColor
  else None.

Definition is_positional (arg : jsstring) : bool :=
  negb (starts_with (lit "-") arg).

(** The values the [--json] flags of a command line ask for, in
    order. *)
Definition json_flags (args : list jsstring) : list JsonMode :=
  flat_map (fun arg => match json_flag arg with
                       | Some mode => [mode]
                       | None => []
                       end) args.

(** [xs.at(-1)], with [None] for [undefined]. *)
Definition last_of {A : Type} (xs : list A) : option A :=
  last (map Some xs) None.

(** * Properties *)

(** ** Lists, slices and numbers *)

Lemma len_nonneg {A : Type} (l : list A) : 0 <= len l.
Proof. unfold len. lia. Qed.

Lemma len_app {A : Type} (a b : list A) : len (a ++ b) = len a + len b.
Proof. unfold len. rewrite length_app. lia. Qed.

Lemma len_nil_iff {A : Type} (l : list A) : len l = 0 <-> l = [].
Proof.
  unfold len. split; intro H.
  - destruct l; [reflexivity | simpl in H; lia].
  - subst. reflexivity.
Qed.

Lemma slice_prefix {A : Type} (l : list A) (k : Z) :
  0 <= k -> slice l 0 k = firstn (Z.to_nat k) l.
Proof.
  intros Hk. unfold slice, rel_index.
  pose proof (len_nonneg l) as Hl.
  replace (0 <? 0) with false by reflexivity.
  destruct (k <? 0) eqn:E; [apply Z.ltb_lt in E; lia |].
  rewrite (Z.min_l 0 (len l)) by lia. rewrite Z.sub_0_r. simpl skipn.
  destruct (Z.le_gt_cases k (len l)) as [Hle | Hgt].
  - rewrite Z.min_l by lia. reflexivity.
  - rewrite Z.min_r by lia.
    rewrite !firstn_all2; [reflexivity | unfold len in *; lia | unfold len; lia].
Qed.

Lemma slice_suffix {A : Type} (l : list A) (k : Z) :
  0 <= k -> slice_from l k = skipn (Z.to_nat k) l.
Proof.
  intros Hk. unfold slice_from, slice, rel_index.
  pose proof (len_nonneg l) as Hl.
  destruct (k <? 0) eqn:E; [apply Z.ltb_lt in E; lia |].
  destruct (len l <? 0) eqn:E'; [apply Z.ltb_lt in E'; lia |].
  rewrite Z.min_id.
  destruct (Z.le_gt_cases k (len l)) as [Hle | Hgt].
  - rewrite Z.min_l by lia. apply firstn_all2.
    rewrite length_skipn. unfold len in *. lia.
  - rewrite Z.min_r by lia. rewrite Z.sub_diag. simpl.
    rewrite skipn_all2; [reflexivity | unfold len in *; lia].
Qed.

Lemma slice_split {A : Type} (l : list A) (k : Z) :
  0 <= k -> slice l 0 k ++ slice_from l k = l.
Proof.
  intros Hk. rewrite slice_prefix, slice_suffix by assumption.
  apply firstn_skipn.
Qed.

Lemma slice_drop_last {A : Type} (l : list A) :
  slice l 0 (-1) = removelast l.
Proof.
  unfold slice, rel_index. pose proof (len_nonneg l) as Hl.
  replace (0 <? 0) with false by reflexivity.
  replace (-1 <? 0) with true by reflexivity.
  rewrite (Z.min_l 0 (len l)) by lia. rewrite Z.sub_0_r. simpl skipn.
  destruct l as [| x l'] using rev_ind; [reflexivity |].
  rewrite removelast_last.
  replace (Z.to_nat (Z.max (len (l' ++ [x]) + -1) 0)) with (length l').
  - rewrite firstn_app, firstn_all, Nat.sub_diag. simpl. apply app_nil_r.
  - rewrite len_app. unfold len. simpl. lia.
Qed.

Lemma len_slice_prefix {A : Type} (l : list A) (k : Z) :
  0 <= k <= len l -> len (slice l 0 k) = k.
Proof.
  intros Hk. rewrite slice_prefix by lia. unfold len in *.
  rewrite length_firstn. lia.
Qed.

(** ** [truncate] *)

Section TruncateFacts.

Context {R : Runtime}.

Lemma truncate_loop_spec (str : jsstring) (maxWidth : num) (fuel : nat) :
  forall low high, low <= high ->
    low <= truncate_loop fuel str maxWidth low high <= high
    /\ (truncate_loop fuel str maxWidth low high = low
        \/ room_for_ellipsis str maxWidth (truncate_loop fuel str maxWidth low high)).
Proof.
  induction fuel as [| fuel IH]; intros low high Hle.
  - cbn [truncate_loop]. split; [lia | left; reflexivity].
  - cbn [truncate_loop]. cbv zeta.
    destruct (low <? high) eqn:Elt.
    + apply Z.ltb_lt in Elt.
      remember ((low + high + 1) / 2) as mid eqn:Emid.
      assert (Hmid : low < mid <= high).
      { subst mid. Z.div_mod_to_equations. lia. }
      destruct (nleb (Fin (width (slice str 0 mid) + 1)) maxWidth) eqn:Ep.
      * destruct (IH mid high ltac:(lia)) as [Hr Hor]. split; [lia |]. right.
        destruct Hor as [Heq | Hp]; [rewrite Heq; exact Ep | exact Hp].
      * destruct (IH low (mid - 1) ltac:(lia)) as [Hr Hor]. split; [lia | exact Hor].
    + split; [lia | left; reflexivity].
Qed.

Lemma truncate_loop_step (str : jsstring) (maxWidth : num) (fuel : nat)
    (low high : Z) :
  truncate_loop (S fuel) str maxWidth low high
  = if low <? high then
      if nleb (Fin (width (slice str 0 ((low + high + 1) / 2)) + 1)) maxWidth
      then truncate_loop fuel str maxWidth ((low + high + 1) / 2) high
      else truncate_loop fuel str maxWidth low ((low + high + 1) / 2 - 1)
    else low.
Proof. reflexivity. Qed.

(** The loop has finished when the fuel is [high - low]: one more unit
    of fuel changes nothing. *)
Lemma truncate_loop_fuel (str : jsstring) (maxWidth : num) (fuel : nat) :
  forall low high, high - low <= Z.of_nat fuel ->
    truncate_loop (S fuel) str maxWidth low high
    = truncate_loop fuel str maxWidth low high.
Proof.
  induction fuel as [| fuel IH]; intros low high Hf.
  - cbn [truncate_loop].
    destruct (low <? high) eqn:Elt; [apply Z.ltb_lt in Elt; lia | reflexivity].
  - rewrite (truncate_loop_step str maxWidth (S fuel) low high).
    rewrite (truncate_loop_step str maxWidth fuel low high).
    destruct (low <? high) eqn:Elt; [| reflexivity].
    apply Z.ltb_lt in Elt.
    assert (Hmid : low < (low + high + 1) / 2 <= high).
    { Z.div_mod_to_equations. lia. }
    destruct (nleb _ maxWidth); apply IH; lia.
Qed.

Lemma truncate_fits (str : jsstring) (w : Z) :
  width str <= w -> truncate str (Fin w) = str.
Proof.
  intros H. unfold truncate. simpl.
  destruct (width str <=? w) eqn:E; [reflexivity | apply Z.leb_gt in E; lia].
Qed.

Lemma truncate_cut (str : jsstring) (maxWidth : num) :
  nleb (Fin (width str)) maxWidth = false ->
  exists r, 0 <= r <= len str
    /\ (r = 0 \/ room_for_ellipsis str maxWidth r)
    /\ truncate str maxWidth = ellipsized (slice str 0 r).
Proof.
  intros H. unfold truncate. rewrite H.
  destruct (truncate_loop_spec str maxWidth (length str) 0 (len str)
              (len_nonneg str)) as [Hr Hor].
  eexists. split; [exact Hr |]. split; [exact Hor | reflexivity].
Qed.

Lemma slice_prefix_nil (str : jsstring) : slice str 0 0 = [].
Proof. rewrite slice_prefix by lia. reflexivity. Qed.

(** With room for one column, the search ends on a prefix that leaves
    room for the ellipsis. *)
Lemma truncate_cut_room (str : jsstring) (w : Z) :
  stringWidth [] = 0%nat -> 1 <= w -> width str > w ->
  exists r, 0 <= r <= len str
    /\ width (slice str 0 r) + 1 <= w
    /\ truncate str (Fin w) = ellipsized (slice str 0 r).
Proof.
  intros Hnil Hw Hwide.
  destruct (truncate_cut str (Fin w)) as (r & Hr & Hor & Heq).
  { simpl. apply Z.leb_gt. lia. }
  exists r. split; [exact Hr |]. split; [| exact Heq].
  destruct Hor as [-> | Hroom].
  - rewrite slice_prefix_nil. unfold width. rewrite Hnil. simpl. lia.
  - unfold room_for_ellipsis in Hroom. simpl in Hroom.
    apply Z.leb_le in Hroom. exact Hroom.
Qed.




End TruncateFacts.

(** The plain width function adds up over concatenation. *)
Lemma plainWidth_app (a b : jsstring) :
  plainWidth (a ++ b) = (plainWidth a + plainWidth b)%nat.
Proof.
  induction a as [| c a IH]; simpl; [reflexivity | rewrite IH; lia].
Qed.





(** ** Column hiding *)

Lemma len_removelast {A : Type} (l : list A) :
  1 <= len l -> len (removelast l) = len l - 1.
Proof.
  intros H. destruct l as [| x l'] using rev_ind.
  - unfold len in H. simpl in H. lia.
  - rewrite removelast_last, len_app. unfold len. simpl. lia.
Qed.

Lemma hide_loop_spec (t : Z) (fuel : nat) :
  forall cols h, (length cols <= fuel)%nat ->
    let r := hide_loop fuel t cols h (t - (4 + (len cols - 1) * 3)) in
    len (fst (fst r)) = kept t (len cols)
    /\ snd (fst r) = h + (len cols - kept t (len cols))
    /\ snd r = t - (4 + (kept t (len cols) - 1) * 3)
    /\ fst (fst r) = firstn (Z.to_nat (kept t (len cols))) cols.
Proof.
  induction fuel as [| fuel IH]; intros cols h Hfuel.
  - destruct cols; [| simpl in Hfuel; lia].
    cbn. repeat split; lia.
  - cbn [hide_loop]. cbv zeta. unfold minColWidth.
    pose proof (len_nonneg cols) as Hn.
    destruct ((len cols * 3 >? t - (4 + (len cols - 1) * 3)) && (len cols >? 1))
      eqn:Econd.
    + apply andb_true_iff in Econd. destruct Econd as [E1 E2].
      apply Z.gtb_lt in E1. apply Z.gtb_lt in E2.
      rewrite slice_drop_last.
      assert (Hlen : len (removelast cols) = len cols - 1)
        by (apply len_removelast; lia).
      assert (Hfuel' : (length (removelast cols) <= fuel)%nat)
        by (unfold len in Hlen; lia).
      specialize (IH (removelast cols) (h + 1) Hfuel'). cbv zeta in IH.
      destruct IH as (H1 & H2 & H3 & H4).
      assert (Hk : kept t (len cols - 1) = kept t (len cols)).
      { unfold kept.
        destruct (len cols - 1 <=? 1) eqn:Ea; destruct (len cols <=? 1) eqn:Eb;
          try apply Z.leb_le in Ea; try apply Z.leb_gt in Ea;
          try apply Z.leb_le in Eb; try apply Z.leb_gt in Eb;
          Z.div_mod_to_equations; lia. }
      rewrite Hlen in *. rewrite Hk in *.
      repeat split; try assumption; try lia.
      rewrite H4.
      assert (Hkle : kept t (len cols) <= len cols - 1).
      { unfold kept. destruct (len cols <=? 1) eqn:Eb;
          [apply Z.leb_le in Eb; lia |].
        Z.div_mod_to_equations. lia. }
      assert (Hk0 : 0 <= kept t (len cols)).
      { unfold kept. destruct (len cols <=? 1); lia. }
      apply firstn_removelast. unfold len in *. lia.
    + simpl fst. simpl snd.
      assert (Hk : kept t (len cols) = len cols).
      { unfold kept. apply andb_false_iff in Econd.
        destruct (len cols <=? 1) eqn:Eb; [reflexivity |].
        apply Z.leb_gt in Eb.
        destruct Econd as [E | E]; rewrite Z.gtb_ltb, Z.ltb_ge in E.
        - Z.div_mod_to_equations. lia.
        - lia. }
      rewrite Hk. repeat split; try lia.
      unfold len. rewrite Nat2Z.id. symmetry. apply firstn_all.
Qed.

Section HidingFacts.

Context {R : Runtime}.

Lemma hideColumns_spec (t : Z) (allColumns : list jsstring) :
  let r := hideColumns t allColumns in
  len (fst (fst r)) = kept t (len allColumns)
  /\ snd (fst r) = len allColumns - kept t (len allColumns)
  /\ snd r = t - (4 + (kept t (len allColumns) - 1) * 3)
  /\ fst (fst r) = firstn (Z.to_nat (kept t (len allColumns))) allColumns.
Proof.
  unfold hideColumns, borderOverhead.
  pose proof (hide_loop_spec t (length allColumns) allColumns 0 (le_n _)) as H.
  cbv zeta in *. destruct H as (H1 & H2 & H3 & H4).
  repeat split; try assumption; lia.
Qed.

Lemma layout_columns (t : Z) (rows displayRows : list row) (first : row)
    (options : TableOptions) :
  columns (layout t rows displayRows first options)
  = fst (fst (hideColumns t (keys first))).
Proof.
  unfold layout.
  destruct (hideColumns t (keys first)) as [[cols h] a]. reflexivity.
Qed.

Lemma kept_monotone (t1 t2 n : Z) : t1 <= t2 -> kept t1 n <= kept t2 n.
Proof.
  intros H. unfold kept. destruct (n <=? 1); [lia |].
  assert ((t1 - 1) / 6 <= (t2 - 1) / 6) by (apply Z.div_le_mono; lia).
  lia.
Qed.

(** C7 (amended). With the rows and the options fixed, a narrower
    terminal never shows more columns; and when the first row has at
    least one column, at least one column stays visible at every
    terminal width. *)
Theorem column_hiding_monotone (rows displayRows : list row) (first : row)
    (options : TableOptions) (t1 t2 : Z) :
  t1 <= t2 ->
  len (columns (layout t1 rows displayRows first options))
  <= len (columns (layout t2 rows displayRows first options))
  /\ (keys first <> [] ->
      1 <= len (columns (layout t1 rows displayRows first options))).
Proof.
  intros Hle. rewrite !layout_columns.
  destruct (hideColumns_spec t1 (keys first)) as (H1 & _).
  destruct (hideColumns_spec t2 (keys first)) as (H2 & _).
  rewrite H1, H2. split.
  - apply kept_monotone. exact Hle.
  - intros Hne. unfold kept.
    assert (1 <= len (keys first)).
    { destruct (keys first); [congruence | unfold len; simpl; lia]. }
    destruct (len (keys first) <=? 1); lia.
Qed.

End HidingFacts.

Lemma column_hiding_monotone_witness :
  len (columns (@layout (plain 80) 30
                  [abc_row]
                  [abc_row]
                  abc_row
                  defaultOptions))
  <= len (columns (@layout (plain 80) 80
                  [abc_row]
                  [abc_row]
                  abc_row
                  defaultOptions))
  /\ 1 <= len (columns (@layout (plain 80) 30
                  [abc_row]
                  [abc_row]
                  abc_row
                  defaultOptions)).
Proof.
  pose proof (@column_hiding_monotone (plain 80)
                [abc_row]
                [abc_row]
                abc_row
                defaultOptions 30 80 ltac:(lia)) as [H1 H2].
  split; [exact H1 | apply H2; discriminate].
Defined.

(** C7 as stated fails for a row without columns: nothing is hidden,
    and nothing is visible. *)
Lemma no_column_no_visible_column :
  ~ (1 <= len (columns (@layout (plain 80) 120
                          [[]] [[]] [] defaultOptions))).
Proof. vm_compute. intros H. apply H. reflexivity. Qed.

(** ** Width compression *)

Lemma fold_add_shift (zs : list Z) (a : Z) :
  fold_left Z.add zs a = a + fold_left Z.add zs 0.
Proof.
  revert a. induction zs as [| z zs IH]; intros a; simpl; [lia |].
  rewrite (IH (a + z)), (IH z). lia.
Qed.

Lemma zsum_cons (z : Z) (zs : list Z) : zsum (z :: zs) = z + zsum zs.
Proof. unfold zsum. simpl. apply fold_add_shift. Qed.

Lemma zsum_app (a b : list Z) : zsum (a ++ b) = zsum a + zsum b.
Proof.
  induction a as [| z a IH]; [reflexivity |].
  simpl app. rewrite !zsum_cons, IH. lia.
Qed.

Lemma nsum_fin (zs : list Z) : nsum (map Fin zs) = Fin (zsum zs).
Proof.
  unfold nsum, zsum. generalize 0.
  induction zs as [| z zs IH]; intros a; simpl; [reflexivity | apply IH].
Qed.

Lemma zsum_zset (zs : list Z) (i : nat) (v : Z) :
  (i < length zs)%nat -> zsum (zset zs i v) = zsum zs - nth i zs 0 + v.
Proof.
  revert i. induction zs as [| z zs IH]; intros i Hi; [simpl in Hi; lia |].
  destruct i as [| i]; simpl zset; simpl nth; rewrite !zsum_cons.
  - lia.
  - rewrite IH by (simpl in Hi; lia). lia.
Qed.

Lemma length_zset (zs : list Z) (i : nat) (v : Z) :
  length (zset zs i v) = length zs.
Proof.
  revert i. induction zs as [| z zs IH]; intros i; [reflexivity |].
  destruct i; simpl; [reflexivity | rewrite IH; reflexivity].
Qed.

Lemma set_at_fin (zs : list Z) (i : nat) (v : Z) :
  set_at (map Fin zs) i (Fin v) = map Fin (zset zs i v).
Proof.
  revert i. induction zs as [| z zs IH]; intros i; [reflexivity |].
  destruct i; simpl; [reflexivity | rewrite IH; reflexivity].
Qed.

Lemma at_fin (zs : list Z) (i : nat) :
  (i < length zs)%nat -> at_ (map Fin zs) i = Fin (nth i zs 0).
Proof.
  intros Hi. unfold at_.
  rewrite (nth_indep _ NaN (Fin 0)) by (rewrite length_map; exact Hi).
  apply (map_nth Fin).
Qed.

Lemma Forall_zset (P : Z -> Prop) (zs : list Z) (i : nat) (v : Z) :
  Forall P zs -> P v -> Forall P (zset zs i v).
Proof.
  intros Hall Hv. revert i.
  induction Hall as [| z zs Hz Hall IH]; intros i; [constructor |].
  destruct i; simpl; constructor; auto.
Qed.

(** [widest] answers an index of the list whose element is the largest. *)
Lemma widest_fold (zs : list Z) (indices : list nat) :
  forall m0, (m0 < length zs)%nat ->
    (forall i, In i indices -> (i < length zs)%nat) ->
    let m := fold_left
               (fun maxIdx i =>
                  if ngtb (at_ (map Fin zs) i) (at_ (map Fin zs) maxIdx)
                  then i else maxIdx) indices m0 in
    (m < length zs)%nat
    /\ nth m0 zs 0 <= nth m zs 0
    /\ (forall i, In i indices -> nth i zs 0 <= nth m zs 0).
Proof.
  induction indices as [| j indices IH]; intros m0 Hm0 Hin.
  - simpl. split; [exact Hm0 |]. split; [lia | intros i []].
  - cbn [fold_left].
    assert (Hj : (j < length zs)%nat) by (apply Hin; left; reflexivity).
    rewrite (at_fin zs j Hj), (at_fin zs m0 Hm0). simpl ngtb.
    destruct (nth j zs 0 >? nth m0 zs 0) eqn:E; rewrite Z.gtb_ltb in E.
    + apply Z.ltb_lt in E.
      destruct (IH j Hj (fun i Hi => Hin i (or_intror Hi))) as (H1 & H2 & H3).
      split; [exact H1 |]. split; [lia |].
      intros i [-> | Hi]; [exact H2 | apply H3; exact Hi].
    + apply Z.ltb_ge in E.
      destruct (IH m0 Hm0 (fun i Hi => Hin i (or_intror Hi))) as (H1 & H2 & H3).
      split; [exact H1 |]. split; [exact H2 |].
      intros i [-> | Hi]; [lia | apply H3; exact Hi].
Qed.

Lemma widest_spec (zs : list Z) :
  zs <> [] ->
  (widest (map Fin zs) < length zs)%nat
  /\ (forall z, In z zs -> z <= nth (widest (map Fin zs)) zs 0).
Proof.
  intros Hne. unfold widest. rewrite length_map.
  assert (H0 : (0 < length zs)%nat) by (destruct zs; [congruence | simpl; lia]).
  destruct (widest_fold zs (seq 1 (length zs - 1)) 0%nat H0) as (H1 & H2 & H3).
  { intros i Hi. apply in_seq in Hi. lia. }
  split; [exact H1 |].
  intros z Hz. destruct (In_nth zs z 0 Hz) as (i & Hi & <-).
  destruct i as [| i]; [exact H2 |].
  apply H3. apply in_seq. lia.
Qed.

Lemma shrink_loop_spec (a : Z) (fuel : nat) :
  forall zs, Forall (fun z => 3 <= z) zs -> zsum zs - a <= Z.of_nat fuel ->
    exists zs',
      shrink_loop fuel a (map Fin zs) (Fin (zsum zs))
      = (map Fin zs', Fin (zsum zs'))
      /\ length zs' = length zs
      /\ Forall (fun z => 3 <= z) zs'
      /\ (zsum zs' <= a \/ Forall (fun z => z = 3) zs').
Proof.
  induction fuel as [| fuel IH]; intros zs Hall Hfuel.
  - exists zs. simpl. repeat split; auto. left. lia.
  - cbn [shrink_loop]. cbv zeta. simpl ngtb at 1. unfold minColWidth.
    destruct ((zsum zs >? a) && existsb (fun w => ngtb w (Fin 3)) (map Fin zs))
      eqn:Econd.
    + apply andb_true_iff in Econd. destruct Econd as [E1 E2].
      rewrite Z.gtb_ltb in E1. apply Z.ltb_lt in E1.
      apply existsb_exists in E2. destruct E2 as (w & Hw & Hgt).
      apply in_map_iff in Hw. destruct Hw as (z & <- & Hz).
      simpl in Hgt. rewrite Z.gtb_ltb in Hgt. apply Z.ltb_lt in Hgt.
      assert (Hne : zs <> []) by (intros ->; destruct Hz).
      destruct (widest_spec zs Hne) as (Hidx & Hmax).
      set (m := widest (map Fin zs)) in *.
      rewrite (at_fin zs m Hidx). simpl nsub. rewrite set_at_fin.
      specialize (Hmax z Hz).
      assert (Hsum : zsum (zset zs m (nth m zs 0 - 1)) = zsum zs - 1)
        by (rewrite zsum_zset by exact Hidx; lia).
      rewrite <- Hsum.
      destruct (IH (zset zs m (nth m zs 0 - 1))) as (zs' & Heq & Hlen & Hall' & Hexit).
      { apply Forall_zset; [exact Hall | lia]. }
      { lia. }
      exists zs'. rewrite Heq. rewrite length_zset in Hlen. repeat split; auto.
    + exists zs. repeat split; auto.
      apply andb_false_iff in Econd. destruct Econd as [E | E].
      * rewrite Z.gtb_ltb in E. apply Z.ltb_ge in E. left. exact E.
      * right. rewrite Forall_forall in *. intros z Hz.
        specialize (Hall z Hz).
        destruct (Z.eq_dec z 3) as [-> | Hneq]; [reflexivity |].
        exfalso. assert (Hex : existsb (fun w => ngtb w (Fin 3)) (map Fin zs) = true).
        { apply existsb_exists. exists (Fin z). split; [apply in_map; exact Hz |].
          simpl. rewrite Z.gtb_ltb. apply Z.ltb_lt. lia. }
        congruence.
Qed.

Section CompressFacts.

Context {R : Runtime}.

(** The fair shares are numbers as soon as one natural width is not 0. *)
Lemma fairWidths_fin (cols : list jsstring) (ws : list Z) (a : Z) :
  forallb (Z.eqb 0) ws = false ->
  fairWidths cols ws a
  = map Fin (map (fun i => Z.max (nth i (headerWidths cols) 0) (floatFair ws a i))
               (seq 0 (length ws))).
Proof.
  intros Hnz. unfold fairWidths, fair. rewrite Hnz.
  rewrite map_map. reflexivity.
Qed.

Lemma headerWidths_nth (cols : list jsstring) (i : nat) :
  (i < length cols)%nat ->
  nth i (headerWidths cols) 0 = Z.max minColWidth (width (nth i cols [])).
Proof.
  intros Hi. unfold headerWidths.
  rewrite (nth_indep _ 0 (Z.max minColWidth (width []))) by (rewrite length_map; exact Hi).
  apply (map_nth (fun col => Z.max minColWidth (width col))).
Qed.

(** After the fair-share step every column has at least its header
    floor. *)
Lemma fair_step_floor (cols : list jsstring) (ws : list Z) (a : Z) :
  length cols = length ws ->
  Forall2 (fun col f => Z.max minColWidth (width col) <= f) cols
    (map (fun i => Z.max (nth i (headerWidths cols) 0) (floatFair ws a i))
       (seq 0 (length ws))).
Proof.
  intros Hlen. rewrite <- Hlen.
  assert (H : forall start rest,
             (start + length rest = length cols)%nat ->
             rest = skipn start cols ->
             Forall2 (fun col f => Z.max minColWidth (width col) <= f) rest
               (map (fun i => Z.max (nth i (headerWidths cols) 0) (floatFair ws a i))
                  (seq start (length rest)))).
  { intros start rest. revert start.
    induction rest as [| col rest IH]; intros start Hs Hrest; [constructor |].
    simpl in Hs. simpl. constructor.
    - rewrite headerWidths_nth by lia.
      assert (Hnth : nth start cols [] = col).
      { rewrite <- (Nat.add_0_r start), <- nth_skipn, <- Hrest. reflexivity. }
      rewrite Hnth. lia.
    - apply IH; [lia |].
      replace (S start) with (1 + start)%nat by lia.
      rewrite <- skipn_skipn, <- Hrest. reflexivity. }
  apply (H 0%nat cols); reflexivity.
Qed.

Lemma Forall2_floor_three (cols : list jsstring) (fs : list Z) :
  Forall2 (fun col f => Z.max minColWidth (width col) <= f) cols fs ->
  Forall (fun z => 3 <= z) fs.
Proof.
  induction 1 as [| col f cols fs Hf _ IH]; constructor; [| exact IH].
  unfold minColWidth in Hf. lia.
Qed.

(** What [compress] answers when the compression runs on widths that
    are not all 0: numbers, none below 3, and within the budget unless
    every column is down to 3. *)
Lemma compress_runs (cols : list jsstring) (ws : list Z) (a : Z) :
  length cols = length ws ->
  zsum ws > a ->
  forallb (Z.eqb 0) ws = false ->
  exists zs,
    compress cols ws a = map Fin zs
    /\ length zs = length ws
    /\ Forall (fun z => 3 <= z) zs
    /\ (zsum zs <= a \/ Forall (fun z => z = 3) zs).
Proof.
  intros Hlen Hgt Hnz. unfold compress.
  destruct (zsum ws >? a) eqn:E;
    [| rewrite Z.gtb_ltb in E; apply Z.ltb_ge in E; lia].
  rewrite (fairWidths_fin cols ws a Hnz).
  set (fs := map _ (seq 0 (length ws))).
  pose proof (fair_step_floor cols ws a Hlen) as Hfloor. fold fs in Hfloor.
  rewrite nsum_fin. simpl shrink_fuel.
  destruct (shrink_loop_spec a (Z.to_nat (zsum fs - a)) fs) as (zs & Heq & Hl & Hall & Hexit).
  { eapply Forall2_floor_three. exact Hfloor. }
  { lia. }
  exists zs. rewrite Heq. simpl. repeat split; auto.
  rewrite Hl. unfold fs. rewrite length_map, length_seq. reflexivity.
Qed.

Lemma compress_skipped (cols : list jsstring) (ws : list Z) (a : Z) :
  zsum ws <= a -> compress cols ws a = map Fin ws.
Proof.
  intros Hle. unfold compress.
  destruct (zsum ws >? a) eqn:E; [| reflexivity].
  rewrite Z.gtb_ltb in E. apply Z.ltb_lt in E. lia.
Qed.

End CompressFacts.

(** ** Natural widths *)

Lemma Forall2_firstn {A B : Type} (R : A -> B -> Prop) (k : nat)
    (xs : list A) (ys : list B) :
  Forall2 R xs ys -> Forall2 R (firstn k xs) (firstn k ys).
Proof.
  intros H. revert k.
  induction H as [| x y xs ys Hxy _ IH]; intros k.
  - rewrite !firstn_nil. constructor.
  - destruct k; simpl; constructor; auto.
Qed.

Lemma Forall2_length_eq {A B : Type} (R : A -> B -> Prop)
    (xs : list A) (ys : list B) :
  Forall2 R xs ys -> length xs = length ys.
Proof. induction 1; simpl; congruence. Qed.

Lemma Forall2_nth {A B : Type} (R : A -> B -> Prop) (xs : list A) (ys : list B)
    (i : nat) (dx : A) (dy : B) :
  Forall2 R xs ys -> (i < length xs)%nat -> R (nth i xs dx) (nth i ys dy).
Proof.
  intros H. revert i.
  induction H as [| x y xs ys Hxy _ IH]; intros i Hi; [simpl in Hi; lia |].
  destruct i; simpl; [exact Hxy | apply IH; simpl in Hi; lia].
Qed.

Section NaturalFacts.

Context {R : Runtime}.

Lemma widen_spec (ws : list Z) (r : list jsstring) :
  length r = length ws ->
  Forall2 Z.le ws (widen ws r)
  /\ Forall2 (fun text w => width text <= w) r (widen ws r).
Proof.
  unfold widen. revert r.
  induction ws as [| w ws IH]; intros r Hlen.
  - destruct r; [| discriminate]. split; constructor.
  - destruct r as [| text r]; [discriminate |].
    destruct (IH r ltac:(simpl in Hlen; lia)) as [H1 H2].
    simpl. split; constructor; auto; lia.
Qed.

Lemma Forall2_le_trans (a b c : list Z) :
  Forall2 Z.le a b -> Forall2 Z.le b c -> Forall2 Z.le a c.
Proof.
  intros Hab. revert c.
  induction Hab as [| x y a b Hxy _ IH]; intros c Hbc; inversion Hbc; subst;
    constructor; [lia | auto].
Qed.

Lemma Forall2_le_refl (a : list Z) : Forall2 Z.le a a.
Proof. induction a; constructor; [lia | assumption]. Qed.

Lemma Forall2_bound_mono (r : list jsstring) (a b : list Z) :
  Forall2 (fun text w => width text <= w) r a -> Forall2 Z.le a b ->
  Forall2 (fun text w => width text <= w) r b.
Proof.
  intros Hra. revert b.
  induction Hra as [| x y r a Hxy _ IH]; intros b Hab; inversion Hab; subst;
    constructor; [lia | auto].
Qed.

Lemma widen_fold_spec (formattedRows : list (list jsstring)) :
  forall ws0,
    (forall r, In r formattedRows -> length r = length ws0) ->
    Forall2 Z.le ws0 (fold_left widen formattedRows ws0)
    /\ (forall r, In r formattedRows ->
          Forall2 (fun text w => width text <= w) r
            (fold_left widen formattedRows ws0)).
Proof.
  induction formattedRows as [| r0 rest IH]; intros ws0 Hlen.
  - simpl. split; [apply Forall2_le_refl | intros r []].
  - simpl.
    destruct (widen_spec ws0 r0 (Hlen r0 (or_introl eq_refl))) as [Hle Hr0].
    assert (Hlen' : forall r, In r rest -> length r = length (widen ws0 r0)).
    { intros r Hr. rewrite <- (Forall2_length_eq _ _ _ Hle).
      apply Hlen. right. exact Hr. }
    destruct (IH (widen ws0 r0) Hlen') as [Hle' Hrest].
    split; [eapply Forall2_le_trans; eassumption |].
    intros r [<- | Hr]; [| apply Hrest; exact Hr].
    eapply Forall2_bound_mono; eassumption.
Qed.

(** The natural widths bound the width of every header and of every
    formatted cell of the rows drawn, and none is negative. *)
Lemma naturalWidths_spec (allColumns : list jsstring)
    (formattedRows : list (list jsstring)) :
  (forall r, In r formattedRows -> length r = length allColumns) ->
  Forall2 (fun col w => width col <= w) allColumns
    (naturalWidths allColumns formattedRows)
  /\ (forall r, In r formattedRows ->
        Forall2 (fun text w => width text <= w) r
          (naturalWidths allColumns formattedRows)).
Proof.
  intros Hlen. unfold naturalWidths.
  destruct (widen_fold_spec formattedRows (map width allColumns)) as [Hle Hrows].
  { intros r Hr. rewrite length_map. apply Hlen. exact Hr. }
  split; [| exact Hrows].
  eapply Forall2_bound_mono; [| exact Hle].
  clear. induction allColumns; simpl; constructor; [lia | assumption].
Qed.

Lemma bound_nonneg (xs : list jsstring) (ws : list Z) :
  Forall2 (fun text w => width text <= w) xs ws -> Forall (fun w => 0 <= w) ws.
Proof.
  induction 1 as [| x w xs ws Hxw _ IH]; constructor; [| exact IH].
  unfold width in Hxw. lia.
Qed.

End NaturalFacts.

(** ** The layout *)

Lemma kept_bounds (t n : Z) : 0 <= n -> 0 <= kept t n <= n.
Proof.
  intros Hn. unfold kept. destruct (n <=? 1) eqn:E; [lia |].
  apply Z.leb_gt in E. lia.
Qed.

Lemma kept_positive (t n : Z) : 1 <= n -> 1 <= kept t n.
Proof.
  intros Hn. unfold kept. destruct (n <=? 1) eqn:E; lia.
Qed.

(** On a terminal of 7 columns or more, the columns kept all have room
    for the floor of 3. *)
Lemma kept_room (t n : Z) : 7 <= t -> 1 <= n -> 6 * kept t n <= t - 1.
Proof.
  intros Ht Hn. unfold kept. destruct (n <=? 1) eqn:E.
  - apply Z.leb_le in E. lia.
  - apply Z.leb_gt in E. Z.div_mod_to_equations. lia.
Qed.

Section LayoutFacts.

Context {R : Runtime}.

Lemma layout_fields (t : Z) (rows displayRows : list row) (first : row)
    (options : TableOptions) :
  let L := layout t rows displayRows first options in
  let k := Z.to_nat (kept t (len (keys first))) in
  let formattedRows := map (formatRow (keys first)) displayRows in
  columns L = firstn k (keys first)
  /\ hiddenCols L = len (keys first) - kept t (len (keys first))
  /\ available L = t - (4 + (kept t (len (keys first)) - 1) * 3)
  /\ natural L = firstn k (naturalWidths (keys first) formattedRows)
  /\ visibleFormattedRows L = map (firstn k) formattedRows
  /\ visibleIsNumeric L = firstn k (isNumericCol displayRows (keys first))
  /\ compressed L = compress (columns L) (natural L) (available L)
  /\ info L = infoText (truncatedRows (len rows) (totalRows options) (len displayRows))
                (hiddenCols L)
  /\ contentWidth L
     = nadd (nsum (compressed L)) (Fin ((len (columns L) - 1) * 3))
  /\ innerWidth L
     = nmin (nmax (contentWidth L) (Fin (titleWidth (title options))))
         (Fin (t - 4))
  /\ visibleColWidths L
     = if ngtb (innerWidth L) (contentWidth L) && (len (compressed L) >? 0)
       then expand_last (compressed L) (nsub (innerWidth L) (contentWidth L))
       else compressed L.
Proof.
  cbv zeta. unfold layout.
  destruct (hideColumns_spec t (keys first)) as (H1 & H2 & H3 & H4).
  destruct (hideColumns t (keys first)) as [[cols h] a].
  simpl in H1, H2, H3, H4. cbn [columns hiddenCols available natural
    visibleFormattedRows visibleIsNumeric compressed info contentWidth
    innerWidth visibleColWidths].
  pose proof (kept_bounds t (len (keys first)) (len_nonneg _)) as Hk.
  rewrite H1.
  repeat split; try assumption; try reflexivity.
  - apply slice_prefix. lia.
  - apply map_ext. intros r. apply slice_prefix. lia.
  - apply slice_prefix. lia.
Qed.

Lemma length_formatRow (allColumns : list jsstring) (r : row) :
  length (formatRow allColumns r) = length allColumns.
Proof. unfold formatRow. apply length_map. Qed.

(** The visible natural widths bound the visible headers and cells. *)
Lemma layout_natural (t : Z) (rows displayRows : list row) (first : row)
    (options : TableOptions) :
  let L := layout t rows displayRows first options in
  Forall2 (fun col w => width col <= w) (columns L) (natural L)
  /\ (forall r, In r (visibleFormattedRows L) ->
        Forall2 (fun text w => width text <= w) r (natural L)).
Proof.
  cbv zeta.
  destruct (layout_fields t rows displayRows first options)
    as (Hc & _ & _ & Hn & Hr & _).
  cbv zeta in *. rewrite Hc, Hn, Hr.
  destruct (naturalWidths_spec (keys first)
              (map (formatRow (keys first)) displayRows)) as [Hcols Hrows].
  { intros r Hin. apply in_map_iff in Hin. destruct Hin as (x & <- & _).
    apply length_formatRow. }
  split.
  - apply Forall2_firstn. exact Hcols.
  - intros r Hin. apply in_map_iff in Hin. destruct Hin as (r0 & <- & Hr0).
    apply Forall2_firstn. apply Hrows. exact Hr0.
Qed.

Lemma forallb_zero_false (ws : list Z) :
  Exists (fun n => n <> 0) ws -> forallb (Z.eqb 0) ws = false.
Proof.
  induction 1 as [w ws Hw | w ws _ IH]; cbn [forallb].
  - destruct (0 =? w) eqn:E; [apply Z.eqb_eq in E; congruence | reflexivity].
  - rewrite IH. apply andb_false_r.
Qed.

(** C3 (amended). Whenever the sum of the visible columns' natural
    widths exceeds the available width and one of them is not 0 (so
    that the fair shares are numbers), every visible column's width
    after the compression is a number of at least 3, the floor of the
    shrinking loop; the loop does go below the header's width. *)
Theorem compression_keeps_floor (t : Z) (rows displayRows : list row)
    (first : row) (options : TableOptions) :
  zsum (natural (layout t rows displayRows first options))
    > available (layout t rows displayRows first options) ->
  Exists (fun n => n <> 0) (natural (layout t rows displayRows first options)) ->
  Forall (fun w => exists z, w = Fin z /\ minColWidth <= z)
    (compressed (layout t rows displayRows first options)).
Proof.
  intros Hgt Hnz.
  destruct (layout_fields t rows displayRows first options)
    as (_ & _ & _ & _ & _ & _ & Hcomp & _).
  destruct (layout_natural t rows displayRows first options) as [Hcols _].
  cbv zeta in *. rewrite Hcomp.
  destruct (compress_runs _ _ _
              (Forall2_length_eq _ _ _ Hcols) Hgt (forallb_zero_false _ Hnz))
    as (zs & -> & _ & Hall & _).
  apply Forall_forall. intros w Hw. apply in_map_iff in Hw.
  destruct Hw as (z & <- & Hz). exists z. split; [reflexivity |].
  rewrite Forall_forall in Hall. unfold minColWidth. apply Hall. exact Hz.
Qed.

Lemma Forall2_le_zset (zs : list Z) (i : nat) (e : Z) :
  0 <= e -> Forall2 Z.le zs (zset zs i (nth i zs 0 + e)).
Proof.
  intros He. revert i.
  induction zs as [| z zs IH]; intros i; [constructor |].
  destruct i; simpl; constructor; try lia; [apply Forall2_le_refl | apply IH].
Qed.

Lemma expand_last_fin (zs : list Z) (e : Z) :
  zs <> [] ->
  expand_last (map Fin zs) (Fin e)
  = map Fin (zset zs (length zs - 1) (nth (length zs - 1) zs 0 + e)).
Proof.
  intros Hne. unfold expand_last. rewrite length_map.
  rewrite at_fin by (destruct zs; [congruence | simpl; lia]).
  simpl nadd. apply set_at_fin.
Qed.

Lemma Forall2_map_fin_le (ns zs : list Z) (bound : Z -> Z) :
  length ns = length zs ->
  (forall i, (i < length ns)%nat -> bound (nth i ns 0) <= nth i zs 0) ->
  Forall2 (fun n z => bound n <= z) ns zs.
Proof.
  revert zs. induction ns as [| n ns IH]; intros zs Hlen H.
  - destruct zs; [constructor | discriminate].
  - destruct zs as [| z zs]; [discriminate |]. constructor.
    + apply (H 0%nat). simpl. lia.
    + apply IH; [simpl in Hlen; lia |].
      intros i Hi. apply (H (S i)). simpl. lia.
Qed.

(** The widths of a layout whose fair shares are numbers. *)
Lemma layout_widths (t : Z) (rows displayRows : list row) (first : row)
    (options : TableOptions) :
  let L := layout t rows displayRows first options in
  (zsum (natural L) > available L -> Exists (fun n => n <> 0) (natural L)) ->
  exists zs zs',
    compressed L = map Fin zs
    /\ visibleColWidths L = map Fin zs'
    /\ length zs = length (natural L)
    /\ length zs' = length zs
    /\ Forall2 (fun n z =>
                  (if zsum (natural L) >? available L then minColWidth else n) <= z)
         (natural L) zs
    /\ Forall2 Z.le zs zs'
    /\ (zsum zs <= available L
        \/ (zsum (natural L) > available L /\ Forall (fun z => z = 3) zs))
    /\ contentWidth L = Fin (zsum zs + (len (columns L) - 1) * 3)
    /\ innerWidth L
       = Fin (Z.min (Z.max (zsum zs + (len (columns L) - 1) * 3)
                       (titleWidth (title options))) (t - 4))
    /\ zsum zs'
       = zsum zs
         + (if (Z.min (Z.max (zsum zs + (len (columns L) - 1) * 3)
                         (titleWidth (title options))) (t - 4)
                >? zsum zs + (len (columns L) - 1) * 3) && (len zs >? 0)
            then Z.min (Z.max (zsum zs + (len (columns L) - 1) * 3)
                          (titleWidth (title options))) (t - 4)
                 - (zsum zs + (len (columns L) - 1) * 3)
            else 0).
Proof.
  cbv zeta. intros Hnz.
  destruct (layout_fields t rows displayRows first options)
    as (_ & _ & _ & _ & _ & _ & Hcomp & _ & Hcontent & Hinner & Hfinal).
  destruct (layout_natural t rows displayRows first options) as [Hcols _].
  cbv zeta in *.
  set (L := layout t rows displayRows first options) in *.
  assert (Hzs : exists zs,
             compressed L = map Fin zs
             /\ length zs = length (natural L)
             /\ Forall2 (fun n z =>
                  (if zsum (natural L) >? available L then minColWidth else n) <= z)
                  (natural L) zs
             /\ (zsum zs <= available L
                 \/ (zsum (natural L) > available L /\ Forall (fun z => z = 3) zs))).
  { rewrite Hcomp. destruct (zsum (natural L) >? available L) eqn:E.
    - rewrite Z.gtb_ltb in E. apply Z.ltb_lt in E.
      destruct (compress_runs (columns L) (natural L)
                  (available L) (Forall2_length_eq _ _ _ Hcols) ltac:(lia)
                  (forallb_zero_false _ (Hnz ltac:(lia))))
        as (zs & Heq & Hlen & Hall & Hexit).
      exists zs. split; [exact Heq |]. split; [exact Hlen |]. split.
      + apply Forall2_map_fin_le; [symmetry; exact Hlen |].
        intros i Hi. rewrite Forall_forall in Hall. unfold minColWidth.
        apply Hall. apply nth_In. lia.
      + destruct Hexit as [Hb | H3]; [left; exact Hb | right; split; [lia | exact H3]].
    - rewrite Z.gtb_ltb in E. apply Z.ltb_ge in E.
      exists (natural L). rewrite compress_skipped by exact E.
      split; [reflexivity |]. split; [reflexivity |]. split.
      + apply Forall2_map_fin_le; [reflexivity | intros; lia].
      + left. exact E. }
  destruct Hzs as (zs & Heq & Hlen & Hfloor & Hbudget).
  rewrite Heq in Hcontent, Hfinal. rewrite nsum_fin in Hcontent. simpl in Hcontent.
  rewrite Hcontent in Hinner, Hfinal. simpl in Hinner.
  rewrite Hinner in Hfinal. simpl ngtb in Hfinal. simpl nsub in Hfinal.
  set (content := zsum zs + (len (columns L) - 1) * 3) in *.
  set (inner := Z.min (Z.max content (titleWidth (title options))) (t - 4)) in *.
  assert (Hlenmap : len (map Fin zs) = len zs) by (unfold len; rewrite length_map; reflexivity).
  rewrite Hlenmap in Hfinal.
  destruct ((inner >? content) && (len zs >? 0)) eqn:Econd.
  - pose proof Econd as Hc.
    apply andb_true_iff in Econd. destruct Econd as [E1 E2].
    rewrite Z.gtb_ltb in E1, E2. apply Z.ltb_lt in E1, E2.
    assert (Hne : zs <> []) by (intros ->; unfold len in E2; simpl in E2; lia).
    rewrite expand_last_fin in Hfinal by exact Hne.
    exists zs. eexists. split; [exact Heq |]. split; [exact Hfinal |].
    split; [exact Hlen |]. split; [apply length_zset |].
    split; [exact Hfloor |].
    split; [apply Forall2_le_zset; lia |].
    split; [exact Hbudget |]. split; [exact Hcontent |]. split; [exact Hinner |].
    rewrite zsum_zset by (destruct zs; [congruence | simpl; lia]).
    fold content. fold inner. rewrite Hc. lia.
  - exists zs, zs. split; [exact Heq |]. split; [exact Hfinal |].
    split; [exact Hlen |]. split; [reflexivity |].
    split; [exact Hfloor |]. split; [apply Forall2_le_refl |].
    split; [exact Hbudget |]. split; [exact Hcontent |]. split; [exact Hinner |].
    fold content. fold inner. rewrite Econd. lia.
Qed.

(** C4 (amended). For every input whose fair shares are numbers (the
    compression does not run on natural widths that are all 0), every
    visible column is drawn with a width that is a number: at least the
    floor of 3 when the compression ran, and at least the column's
    natural width, which is not negative, when it did not. So the width
    is never negative, and it is 0 only for a column of natural width 0
    in a table that needed no compression. *)
Theorem drawn_widths_floor (t : Z) (rows displayRows : list row)
    (first : row) (options : TableOptions) :
  (zsum (natural (layout t rows displayRows first options))
     > available (layout t rows displayRows first options) ->
   Exists (fun n => n <> 0) (natural (layout t rows displayRows first options))) ->
  Forall2 (fun n w =>
             exists z, w = Fin z /\ 0 <= n
               /\ (if zsum (natural (layout t rows displayRows first options))
                      >? available (layout t rows displayRows first options)
                   then minColWidth else n) <= z)
    (natural (layout t rows displayRows first options))
    (visibleColWidths (layout t rows displayRows first options)).
Proof.
  intros Hnz.
  destruct (layout_widths t rows displayRows first options Hnz)
    as (zs & zs' & _ & Hfinal & Hlen & Hlen' & Hfloor & Hle & _).
  destruct (layout_natural t rows displayRows first options) as [Hcols _].
  cbv zeta in *. rewrite Hfinal.
  pose proof (bound_nonneg _ _ Hcols) as Hnonneg.
  set (L := layout t rows displayRows first options) in *.
  set (b := zsum (natural L) >? available L) in *.
  clearbody b. clear Hfinal Hcols Hnz.
  revert zs zs' Hlen Hlen' Hfloor Hle Hnonneg.
  generalize (natural L). clear L.
  intros ns zs zs' Hlen Hlen' Hfloor Hle Hnonneg.
  revert zs' Hlen' Hle Hnonneg.
  induction Hfloor as [| n z ns zs Hnz _ IH]; intros zs' Hlen' Hle Hnonneg.
  - inversion Hle; subst. constructor.
  - inversion Hle as [| z0 z' zs0 zs'' Hzz Hrest]; subst.
    inversion Hnonneg; subst. simpl. constructor.
    + exists z'. split; [reflexivity |]. split; [assumption |]. lia.
    + apply IH; auto.
Qed.

End LayoutFacts.

(** ** Output of a run *)

Lemma emitted_bind {A B : Type} (m : io A) (k : A -> io B) :
  emitted (bind m k)
  = emitted m ++ match outcome m with
                 | inr a => emitted (k a)
                 | inl _ => []
                 end.
Proof.
  destruct m as [out [e | a]]; simpl.
  - rewrite app_nil_r. reflexivity.
  - destruct (k a). reflexivity.
Qed.

Lemma outcome_bind {A B : Type} (m : io A) (k : A -> io B) :
  outcome (bind m k)
  = match outcome m with
    | inr a => outcome (k a)
    | inl e => inl e
    end.
Proof.
  destruct m as [out [e | a]]; simpl; [reflexivity |].
  destruct (k a). reflexivity.
Qed.

(** A property of every line written passes through [bind]. *)
Lemma lines_bind {A B : Type} (P : jsstring -> Prop) (m : io A) (k : A -> io B) :
  Forall P (emitted m) ->
  (forall a, outcome m = inr a -> Forall P (emitted (k a))) ->
  Forall P (emitted (bind m k)).
Proof.
  intros Hm Hk. rewrite emitted_bind. apply Forall_app. split; [exact Hm |].
  destruct (outcome m) as [e | a]; [constructor | apply Hk; reflexivity].
Qed.

Lemma lines_lift {A : Type} (P : jsstring -> Prop) (r : res A) :
  Forall P (emitted (lift r)).
Proof. constructor. Qed.

Lemma lines_log (P : jsstring -> Prop) (line : jsstring) :
  P line -> Forall P (emitted (console_log line)).
Proof. intros H. constructor; [exact H | constructor]. Qed.

Lemma lines_lift_log (P : jsstring -> Prop) (r : res jsstring) :
  (forall line, r = inr line -> P line) ->
  Forall P (emitted (bind (lift r) (fun line => console_log line))).
Proof.
  intros H. apply lines_bind; [apply lines_lift |].
  intros line Hline. apply lines_log. apply H. exact Hline.
Qed.

Lemma lines_for_each {A : Type} (P : jsstring -> Prop) (f : A -> io unit)
    (xs : list A) :
  (forall x, In x xs -> Forall P (emitted (f x))) ->
  Forall P (emitted (for_each f xs)).
Proof.
  induction xs as [| x xs IH]; intros H; [constructor |].
  simpl for_each. apply lines_bind.
  - apply H. left. reflexivity.
  - intros _ _. apply IH. intros y Hy. apply H. right. exact Hy.
Qed.

Lemma inr_eq {A B : Type} (a b : B) : @inr A B a = inr b -> a = b.
Proof. intros H. injection H as ->. reflexivity. Qed.

Lemma rmap_inr {A B : Type} (f : A -> res B) (xs : list A) (ys : list B) :
  rmap f xs = inr ys -> Forall2 (fun x y => f x = inr y) xs ys.
Proof.
  revert ys. induction xs as [| x xs IH]; intros ys H; simpl in H.
  - inversion H. constructor.
  - destruct (f x) as [e | y] eqn:Ex; [discriminate |]. simpl in H.
    destruct (rmap f xs) as [e | ys'] eqn:Exs; [discriminate |]. simpl in H.
    inversion H; subst. constructor; [exact Ex | apply IH; reflexivity].
Qed.

Lemma rmap_total {A B : Type} (f : A -> res B) (xs : list A) :
  (forall x, In x xs -> exists y, f x = inr y) ->
  exists ys, rmap f xs = inr ys.
Proof.
  induction xs as [| x xs IH]; intros H; [exists []; reflexivity |].
  destruct (H x (or_introl eq_refl)) as (y & Hy).
  destruct (IH (fun z Hz => H z (or_intror Hz))) as (ys & Hys).
  exists (y :: ys). simpl. rewrite Hy. simpl. rewrite Hys. reflexivity.
Qed.

(** [rmapi] against a list of widths of the same length. *)
Lemma rmapi_inr {A B C : Type} (f : A -> nat -> res B) (Rel : B -> C -> Prop)
    (dc : C) (xs : list A) (zs : list C) (ys : list B) :
  rmapi f xs = inr ys ->
  length zs = length xs ->
  (forall i x y, nth_error xs i = Some x -> f x i = inr y -> Rel y (nth i zs dc)) ->
  Forall2 Rel ys zs.
Proof.
  unfold rmapi. intros Hmap Hlen Hf.
  assert (H : forall start rest zrest ys',
             rmap (fun p => f (snd p) (fst p))
               (combine (seq start (length rest)) rest) = inr ys' ->
             length zrest = length rest ->
             (forall i x y, nth_error rest i = Some x -> f x (start + i)%nat = inr y ->
                            Rel y (nth i zrest dc)) ->
             Forall2 Rel ys' zrest).
  { clear. intros start rest. revert start.
    induction rest as [| x rest IH]; intros start zrest ys' Hmap Hlen Hf.
    - simpl in Hmap. inversion Hmap. destruct zrest; [constructor | discriminate].
    - destruct zrest as [| z zrest]; [discriminate |].
      simpl in Hmap.
      destruct (f x start) as [e | y] eqn:Ex; [discriminate |]. simpl in Hmap.
      destruct (rmap _ (combine (seq (S start) (length rest)) rest))
        as [e | ys''] eqn:Exs; [discriminate |].
      simpl in Hmap. inversion Hmap; subst. constructor.
      + apply (Hf 0%nat x y); [reflexivity |].
        rewrite Nat.add_0_r. exact Ex.
      + apply (IH (S start) zrest ys'' Exs); [simpl in Hlen; lia |].
        intros i x' y' Hx' Hy'. apply (Hf (S i) x' y'); [exact Hx' |].
        rewrite Nat.add_succ_r. exact Hy'. }
  apply (H 0%nat xs zs ys Hmap Hlen). intros i x y Hx Hy.
  apply (Hf i x y Hx). exact Hy.
Qed.

(** ** Strings that break no styling sequence *)

Lemma esc_run_app (a b : jsstring) (st : esc_state) :
  esc_run st (a ++ b)
  = match esc_run st a with
    | Some st' => esc_run st' b
    | None => None
    end.
Proof.
  revert st. induction a as [| c a IH]; intros st; cbn [app esc_run];
    [reflexivity |].
  destruct (esc_step st c); [apply IH | reflexivity].
Qed.

Lemma whole_nil : whole [].
Proof. reflexivity. Qed.

Lemma whole_app (a b : jsstring) : whole a -> whole b -> whole (a ++ b).
Proof. unfold whole. intros Ha Hb. rewrite esc_run_app, Ha. exact Hb. Qed.

Lemma plain_whole (s : jsstring) : plain_text s -> whole s.
Proof.
  unfold plain_text, whole, ESC.
  induction s as [| c s IH]; intros H; [reflexivity |].
  cbn [esc_run esc_step]. cbv delta [ESC].
  destruct (N.eqb_spec c 27) as [-> | Hne].
  - exfalso. apply H. left. reflexivity.
  - apply IH. intros Hin. apply H. right. exact Hin.
Qed.

Lemma plain_app (a b : jsstring) :
  plain_text a -> plain_text b -> plain_text (a ++ b).
Proof.
  unfold plain_text. intros Ha Hb Hin. apply in_app_or in Hin. tauto.
Qed.

Lemma In_slice {A : Type} (l : list A) (from to : Z) (x : A) :
  In x (slice l from to) -> In x l.
Proof.
  unfold slice. intros H.
  set (a := Z.to_nat (rel_index (len l) from)) in *.
  set (k := Z.to_nat (rel_index (len l) to - rel_index (len l) from)) in *.
  rewrite <- (firstn_skipn a l). apply in_or_app. right.
  rewrite <- (firstn_skipn k (skipn a l)). apply in_or_app. left. exact H.
Qed.

Lemma plain_slice (s : jsstring) (from to : Z) :
  plain_text s -> plain_text (slice s from to).
Proof. unfold plain_text. intros H Hin. apply H. eapply In_slice. exact Hin. Qed.

Lemma whole_repeat (s : jsstring) (k : nat) :
  whole s -> whole (concat (repeat s k)).
Proof.
  intros Hs. induction k as [| k IH]; [reflexivity |].
  cbn [repeat concat]. apply whole_app; assumption.
Qed.

Lemma whole_join (sep : jsstring) (parts : list jsstring) :
  whole sep -> Forall whole parts -> whole (join sep parts).
Proof.
  intros Hsep Hparts. induction Hparts as [| p parts Hp Hrest IH]; [reflexivity |].
  destruct parts as [| q parts]; [exact Hp |].
  change (join sep (p :: q :: parts)) with (p ++ sep ++ join sep (q :: parts)).
  apply whole_app; [exact Hp |]. apply whole_app; [exact Hsep | exact IH].
Qed.

Lemma glyph_plain (g : jsstring) : In g glyphs -> plain_text g.
Proof.
  unfold glyphs. intros Hg. cbn [In] in Hg.
  repeat (destruct Hg as [<- | Hg];
          [intros Hin; cbn in Hin;
           repeat (destruct Hin as [Hin | Hin]; [discriminate Hin |]);
           exact Hin |]).
  destruct Hg.
Qed.

Lemma whole_glyph (g : jsstring) : In g glyphs -> whole g.
Proof. intros Hg. apply plain_whole. apply glyph_plain. exact Hg. Qed.

Lemma whole_space : whole SPACE.
Proof. reflexivity. Qed.

(** ** Display widths of the pieces of a line *)

Lemma width_nonneg {R : Runtime} (s : jsstring) : 0 <= width s.
Proof. unfold width. lia. Qed.

Lemma whole_dim {R : Runtime} : whole dim.
Proof. unfold dim. destruct enableANSIColors; reflexivity. Qed.

Lemma whole_reset {R : Runtime} : whole reset.
Proof. unfold reset. destruct enableANSIColors; reflexivity. Qed.

Lemma whole_bold {R : Runtime} : whole bold.
Proof. unfold bold. destruct enableANSIColors; reflexivity. Qed.

Lemma whole_ellipsized {R : Runtime} (prefix : jsstring) :
  whole prefix -> whole (ellipsized prefix).
Proof.
  intros H. unfold ellipsized.
  destruct enableANSIColors; repeat apply whole_app;
    try exact H; reflexivity.
Qed.

(** [truncate] keeps plain text whole: a prefix of it, the ellipsis and
    the reset sequence. *)
Lemma whole_truncate {R : Runtime} (text : jsstring) (w : num) :
  plain_text text -> whole (truncate text w).
Proof.
  intros H. unfold truncate.
  destruct (nleb (Fin (width text)) w); [apply plain_whole; exact H |].
  apply whole_ellipsized. apply plain_whole. apply plain_slice. exact H.
Qed.

Lemma whole_padRight {R : Runtime} (s : jsstring) (w : num) (p : jsstring) :
  whole s -> padRight s w = inr p -> whole p.
Proof.
  intros Hs. unfold padRight.
  destruct (ngeb (Fin (width s)) w); [intros H; apply inr_eq in H; subst; exact Hs |].
  destruct (nsub w (Fin (width s))) as [z |]; cbn [str_repeat].
  - destruct (z <? 0); cbn [rbind]; [discriminate |].
    intros H. apply inr_eq in H. subst p.
    apply whole_app; [exact Hs | apply whole_repeat; reflexivity].
  - cbn [rbind]. intros H. apply inr_eq in H. subst p.
    apply whole_app; [exact Hs | reflexivity].
Qed.

Lemma whole_padLeft {R : Runtime} (s : jsstring) (w : num) (p : jsstring) :
  whole s -> padLeft s w = inr p -> whole p.
Proof.
  intros Hs. unfold padLeft.
  destruct (ngeb (Fin (width s)) w); [intros H; apply inr_eq in H; subst; exact Hs |].
  destruct (nsub w (Fin (width s))) as [z |]; cbn [str_repeat].
  - destruct (z <? 0); cbn [rbind]; [discriminate |].
    intros H. apply inr_eq in H. subst p.
    apply whole_app; [apply whole_repeat; reflexivity | exact Hs].
  - cbn [rbind]. intros H. apply inr_eq in H. subst p.
    apply whole_app; [reflexivity | exact Hs].
Qed.

(** Goals that a string built by the renderer is whole. *)
Ltac whole_solve :=
  repeat first
    [ assumption
    | apply whole_nil
    | apply whole_dim
    | apply whole_reset
    | apply whole_bold
    | apply whole_space
    | apply whole_app
    | apply whole_glyph; unfold glyphs; cbn [In]; tauto ].

Section WidthFacts.

Context {R : Runtime}.
Hypothesis Hadd : additive_widths R.

Lemma width_app (a b : jsstring) :
  whole a -> whole b -> width (a ++ b) = width a + width b.
Proof. intros Ha Hb. unfold width. rewrite (width_concat Hadd) by assumption. lia. Qed.

Lemma width_nil : width [] = 0.
Proof.
  pose proof (width_app [] [] whole_nil whole_nil) as H. simpl in H. lia.
Qed.

Lemma stringWidth_nil : stringWidth [] = 0%nat.
Proof. pose proof width_nil as H. unfold width in H. lia. Qed.

Lemma width_glyph (g : jsstring) : In g glyphs -> width g = 1.
Proof. intros H. unfold width. rewrite (glyph_width Hadd g H). reflexivity. Qed.

Lemma width_dim : width dim = 0.
Proof. unfold width. destruct (style_width Hadd) as (H & _ & _). rewrite H. reflexivity. Qed.

Lemma width_reset : width reset = 0.
Proof. unfold width. destruct (style_width Hadd) as (_ & H & _). rewrite H. reflexivity. Qed.

Lemma width_bold : width bold = 0.
Proof. unfold width. destruct (style_width Hadd) as (_ & _ & H). rewrite H. reflexivity. Qed.

Lemma width_space : width SPACE = 1.
Proof. apply width_glyph. unfold glyphs. simpl. tauto. Qed.

Lemma width_ellipsis : width ELLIPSIS = 1.
Proof. apply width_glyph. unfold glyphs. simpl. tauto. Qed.

Lemma width_horizontal : width BOX.horizontal = 1.
Proof. apply width_glyph. unfold glyphs. simpl. tauto. Qed.

Lemma width_vertical : width BOX.vertical = 1.
Proof. apply width_glyph. unfold glyphs. simpl. tauto. Qed.

Lemma width_repeat (s : jsstring) (k : nat) :
  whole s -> width (concat (repeat s k)) = Z.of_nat k * width s.
Proof.
  intros Hs. induction k as [| k IH]; simpl repeat; simpl concat.
  - rewrite width_nil. lia.
  - rewrite width_app, IH by (try apply whole_repeat; exact Hs). lia.
Qed.

Lemma width_join (sep : jsstring) (parts : list jsstring) :
  whole sep -> Forall whole parts -> parts <> [] ->
  width (join sep parts) = zsum (map width parts) + (len parts - 1) * width sep.
Proof.
  intros Hsep Hparts.
  induction Hparts as [| p parts Hp Hrest IH]; intros Hne; [congruence |].
  destruct parts as [| q parts].
  - simpl. rewrite zsum_cons. unfold zsum, len. simpl. lia.
  - change (join sep (p :: q :: parts)) with (p ++ sep ++ join sep (q :: parts)).
    assert (Hj : whole (join sep (q :: parts))) by (apply whole_join; assumption).
    rewrite !width_app by whole_solve. rewrite IH by discriminate.
    simpl map. rewrite !zsum_cons. unfold len. simpl length. lia.
Qed.

Lemma width_ellipsized (prefix : jsstring) :
  whole prefix -> width (ellipsized prefix) = width prefix + 1.
Proof.
  intros Hp. unfold ellipsized. pose proof width_reset as Hr. unfold reset in Hr.
  destruct enableANSIColors.
  - rewrite !width_app, width_ellipsis, Hr by (whole_solve; reflexivity). lia.
  - rewrite width_app, width_ellipsis by (whole_solve; reflexivity). lia.
Qed.

(** [truncate] fits a plain text into every width of one column or
    more. *)
Lemma width_truncate (text : jsstring) (w : Z) :
  plain_text text -> 1 <= w -> width (truncate text (Fin w)) <= w.
Proof.
  intros Hplain Hw.
  destruct (Z.le_gt_cases (width text) w) as [Hfit | Hwide].
  - rewrite truncate_fits by exact Hfit. exact Hfit.
  - destruct (truncate_cut_room text w stringWidth_nil Hw ltac:(lia))
      as (r & _ & Hroom & Heq).
    rewrite Heq, width_ellipsized; [lia |].
    apply plain_whole. apply plain_slice. exact Hplain.
Qed.

Lemma spaces_width (k : nat) : width (concat (repeat SPACE k)) = Z.of_nat k.
Proof. rewrite width_repeat, width_space by reflexivity. lia. Qed.

Lemma padRight_width (s : jsstring) (w : Z) (p : jsstring) :
  whole s -> padRight s (Fin w) = inr p -> width s <= w -> width p = w.
Proof.
  unfold padRight. simpl ngeb. intros Hs H Hfit.
  destruct (width s >=? w) eqn:E.
  - inversion H; subst. rewrite Z.geb_leb in E. apply Z.leb_le in E. lia.
  - rewrite Z.geb_leb in E. apply Z.leb_gt in E.
    simpl in H. destruct (w - width s <? 0) eqn:E'; [discriminate |].
    simpl in H. inversion H; subst.
    rewrite width_app, spaces_width by (try apply whole_repeat; whole_solve). lia.
Qed.

Lemma padLeft_width (s : jsstring) (w : Z) (p : jsstring) :
  whole s -> padLeft s (Fin w) = inr p -> width s <= w -> width p = w.
Proof.
  unfold padLeft. simpl ngeb. intros Hs H Hfit.
  destruct (width s >=? w) eqn:E.
  - inversion H; subst. rewrite Z.geb_leb in E. apply Z.leb_le in E. lia.
  - rewrite Z.geb_leb in E. apply Z.leb_gt in E.
    simpl in H. destruct (w - width s <? 0) eqn:E'; [discriminate |].
    simpl in H. inversion H; subst.
    rewrite width_app, spaces_width by (try apply whole_repeat; whole_solve). lia.
Qed.

(** What [truncate] makes of a text that can be measured in its
    column: a whole string that fits the column. *)
Lemma truncate_drawable (text : jsstring) (z : Z) :
  fits text z -> drawable text (Fin z) ->
  whole (truncate text (Fin z)) /\ width (truncate text (Fin z)) <= z.
Proof.
  intros Hfits [Hplain | [Hwhole Hle]].
  - split; [apply whole_truncate; exact Hplain |].
    destruct Hfits as [Hone | Hfit].
    + apply width_truncate; assumption.
    + rewrite truncate_fits by exact Hfit. exact Hfit.
  - cbn [nleb] in Hle. apply Z.leb_le in Hle.
    rewrite truncate_fits by exact Hle. split; assumption.
Qed.

(** A cell has exactly the width of its column, and is whole. *)
Lemma cell_width (numeric : list bool) (zs : list Z) (text : jsstring)
    (i : nat) (c : jsstring) :
  (i < length zs)%nat ->
  cell numeric (map Fin zs) text i = inr c ->
  fits text (nth i zs 0) -> drawable text (Fin (nth i zs 0)) ->
  whole c /\ width c = nth i zs 0.
Proof.
  intros Hi Hcell Hfits Hdraw. unfold cell in Hcell.
  rewrite (at_fin zs i Hi) in Hcell.
  destruct (truncate_drawable text (nth i zs 0) Hfits Hdraw) as [Hwhole Hw].
  destruct (nth i numeric false).
  - split; [eapply whole_padLeft | eapply padLeft_width]; eassumption.
  - split; [eapply whole_padRight | eapply padRight_width]; eassumption.
Qed.

End WidthFacts.

(** ** Display widths of the lines *)

Section LineFacts.

Context {R : Runtime}.
Hypothesis Hadd : additive_widths R.

Lemma narrow_plain (s : jsstring) : narrow s -> plain_text s.
Proof.
  unfold plain_text. induction 1 as [| c s Hc _ IH]; [intros [] |].
  intros [Heq | Hin]; [| exact (IH Hin)].
  apply (glyph_plain _ Hc). left. exact Heq.
Qed.

Lemma narrow_whole (s : jsstring) : narrow s -> whole s.
Proof. intros H. apply plain_whole. apply narrow_plain. exact H. Qed.

Lemma narrow_width (s : jsstring) : narrow s -> width s = len s.
Proof.
  induction 1 as [| c s Hc Hs IH].
  - rewrite (width_nil Hadd). reflexivity.
  - change (c :: s) with ([c] ++ s).
    rewrite (width_app Hadd), (width_glyph Hadd [c] Hc), IH, len_app;
      [reflexivity | apply whole_glyph; exact Hc | apply narrow_whole; exact Hs].
Qed.

Lemma narrow_app (a b : jsstring) : narrow a -> narrow b -> narrow (a ++ b).
Proof. intros Ha Hb. apply Forall_app. split; assumption. Qed.

Lemma narrow_glyph (c : codeunit) : In [c] glyphs -> narrow [c].
Proof. intros H. constructor; [exact H | constructor]. Qed.

Lemma narrow_repeat (s : jsstring) (k : nat) :
  narrow s -> narrow (concat (repeat s k)).
Proof.
  intros Hs. induction k as [| k IH]; simpl; [constructor |].
  apply narrow_app; assumption.
Qed.

Lemma narrow_join (sep : jsstring) (parts : list jsstring) :
  narrow sep -> Forall narrow parts -> narrow (join sep parts).
Proof.
  intros Hsep Hparts. induction Hparts as [| p parts Hp Hrest IH]; [constructor |].
  destruct parts as [| q parts]; [exact Hp |].
  change (join sep (p :: q :: parts)) with (p ++ sep ++ join sep (q :: parts)).
  apply narrow_app; [exact Hp |]. apply narrow_app; [exact Hsep | exact IH].
Qed.

Lemma narrow_horizontal : narrow BOX.horizontal.
Proof. apply narrow_glyph. unfold glyphs. simpl. tauto. Qed.

Lemma len_horizontals (k : nat) :
  len (concat (repeat BOX.horizontal k)) = Z.of_nat k.
Proof.
  induction k as [| k IH]; [reflexivity |].
  cbn [repeat concat]. rewrite len_app, IH.
  change (len BOX.horizontal) with 1. lia.
Qed.

(** The horizontal segments of a border, one per column. *)
Lemma segments_spec (zs : list Z) (segments : list jsstring) :
  rmap (str_repeat BOX.horizontal) (map Fin zs) = inr segments ->
  Forall narrow segments /\ map (@len codeunit) segments = zs.
Proof.
  revert segments. induction zs as [| z zs IH]; intros segments H; simpl in H.
  - inversion H. split; [constructor | reflexivity].
  - destruct (z <? 0) eqn:Ez; [discriminate |]. apply Z.ltb_ge in Ez.
    simpl in H.
    destruct (rmap (str_repeat BOX.horizontal) (map Fin zs)) as [e | rest] eqn:Er;
      [discriminate |].
    simpl in H. inversion H; subst.
    destruct (IH rest eq_refl) as [Hn Hw]. split.
    + constructor; [apply narrow_repeat; apply narrow_horizontal | exact Hn].
    + simpl. rewrite Hw. f_equal. rewrite len_horizontals. lia.
Qed.

Lemma len_join (sep : jsstring) (parts : list jsstring) :
  parts <> [] ->
  len (join sep parts) = zsum (map (@len codeunit) parts) + (len parts - 1) * len sep.
Proof.
  induction parts as [| p parts IH]; intros Hne; [congruence |].
  destruct parts as [| q parts].
  - simpl. rewrite zsum_cons. unfold zsum, len. simpl. lia.
  - change (join sep (p :: q :: parts)) with (p ++ sep ++ join sep (q :: parts)).
    rewrite !len_app, IH by discriminate.
    simpl map. rewrite !zsum_cons. unfold len. simpl length. lia.
Qed.

Lemma rule_spec (cross : codeunit) (zs : list Z) (r : jsstring) :
  In [cross] glyphs -> zs <> [] ->
  rule [cross] (map Fin zs) = inr r ->
  narrow r /\ len r = zsum zs + (len zs - 1) * 3.
Proof.
  intros Hcross Hne H. unfold rule in H.
  destruct (rmap (str_repeat BOX.horizontal) (map Fin zs)) as [e | segments] eqn:Es;
    [discriminate |].
  cbn [rbind] in H. apply inr_eq in H. subst.
  destruct (segments_spec zs segments Es) as [Hn Hw].
  assert (Hsep : narrow (BOX.horizontal ++ [cross] ++ BOX.horizontal)).
  { apply narrow_app; [apply narrow_horizontal |].
    apply narrow_app; [apply narrow_glyph; exact Hcross | apply narrow_horizontal]. }
  split; [apply narrow_join; assumption |].
  assert (Hlen : len segments = len zs).
  { unfold len. rewrite <- Hw. rewrite length_map. reflexivity. }
  rewrite len_join.
  - rewrite Hw, Hlen. reflexivity.
  - intros ->. simpl in Hw. congruence.
Qed.

Lemma cross_line_width (left cross right : codeunit) (zs : list Z)
    (line : jsstring) :
  In [left] glyphs -> In [cross] glyphs -> In [right] glyphs -> zs <> [] ->
  cross_line [left] [cross] [right] (map Fin zs) = inr line ->
  width line = line_width zs.
Proof.
  intros Hl Hc Hr Hne H. unfold cross_line in H.
  destruct (rule [cross] (map Fin zs)) as [e | r] eqn:Er; [discriminate |].
  cbn [rbind] in H. apply inr_eq in H. subst.
  destruct (rule_spec cross zs r Hc Hne Er) as [Hn Hlen].
  pose proof (narrow_whole r Hn) as Hwr.
  pose proof (whole_glyph [left] Hl) as Hwl.
  pose proof (whole_glyph [right] Hr) as Hwrt.
  rewrite !(width_app Hadd) by whole_solve.
  rewrite (width_dim Hadd), (width_reset Hadd),
    (width_horizontal Hadd), (narrow_width r Hn), Hlen,
    (width_glyph Hadd [left] Hl), (width_glyph Hadd [right] Hr).
  unfold line_width. lia.
Qed.

Lemma narrow_firstn (k : nat) (s : jsstring) : narrow s -> narrow (firstn k s).
Proof.
  unfold narrow. intros H. rewrite <- (firstn_skipn k s) in H.
  apply Forall_app in H. tauto.
Qed.

Lemma narrow_skipn (k : nat) (s : jsstring) : narrow s -> narrow (skipn k s).
Proof.
  unfold narrow. intros H. rewrite <- (firstn_skipn k s) in H.
  apply Forall_app in H. tauto.
Qed.

(** The top border keeps the width of the table as long as the title
    with its two spaces ends within it. *)
Lemma top_line_width (t : option jsstring) (zs : list Z) (line : jsstring) :
  zs <> [] -> Forall (fun z => 0 <= z) zs ->
  (forall s, truthy_title t = Some s -> whole s /\ width s + 4 <= line_width zs) ->
  top_line t (map Fin zs) = inr line ->
  width line = line_width zs.
Proof.
  intros Hne Hpos Hfit H. unfold top_line in H.
  destruct (rule BOX.topCross (map Fin zs)) as [e | r] eqn:Er; [discriminate |].
  cbn [rbind] in H.
  destruct (rule_spec (hd 0%N BOX.topCross) zs r
              ltac:(unfold glyphs; simpl; tauto) Hne Er) as [Hn Hlen].
  assert (Hfull : narrow (BOX.topLeft ++ BOX.horizontal ++ r ++ BOX.horizontal
                            ++ BOX.topRight)).
  { apply narrow_app; [apply narrow_glyph; unfold glyphs; simpl; tauto |].
    apply narrow_app; [apply narrow_horizontal |].
    apply narrow_app; [exact Hn |].
    apply narrow_app; [apply narrow_horizontal |].
    apply narrow_glyph; unfold glyphs; simpl; tauto. }
  set (full := BOX.topLeft ++ BOX.horizontal ++ r ++ BOX.horizontal ++ BOX.topRight)
    in *.
  assert (Hfl : len full = line_width zs).
  { unfold full, line_width. rewrite !len_app, Hlen.
    change (len BOX.topLeft) with 1. change (len BOX.horizontal) with 1.
    change (len BOX.topRight) with 1. lia. }
  destruct (truthy_title t) as [s |] eqn:Et.
  - apply inr_eq in H. subst.
    destruct (Hfit s eq_refl) as [Hws Hsfit]. pose proof (width_nonneg s) as Hs.
    assert (Hwsp : width (SPACE ++ s ++ SPACE) = width s + 2).
    { rewrite !(width_app Hadd), (width_space Hadd) by whole_solve. lia. }
    rewrite Hwsp.
    rewrite slice_prefix by lia. rewrite slice_suffix by lia.
    pose proof (narrow_firstn (Z.to_nat 2) _ Hfull) as Hbefore.
    pose proof (narrow_skipn (Z.to_nat (2 + (width s + 2))) _ Hfull) as Hafter.
    pose proof (narrow_whole _ Hbefore) as Hwb.
    pose proof (narrow_whole _ Hafter) as Hwa.
    rewrite !(width_app Hadd) by whole_solve.
    rewrite (width_dim Hadd), (width_reset Hadd), (width_bold Hadd),
      (width_space Hadd).
    rewrite (narrow_width _ Hbefore), (narrow_width _ Hafter).
    unfold len in *. rewrite length_firstn, length_skipn. lia.
  - apply inr_eq in H. subst.
    pose proof (narrow_whole _ Hfull) as Hwf.
    rewrite !(width_app Hadd) by whole_solve.
    rewrite (width_dim Hadd), (width_reset Hadd).
    rewrite (narrow_width _ Hfull). lia.
Qed.

Lemma whole_row_line (cells : list jsstring) :
  Forall whole cells -> whole (row_line cells).
Proof.
  intros Hcells. unfold row_line, separator.
  assert (Hj : whole (join (SPACE ++ dim ++ BOX.vertical ++ reset ++ SPACE) cells)).
  { apply whole_join; [whole_solve | exact Hcells]. }
  whole_solve.
Qed.

Lemma row_line_width (cells : list jsstring) (zs : list Z) :
  zs <> [] -> Forall2 (fun c z => whole c /\ width c = z) cells zs ->
  width (row_line cells) = line_width zs.
Proof.
  intros Hne Hcells. unfold row_line, separator.
  assert (Hmap : map width cells = zs).
  { clear Hne. induction Hcells as [| c z cells zs [_ Hc] _ IH]; simpl; congruence. }
  assert (Hwhole : Forall whole cells).
  { clear Hne Hmap. induction Hcells as [| c z cells zs [Hc _] _ IH];
      constructor; assumption. }
  assert (Hlen : len cells = len zs).
  { unfold len. rewrite (Forall2_length_eq _ _ _ Hcells). reflexivity. }
  assert (Hsep : whole (SPACE ++ dim ++ BOX.vertical ++ reset ++ SPACE))
    by whole_solve.
  assert (Hj : whole (join (SPACE ++ dim ++ BOX.vertical ++ reset ++ SPACE) cells))
    by (apply whole_join; assumption).
  rewrite !(width_app Hadd) by whole_solve.
  rewrite (width_join Hadd) by
    (try assumption; intros ->; inversion Hcells; congruence).
  rewrite Hmap, Hlen, !(width_app Hadd) by whole_solve.
  rewrite (width_dim Hadd), (width_reset Hadd),
    (width_space Hadd), (width_vertical Hadd).
  unfold line_width. lia.
Qed.

(** A line of cells, one per column, each text fitting its column or
    the column having room for a truncated text. *)
Lemma cells_width (numeric : list bool) (zs : list Z) (texts cells : list jsstring) :
  length texts = length zs ->
  Forall2 (fun text z => fits text z /\ drawable text (Fin z)) texts zs ->
  rmapi (cell numeric (map Fin zs)) texts = inr cells ->
  Forall2 (fun c z => whole c /\ width c = z) cells zs.
Proof.
  intros Hlen Hfits Hmap.
  apply (rmapi_inr _ (fun c z => whole c /\ width c = z) 0 texts zs cells Hmap);
    [symmetry; exact Hlen |].
  intros i text c Htext Hcell.
  assert (Hi : (i < length texts)%nat).
  { apply nth_error_Some. congruence. }
  pose proof (Forall2_nth _ texts zs i [] 0 Hfits Hi) as Hnth.
  rewrite (nth_error_nth _ _ _ Htext) in Hnth. destruct Hnth as [Hf Hd].
  apply (cell_width Hadd numeric zs text i c); [lia | exact Hcell | |]; assumption.
Qed.

End LineFacts.


(** ** [wrapLines] *)

Lemma split_on_pieces (Q : codeunit -> Prop) (c : codeunit) (s : jsstring) :
  forall cur, Forall Q cur -> Forall Q s -> Forall (Forall Q) (split_on c cur s).
Proof.
  induction s as [| x s IH]; intros cur Hcur Hs; simpl.
  - constructor; [exact Hcur | constructor].
  - inversion Hs; subst. destruct (x =? c)%N.
    + constructor; [exact Hcur | apply IH; [constructor | assumption]].
    + apply IH; [| assumption]. apply Forall_app. split; [exact Hcur |].
      constructor; [assumption | constructor].
Qed.

Lemma split_on_absent (c : codeunit) (s : jsstring) :
  forall cur, ~ In c s -> split_on c cur s = [cur ++ s].
Proof.
  induction s as [| x s IH]; intros cur Hc; simpl.
  - rewrite app_nil_r. reflexivity.
  - destruct (x =? c)%N eqn:E.
    + apply N.eqb_eq in E. subst. exfalso. apply Hc. left. reflexivity.
    + rewrite IH by (intros H; apply Hc; right; exact H).
      rewrite <- app_assoc. reflexivity.
Qed.

Lemma join_pieces (Q : codeunit -> Prop) (sep : jsstring) (parts : list jsstring) :
  Forall Q sep -> Forall (Forall Q) parts -> Forall Q (join sep parts).
Proof.
  intros Hsep Hparts. induction Hparts as [| p parts Hp Hrest IH]; [constructor |].
  destruct parts as [| q parts]; [exact Hp |].
  change (join sep (p :: q :: parts)) with (p ++ sep ++ join sep (q :: parts)).
  apply Forall_app. split; [exact Hp |]. apply Forall_app. split; [exact Hsep | exact IH].
Qed.

Lemma split_text_pieces (Q : codeunit -> Prop) (s : jsstring) :
  Forall Q s ->
  (forall cur, Forall Q cur -> Forall (Forall Q) (split_text cur s))
  /\ (forall cur, Forall Q cur -> Forall (Forall Q) (split_spaces cur s)).
Proof.
  induction 1 as [| x s Hx Hs [IHt IHs]].
  - split; intros cur Hcur; simpl; repeat constructor; assumption.
  - assert (Hone : Forall Q [x]) by (constructor; [exact Hx | constructor]).
    split; intros cur Hcur; simpl; destruct (x =? 32)%N.
    + constructor; [exact Hcur | apply IHs; exact Hone].
    + apply IHt. apply Forall_app. split; assumption.
    + apply IHs. apply Forall_app. split; assumption.
    + constructor; [exact Hcur | apply IHt; exact Hone].
Qed.

Lemma split_text_concat (s : jsstring) :
  (forall cur, concat (split_text cur s) = cur ++ s)
  /\ (forall cur, concat (split_spaces cur s) = cur ++ s).
Proof.
  induction s as [| x s [IHt IHs]].
  - split; intros cur; simpl; rewrite ?app_nil_r; reflexivity.
  - split; intros cur; simpl; destruct (x =? 32)%N; simpl;
      rewrite ?IHt, ?IHs, <- ?app_assoc; reflexivity.
Qed.

Lemma escape_newlines_clean (s : jsstring) : ~ In 10%N (escape_newlines s).
Proof.
  unfold escape_newlines. intros H. apply in_flat_map in H.
  destruct H as (x & _ & Hx). destruct (x =? 10)%N eqn:E.
  - simpl in Hx. destruct Hx as [Hx | [Hx | []]]; discriminate.
  - simpl in Hx. destruct Hx as [Hx | []]. subst.
    rewrite N.eqb_refl in E. discriminate.
Qed.

Section WrapFacts.

Context {R : Runtime}.
Hypothesis Hconcat : forall a b : jsstring,
  stringWidth (a ++ b) = (stringWidth a + stringWidth b)%nat.

Lemma wwidth_app (a b : jsstring) : width (a ++ b) = width a + width b.
Proof. unfold width. rewrite Hconcat. lia. Qed.

Lemma wwidth_nil : width [] = 0.
Proof. pose proof (wwidth_app [] []) as H. simpl in H. lia. Qed.

(** One code unit more is at most one column more, on a text whose code
    units take at most one column each. *)
Lemma prefix_step (f : jsstring) :
  Forall (fun c => width [c] <= 1) f ->
  forall k, width (firstn (S k) f) <= width (firstn k f) + 1.
Proof.
  induction 1 as [| c f Hc _ IH]; intros k.
  - rewrite !firstn_nil. lia.
  - destruct k as [| k].
    + simpl. rewrite wwidth_nil. exact Hc.
    + change (firstn (S (S k)) (c :: f)) with ([c] ++ firstn (S k) f).
      change (firstn (S k) (c :: f)) with ([c] ++ firstn k f).
      rewrite !wwidth_app. specialize (IH k). lia.
Qed.

Lemma cut_loop_spec (f : jsstring) (w : Z) (fuel : nat) :
  Forall (fun c => width [c] <= 1) f ->
  forall cutPoint, 1 <= cutPoint -> width (slice f 0 cutPoint) <= w ->
    1 <= cut_loop fuel f (Fin w) cutPoint
    /\ width (slice f 0 (cut_loop fuel f (Fin w) cutPoint)) <= w.
Proof.
  intros Hf. induction fuel as [| fuel IH]; intros cp Hcp Hw.
  - simpl. split; assumption.
  - cbn [cut_loop]. simpl nltb.
    destruct ((cp <? len f) && (width (slice f 0 cp) <? w)) eqn:E.
    + apply andb_true_iff in E. destruct E as [_ E]. apply Z.ltb_lt in E.
      destruct (IH (cp + 1)) as [H1 H2]; [lia | | split; [lia | exact H2]].
      rewrite slice_prefix in * by lia.
      replace (Z.to_nat (cp + 1)) with (S (Z.to_nat cp)) by lia.
      pose proof (prefix_step f Hf (Z.to_nat cp)). lia.
    + split; assumption.
Qed.

Lemma Forall_slice_from (Q : codeunit -> Prop) (f : jsstring) (k : Z) :
  0 <= k -> Forall Q f -> Forall Q (slice_from f k).
Proof.
  intros Hk H. rewrite slice_suffix by exact Hk.
  rewrite <- (firstn_skipn (Z.to_nat k) f) in H. apply Forall_app in H. tauto.
Qed.

(** The lines pushed by the inner loop fit the width, on a text whose
    code units take at most one column each and a width of at least
    one column. *)
Lemma fragment_loop_fits (w : Z) (fuel : nat) :
  1 <= w ->
  forall lines current fragment,
    Forall (fun l => width l <= w) lines ->
    width current <= w ->
    Forall (fun c => width [c] <= 1) fragment ->
    Forall (fun l => width l <= w)
      (fst (fst (fragment_loop fuel (Fin w) lines current fragment)))
    /\ width (snd (fst (fragment_loop fuel (Fin w) lines current fragment))) <= w.
Proof.
  intros Hw. induction fuel as [| fuel IH]; intros lines current fragment Hl Hc Hf.
  - simpl. split; assumption.
  - cbn [fragment_loop]. simpl ngtb.
    destruct (len fragment >? 0) eqn:Efrag; [| simpl; split; assumption].
    destruct (width (current ++ fragment) >? w) eqn:Ewide.
    + destruct (len current >? 0) eqn:Ecur.
      * apply IH; [| rewrite wwidth_nil; lia | exact Hf].
        apply Forall_app. split; [exact Hl |]. constructor; [exact Hc | constructor].
      * cbv zeta.
        destruct (cut_loop_spec fragment w (length fragment) Hf 1 ltac:(lia))
          as [Hcp Hcw].
        { rewrite slice_prefix by lia.
          pose proof (prefix_step fragment Hf 0) as Hstep.
          simpl firstn in Hstep at 2. rewrite wwidth_nil in Hstep.
          change (Z.to_nat 1) with 1%nat. lia. }
        apply IH; [| exact Hc | apply Forall_slice_from; [lia | exact Hf]].
        apply Forall_app. split; [exact Hl |]. constructor; [exact Hcw | constructor].
    + rewrite Z.gtb_ltb in Ewide. apply Z.ltb_ge in Ewide.
      apply IH; [exact Hl | exact Ewide | constructor].
Qed.

Lemma wrap_token_fits (w : Z) (st : list jsstring * jsstring) (token : jsstring) :
  1 <= w ->
  Forall (fun l => width l <= w) (fst st) -> width (snd st) <= w ->
  Forall (fun c => width [c] <= 1) token ->
  Forall (fun l => width l <= w) (fst (wrap_token (Fin w) st token))
  /\ width (snd (wrap_token (Fin w) st token)) <= w.
Proof.
  intros Hw Hl Hc Ht. destruct st as [lines current]. unfold wrap_token.
  destruct (fragment_loop_fits w (2 * length token + 1) Hw lines current token Hl Hc Ht)
    as [H1 H2].
  destruct (fragment_loop _ _ lines current token) as [[lines1 current1] rest].
  simpl in H1, H2. destruct (ngeb (Fin (width current1)) (Fin w)); simpl.
  - split; [| rewrite wwidth_nil; lia].
    apply Forall_app. split; [exact H1 |]. constructor; [exact H2 | constructor].
  - split; assumption.
Qed.

Lemma wrap_fold_fits (w : Z) (tokens : list jsstring) :
  1 <= w ->
  Forall (Forall (fun c => width [c] <= 1)) tokens ->
  forall st,
    Forall (fun l => width l <= w) (fst st) -> width (snd st) <= w ->
    Forall (fun l => width l <= w) (fst (fold_left (wrap_token (Fin w)) tokens st))
    /\ width (snd (fold_left (wrap_token (Fin w)) tokens st)) <= w.
Proof.
  intros Hw Htokens. induction Htokens as [| token tokens Ht _ IH]; intros st Hl Hc.
  - simpl. split; assumption.
  - simpl. destruct (wrap_token_fits w st token Hw Hl Hc Ht) as [H1 H2].
    apply IH; assumption.
Qed.

(** Where the cut cannot go too far: for a width of at least one column
    and a text whose code units take at most one column each (as does
    the space that replaces a newline), every line returned by
    [wrapLines] has a display width of at most the width asked; and for
    the empty text the result is exactly one empty line, at every
    width. Display widths are assumed to add up over concatenation. *)
Lemma wrapLines_fits (text : jsstring) (maxWidth : nat) :
  ((1 <= maxWidth)%nat ->
   Forall (fun c => width [c] <= 1) (SPACE ++ text) ->
   Forall (fun line => width line <= Z.of_nat maxWidth)
     (wrapLines text (Fin (Z.of_nat maxWidth))))
  /\ wrapLines [] (Fin (Z.of_nat maxWidth)) = [[]].
Proof.
  split; [| reflexivity].
  intros Hw Hunits. apply Forall_app in Hunits. destruct Hunits as [Hspace Htext].
  unfold wrapLines.
  set (raw := join SPACE (split_on 10%N [] text)).
  assert (Hraw : Forall (fun c => width [c] <= 1) raw).
  { apply join_pieces; [exact Hspace |].
    apply split_on_pieces; [constructor | exact Htext]. }
  destruct raw as [| c raw']; [constructor; [rewrite wwidth_nil; lia | constructor] |].
  destruct (split_text_pieces _ (c :: raw') Hraw) as [Htokens _].
  destruct (wrap_fold_fits (Z.of_nat maxWidth) (split_text [] (c :: raw'))
              ltac:(lia) (Htokens [] ltac:(constructor)) ([], []))
    as [H1 H2]; [constructor | simpl; rewrite wwidth_nil; lia |].
  destruct (fold_left (wrap_token (Fin (Z.of_nat maxWidth)))
              (split_text [] (c :: raw')) ([], [])) as [lines current].
  simpl in H1, H2.
  destruct (len current >? 0); [| exact H1].
  apply Forall_app. split; [exact H1 |]. constructor; [exact H2 | constructor].
Qed.

End WrapFacts.

(** The loops of [wrapLines] end within their fuel. *)

Section WrapTermination.

Context {R : Runtime}.

Lemma cut_loop_lower (f : jsstring) (maxWidth : num) (fuel : nat) :
  forall cutPoint, cutPoint <= cut_loop fuel f maxWidth cutPoint.
Proof.
  induction fuel as [| fuel IH]; intros cp; cbn [cut_loop]; [lia |].
  destruct ((cp <? len f) && nltb (Fin (width (slice f 0 cp))) maxWidth); [| lia].
  specialize (IH (cp + 1)). lia.
Qed.

(** With [fragment.length] units of fuel the test of the cut loop is
    false on exit. *)
Lemma cut_loop_done (f : jsstring) (maxWidth : num) (fuel : nat) :
  forall cutPoint, len f - cutPoint <= Z.of_nat fuel ->
    (cut_loop fuel f maxWidth cutPoint <? len f)
    && nltb (Fin (width (slice f 0 (cut_loop fuel f maxWidth cutPoint)))) maxWidth
    = false.
Proof.
  induction fuel as [| fuel IH]; intros cp Hfuel; cbn [cut_loop].
  - apply andb_false_iff. left. apply Z.ltb_ge. lia.
  - destruct ((cp <? len f) && nltb (Fin (width (slice f 0 cp))) maxWidth) eqn:E;
      [apply IH; lia | exact E].
Qed.

Lemma len_slice_from (f : jsstring) (k : Z) :
  1 <= k -> 1 <= len f -> len (slice_from f k) <= len f - 1.
Proof.
  intros Hk Hf. rewrite slice_suffix by lia. unfold len in *.
  rewrite length_skipn. lia.
Qed.

(** With twice [fragment.length] plus one units of fuel the fragment
    is used up on exit. *)
Lemma fragment_loop_done (maxWidth : num) (fuel : nat) :
  forall lines current fragment,
    2 * len fragment + (if len current >? 0 then 1 else 0) <= Z.of_nat fuel ->
    snd (fragment_loop fuel maxWidth lines current fragment) = [].
Proof.
  induction fuel as [| fuel IH]; intros lines current fragment Hfuel.
  - simpl. apply len_nil_iff. pose proof (len_nonneg fragment).
    destruct (len current >? 0); lia.
  - cbn [fragment_loop].
    destruct (len fragment >? 0) eqn:Efrag.
    + rewrite Z.gtb_ltb in Efrag. apply Z.ltb_lt in Efrag.
      destruct (ngtb (Fin (width (current ++ fragment))) maxWidth).
      * destruct (len current >? 0) eqn:Ecur.
        -- apply IH. change (len (@nil codeunit) >? 0) with false. lia.
        -- cbv zeta. apply IH. rewrite Ecur in *.
           pose proof (cut_loop_lower fragment maxWidth (length fragment) 1) as Hcut.
           assert (Hfrag : 1 <= len fragment) by lia.
           pose proof (len_slice_from fragment _ Hcut Hfrag).
           lia.
      * apply IH. change (len (@nil codeunit)) with 0.
        destruct (len (current ++ fragment) >? 0); destruct (len current >? 0); lia.
    + simpl. apply len_nil_iff. rewrite Z.gtb_ltb in Efrag. apply Z.ltb_ge in Efrag.
      pose proof (len_nonneg fragment). lia.
Qed.

Lemma wrap_token_done (maxWidth : num) (lines : list jsstring)
    (current token : jsstring) :
  snd (fragment_loop (2 * length token + 1) maxWidth lines current token) = [].
Proof.
  apply fragment_loop_done. unfold len. destruct (_ >? 0); lia.
Qed.

End WrapTermination.

(** ** Lists, rows and bounds *)

Lemma Forall2_pointwise {A B : Type} (Rel : A -> B -> Prop) (da : A) (db : B)
    (xs : list A) (ys : list B) :
  length xs = length ys ->
  (forall i, (i < length xs)%nat -> Rel (nth i xs da) (nth i ys db)) ->
  Forall2 Rel xs ys.
Proof.
  revert ys. induction xs as [| x xs IH]; intros ys Hlen H.
  - destruct ys; [constructor | discriminate].
  - destruct ys as [| y ys]; [discriminate |]. constructor.
    + apply (H 0%nat). simpl. lia.
    + apply IH; [simpl in Hlen; lia |].
      intros i Hi. apply (H (S i)). simpl. lia.
Qed.

Lemma rmapi_map {A A' B : Type} (g : A' -> nat -> res B) (h : A -> A')
    (xs : list A) :
  rmapi (fun x i => g (h x) i) xs = rmapi g (map h xs).
Proof.
  unfold rmapi. rewrite length_map. generalize 0%nat.
  induction xs as [| x xs IH]; intros start; [reflexivity |].
  simpl. rewrite IH. reflexivity.
Qed.

Lemma nth_mapi {A B : Type} (f : A -> nat -> B) (xs : list A) (i : nat)
    (da : A) (db : B) :
  (i < length xs)%nat -> nth i (mapi f xs) db = f (nth i xs da) i.
Proof.
  unfold mapi. intros Hi.
  assert (H : forall start rest j, (j < length rest)%nat ->
             nth j (map (fun p => f (snd p) (fst p))
                      (combine (seq start (length rest)) rest)) db
             = f (nth j rest da) (start + j)%nat).
  { clear. intros start rest. revert start.
    induction rest as [| x rest IH]; intros start j Hj; [simpl in Hj; lia |].
    destruct j as [| j]; simpl.
    - rewrite Nat.add_0_r. reflexivity.
    - rewrite IH by (simpl in Hj; lia). f_equal. lia. }
  apply (H 0%nat xs i Hi).
Qed.

Lemma length_mapi {A B : Type} (f : A -> nat -> B) (xs : list A) :
  length (mapi f xs) = length xs.
Proof.
  unfold mapi. rewrite length_map, length_combine, length_seq. lia.
Qed.

Lemma in_firstn_in {A : Type} (k : nat) (l : list A) (x : A) :
  In x (firstn k l) -> In x l.
Proof.
  intros H. rewrite <- (firstn_skipn k l). apply in_or_app. left. exact H.
Qed.

Lemma zsum_nonneg (zs : list Z) : Forall (fun z => 0 <= z) zs -> 0 <= zsum zs.
Proof.
  induction 1 as [| z zs Hz _ IH]; [unfold zsum; simpl; lia |].
  rewrite zsum_cons. lia.
Qed.

Lemma zsum_all_three (zs : list Z) :
  Forall (fun z => z = 3) zs -> zsum zs = 3 * len zs.
Proof.
  induction 1 as [| z zs Hz _ IH]; [reflexivity |].
  rewrite zsum_cons, IH, Hz. unfold len. simpl length. lia.
Qed.

(** The rows drawn start with the first row given. *)
Lemma slice_head {A : Type} (l : list A) (m : Z) (d : A) (ds : list A) :
  slice l 0 m = d :: ds -> exists rest, l = d :: rest.
Proof.
  unfold slice, rel_index. replace (0 <? 0) with false by reflexivity.
  rewrite (Z.min_l 0 (len l)) by apply len_nonneg. simpl skipn.
  destruct l as [| x l']; [rewrite firstn_nil; discriminate |].
  destruct (Z.to_nat _); simpl; [discriminate |].
  intros H. injection H as -> _. exists l'. reflexivity.
Qed.

Section DisplayedRows.

Context {R : Runtime}.

Lemma displayRows_head (first : row) (more : list row) (options : TableOptions)
    (d : row) (ds : list row) :
  displayRows_of (first :: more) options = d :: ds -> d = first.
Proof.
  unfold displayRows_of.
  destruct (maxRows_of options) as [m | n q | | |];
    try (intros H; apply slice_head in H; destruct H as (rest & H));
    congruence.
Qed.

Lemma visible_rows_clean (t : Z) (rows displayRows : list row) (first : row)
    (options : TableOptions) (r : list jsstring) :
  In r (visibleFormattedRows (layout t rows displayRows first options)) ->
  Forall (fun text => ~ In 10%N text) r.
Proof.
  destruct (layout_fields t rows displayRows first options)
    as (_ & _ & _ & _ & Hr & _).
  cbv zeta in Hr. rewrite Hr. intros Hin.
  apply in_map_iff in Hin. destruct Hin as (r0 & <- & Hr0).
  apply in_map_iff in Hr0. destruct Hr0 as (x & <- & _).
  apply Forall_forall. intros text Htext. apply in_firstn_in in Htext.
  unfold formatRow in Htext. apply in_map_iff in Htext.
  destruct Htext as (col & <- & _). apply escape_newlines_clean.
Qed.

(** From the bounds of a layout to texts that fit their columns. *)
Lemma fits_chain (b : bool) (texts : list jsstring) (ns zs zs' : list Z) :
  Forall2 (fun text n => width text <= n) texts ns ->
  Forall2 (fun n z => (if b then minColWidth else n) <= z) ns zs ->
  Forall2 Z.le zs zs' ->
  Forall2 fits texts zs'.
Proof.
  intros H1. revert zs zs'.
  induction H1 as [| text n texts ns Htn _ IH]; intros zs zs' H2 H3.
  - inversion H2; subst. inversion H3; subst. constructor.
  - inversion H2 as [| n0 z ns0 zs0 Hnz H2']; subst.
    inversion H3 as [| z0 z' zs1 zs1' Hzz H3']; subst.
    constructor; [| eapply IH; eassumption].
    unfold fits, minColWidth in *. destruct b; [left; lia | right; lia].
Qed.

Lemma floor_chain_nonneg (b : bool) (ns zs zs' : list Z) :
  Forall (fun n => 0 <= n) ns ->
  Forall2 (fun n z => (if b then minColWidth else n) <= z) ns zs ->
  Forall2 Z.le zs zs' ->
  Forall (fun z => 0 <= z) zs /\ Forall (fun z => 0 <= z) zs'.
Proof.
  intros H1. revert zs zs'.
  induction H1 as [| n ns Hn _ IH]; intros zs zs' H2 H3.
  - inversion H2; subst. inversion H3; subst. split; constructor.
  - inversion H2 as [| n0 z ns0 zs0 Hnz H2']; subst.
    inversion H3 as [| z0 z' zs1 zs1' Hzz H3']; subst.
    destruct (IH _ _ H2' H3') as [Ha Hb].
    unfold minColWidth in *.
    split; constructor; try assumption; destruct b; lia.
Qed.

End DisplayedRows.

(** ** What can throw, and what cannot *)

Lemma str_repeat_total (s : jsstring) (w : num) :
  repeatable w -> exists r, str_repeat s w = inr r.
Proof.
  destruct w as [z |]; simpl; intros H; [| eexists; reflexivity].
  destruct (z <? 0) eqn:E; [apply Z.ltb_lt in E; lia | eexists; reflexivity].
Qed.

Lemma rmapi_total {A B : Type} (f : A -> nat -> res B) (xs : list A) :
  (forall x i, exists y, f x i = inr y) -> exists ys, rmapi f xs = inr ys.
Proof.
  intros H. unfold rmapi. apply rmap_total. intros [i x] _. apply H.
Qed.

Lemma at_repeatable (ws : list num) (i : nat) :
  Forall repeatable ws -> repeatable (at_ ws i).
Proof.
  intros H. unfold at_. destruct (Nat.lt_ge_cases i (length ws)) as [Hi | Hi].
  - rewrite Forall_forall in H. apply H. apply nth_In. exact Hi.
  - rewrite nth_overflow by exact Hi. exact I.
Qed.

Lemma set_at_repeatable (ws : list num) (i : nat) (w : num) :
  Forall repeatable ws -> repeatable w -> Forall repeatable (set_at ws i w).
Proof.
  intros H Hw. revert i. induction H as [| x ws Hx Hrest IH]; intros i; [constructor |].
  destruct i; simpl; constructor; auto.
Qed.

Section Totality.

Context {R : Runtime}.

Lemma padRight_total (s : jsstring) (w : num) : exists p, padRight s w = inr p.
Proof.
  unfold padRight. destruct (ngeb (Fin (width s)) w) eqn:E; [eexists; reflexivity |].
  destruct (str_repeat_total SPACE (nsub w (Fin (width s)))) as (pad & Hpad).
  { destruct w as [z |]; simpl; [| exact I].
    simpl in E. rewrite Z.geb_leb in E. apply Z.leb_gt in E. lia. }
  rewrite Hpad. eexists. reflexivity.
Qed.

Lemma padLeft_total (s : jsstring) (w : num) : exists p, padLeft s w = inr p.
Proof.
  unfold padLeft. destruct (ngeb (Fin (width s)) w) eqn:E; [eexists; reflexivity |].
  destruct (str_repeat_total SPACE (nsub w (Fin (width s)))) as (pad & Hpad).
  { destruct w as [z |]; simpl; [| exact I].
    simpl in E. rewrite Z.geb_leb in E. apply Z.leb_gt in E. lia. }
  rewrite Hpad. eexists. reflexivity.
Qed.

Lemma cell_total (numeric : list bool) (ws : list num) (text : jsstring) (i : nat) :
  exists c, cell numeric ws text i = inr c.
Proof.
  unfold cell. destruct (nth i numeric false);
    [apply padLeft_total | apply padRight_total].
Qed.

Lemma header_line_total (L : Layout) : exists line, header_line L = inr line.
Proof.
  unfold header_line.
  destruct (rmapi_total (cell (visibleIsNumeric L) (visibleColWidths L)) (columns L))
    as (cells & Hcells); [intros; apply cell_total |].
  rewrite Hcells. eexists. reflexivity.
Qed.

Lemma data_line_total (L : Layout) (r : list jsstring) :
  exists line, data_line L r = inr line.
Proof.
  unfold data_line.
  destruct (rmapi_total (cell (visibleIsNumeric L) (visibleColWidths L)) r)
    as (cells & Hcells); [intros; apply cell_total |].
  rewrite Hcells. eexists. reflexivity.
Qed.

Lemma wrapped_line_total (L : Layout) (wrapped : list (list jsstring))
    (lineIdx : nat) :
  exists line, wrapped_line L wrapped lineIdx = inr line.
Proof.
  unfold wrapped_line.
  destruct (rmapi_total
              (fun cellLines i =>
                 cell (visibleIsNumeric L) (visibleColWidths L)
                   (nth lineIdx cellLines []) i) wrapped)
    as (cells & Hcells); [intros; apply cell_total |].
  rewrite Hcells. eexists. reflexivity.
Qed.

Lemma rule_total (cross : jsstring) (ws : list num) :
  Forall repeatable ws -> exists r, rule cross ws = inr r.
Proof.
  intros H. unfold rule.
  destruct (rmap_total (str_repeat BOX.horizontal) ws) as (segments & Hs).
  { intros w Hw. apply str_repeat_total. rewrite Forall_forall in H. apply H. exact Hw. }
  rewrite Hs. eexists. reflexivity.
Qed.

Lemma cross_line_total (left cross right : jsstring) (ws : list num) :
  Forall repeatable ws -> exists line, cross_line left cross right ws = inr line.
Proof.
  intros H. unfold cross_line. destruct (rule_total cross ws H) as (r & ->).
  eexists. reflexivity.
Qed.

Lemma top_line_total (t : option jsstring) (ws : list num) :
  Forall repeatable ws -> exists line, top_line t ws = inr line.
Proof.
  intros H. unfold top_line. destruct (rule_total BOX.topCross ws H) as (r & ->).
  cbn [rbind]. destruct (truthy_title t); eexists; reflexivity.
Qed.

(** A loop that writes one line per element, none of which throws. *)
Lemma for_each_lines {A : Type} (g : A -> res jsstring) (xs : list A) :
  (forall x, In x xs -> exists line, g x = inr line) ->
  exists lines,
    for_each (fun x => bind (lift (g x)) (fun line => console_log line)) xs
    = (lines, inr tt)
    /\ Forall2 (fun x line => g x = inr line) xs lines.
Proof.
  induction xs as [| x xs IH]; intros H.
  - exists []. split; [reflexivity | constructor].
  - destruct (H x (or_introl eq_refl)) as (line & Hline).
    destruct (IH (fun y Hy => H y (or_intror Hy))) as (lines & Heq & Hall).
    exists (line :: lines). split; [| constructor; assumption].
    cbn [for_each]. rewrite Hline, Heq. reflexivity.
Qed.

Lemma draw_wrapped_row_total (L : Layout) (p : nat * list jsstring) :
  Forall repeatable (visibleColWidths L) ->
  exists lines, draw_wrapped_row L p = (lines, inr tt).
Proof.
  intros Hws. destruct p as [rowIdx r]. unfold draw_wrapped_row.
  set (wrapped := mapi _ r).
  destruct (for_each_lines (wrapped_line L wrapped) (seq 0 (rowHeight wrapped)))
    as (lines & Heq & _); [intros; apply wrapped_line_total |].
  rewrite Heq.
  destruct (Z.of_nat rowIdx <? len (visibleFormattedRows L) - 1).
  - destruct (cross_line_total BOX.headerLeft BOX.headerCross BOX.headerRight
                (visibleColWidths L) Hws) as (sep & Hsep).
    rewrite Hsep. eexists. reflexivity.
  - eexists. reflexivity.
Qed.

Lemma for_each_total {A : Type} (f : A -> io unit) (xs : list A) :
  (forall x, In x xs -> exists lines, f x = (lines, inr tt)) ->
  exists lines, for_each f xs = (lines, inr tt).
Proof.
  induction xs as [| x xs IH]; intros H; [eexists; reflexivity |].
  destruct (H x (or_introl eq_refl)) as (l1 & H1).
  destruct (IH (fun y Hy => H y (or_intror Hy))) as (l2 & H2).
  cbn [for_each]. rewrite H1, H2. eexists. reflexivity.
Qed.

(** Drawing the rows never throws. Outside full-content mode it writes
    one line per row. *)
Lemma draw_rows_total (L : Layout) (options : TableOptions) :
  Forall repeatable (visibleColWidths L) ->
  exists lines,
    draw_rows L options = (lines, inr tt)
    /\ (fullContent options <> Some true ->
        Forall2 (fun r line => data_line L r = inr line)
          (visibleFormattedRows L) lines).
Proof.
  intros Hws. unfold draw_rows.
  destruct (for_each_lines (data_line L) (visibleFormattedRows L))
    as (lines & Heq & Hall); [intros; apply data_line_total |].
  destruct (fullContent options) as [[|] |].
  - destruct (for_each_total (draw_wrapped_row L)
                (combine (seq 0 (length (visibleFormattedRows L)))
                   (visibleFormattedRows L))) as (wl & Hwl).
    { intros p _. apply draw_wrapped_row_total. exact Hws. }
    exists wl. split; [exact Hwl | congruence].
  - exists lines. split; [exact Heq | intros _; exact Hall].
  - exists lines. split; [exact Heq | intros _; exact Hall].
Qed.

(** With a trailer text, the footer starts with the trailer line; the
    bottom border follows unless its width is negative. *)
Lemma draw_footer_trailer (L : Layout) :
  info L <> [] ->
  exists infoLine rest,
    padRight (truncate (info L) (innerWidth L)) (innerWidth L) = inr infoLine
    /\ emitted (draw_footer L) = trailer_line infoLine :: rest
    /\ (repeatable (nadd (innerWidth L) (Fin 2)) ->
        exists bottom, rest = [bottom] /\ outcome (draw_footer L) = inr tt).
Proof.
  intros Hinfo. unfold draw_footer.
  destruct (info L) as [| c text] eqn:E; [congruence |].
  destruct (padRight_total (truncate (c :: text) (innerWidth L)) (innerWidth L))
    as (infoLine & Hpad).
  rewrite Hpad.
  destruct (str_repeat BOX.horizontal (nadd (innerWidth L) (Fin 2)))
    as [e | bar] eqn:Ebar.
  - exists infoLine, []. split; [reflexivity |]. split; [reflexivity |].
    intros Hrep. destruct (str_repeat_total BOX.horizontal _ Hrep) as (r & Hr).
    congruence.
  - exists infoLine. eexists. split; [reflexivity |]. split; [reflexivity |].
    intros _. eexists. split; reflexivity.
Qed.

(** The lines of [draw]: the top border, the header, the separator, the
    rows, then the footer. Nothing before the footer throws. *)
Lemma draw_structure (L : Layout) (options : TableOptions) :
  Forall repeatable (visibleColWidths L) ->
  exists top header headerSep rowLines,
    emitted (draw L options)
    = top :: header :: headerSep :: rowLines ++ emitted (draw_footer L)
    /\ outcome (draw L options) = outcome (draw_footer L)
    /\ (fullContent options <> Some true ->
        Forall2 (fun r line => data_line L r = inr line)
          (visibleFormattedRows L) rowLines).
Proof.
  intros Hws. unfold draw.
  destruct (top_line_total (title options) _ Hws) as (top & Htop).
  destruct (header_line_total L) as (header & Hheader).
  destruct (cross_line_total BOX.headerLeft BOX.headerCross BOX.headerRight _ Hws)
    as (sep & Hsep).
  destruct (draw_rows_total L options Hws) as (rowLines & Hrows & Hplain).
  exists top, header, sep, rowLines.
  rewrite Htop, Hheader, Hsep, Hrows.
  destruct (draw_footer L) as [out r]. simpl. repeat split; auto.
Qed.

End Totality.

Section LayoutRepeatable.

Context {R : Runtime}.

Lemma shrink_loop_idle (fuel : nat) (a : Z) (ws : list num) (total : num) :
  existsb (fun w => ngtb w (Fin minColWidth)) ws = false ->
  shrink_loop fuel a ws total = (ws, total).
Proof.
  intros H. destruct fuel; [reflexivity |].
  cbn [shrink_loop]. rewrite H, andb_false_r. reflexivity.
Qed.

Lemma fairWidths_nan (cols : list jsstring) (ws : list Z) (a : Z) :
  forallb (Z.eqb 0) ws = true ->
  Forall (fun w => w = NaN) (fairWidths cols ws a).
Proof.
  intros H. unfold fairWidths, fair. rewrite H.
  apply Forall_forall. intros w Hw. apply in_map_iff in Hw.
  destruct Hw as (i & <- & _). reflexivity.
Qed.

Lemma compress_repeatable (cols : list jsstring) (ws : list Z) (a : Z) :
  length cols = length ws -> Forall (fun w => 0 <= w) ws ->
  Forall repeatable (compress cols ws a).
Proof.
  intros Hlen Hpos.
  destruct (Z.le_gt_cases (zsum ws) a) as [Hle | Hgt].
  - rewrite compress_skipped by exact Hle.
    apply Forall_forall. intros w Hw. apply in_map_iff in Hw.
    destruct Hw as (z & <- & Hz). rewrite Forall_forall in Hpos. apply Hpos. exact Hz.
  - destruct (forallb (Z.eqb 0) ws) eqn:Enz.
    + unfold compress.
      destruct (zsum ws >? a) eqn:E;
        [| rewrite Z.gtb_ltb in E; apply Z.ltb_ge in E; lia].
      pose proof (fairWidths_nan cols ws a Enz) as Hnan.
      rewrite shrink_loop_idle.
      * simpl. apply Forall_forall. intros w Hw.
        rewrite Forall_forall in Hnan. rewrite (Hnan w Hw). exact I.
      * destruct (existsb _ (fairWidths cols ws a)) eqn:Eex; [| reflexivity].
        apply existsb_exists in Eex. destruct Eex as (w & Hw & Hgt3).
        rewrite Forall_forall in Hnan. rewrite (Hnan w Hw) in Hgt3. discriminate.
    + destruct (compress_runs cols ws a Hlen ltac:(lia) Enz) as (zs & -> & _ & Hall & _).
      apply Forall_forall. intros w Hw. apply in_map_iff in Hw.
      destruct Hw as (z & <- & Hz). rewrite Forall_forall in Hall.
      specialize (Hall z Hz). simpl. lia.
Qed.

(** Every width of every layout can be drawn: no border segment
    throws. *)
Lemma layout_repeatable (t : Z) (rows displayRows : list row) (first : row)
    (options : TableOptions) :
  Forall repeatable (visibleColWidths (layout t rows displayRows first options)).
Proof.
  destruct (layout_fields t rows displayRows first options)
    as (_ & _ & _ & _ & _ & _ & Hcomp & _ & _ & _ & Hfinal).
  destruct (layout_natural t rows displayRows first options) as [Hcn _].
  cbv zeta in *.
  set (L := layout t rows displayRows first options) in *.
  assert (Hc : Forall repeatable (compressed L)).
  { rewrite Hcomp. apply compress_repeatable.
    - apply (Forall2_length_eq _ _ _ Hcn).
    - apply (bound_nonneg _ _ Hcn). }
  rewrite Hfinal.
  destruct (ngtb (innerWidth L) (contentWidth L) && (len (compressed L) >? 0))
    eqn:E; [| exact Hc].
  apply andb_true_iff in E. destruct E as [E _].
  unfold expand_last. apply set_at_repeatable; [exact Hc |].
  pose proof (at_repeatable (compressed L) (length (compressed L) - 1) Hc) as Hat.
  destruct (innerWidth L) as [i |]; [| discriminate].
  destruct (contentWidth L) as [c |]; [| discriminate].
  simpl in E. rewrite Z.gtb_ltb in E. apply Z.ltb_lt in E.
  destruct (at_ (compressed L) (length (compressed L) - 1)) as [z |]; simpl in *; lia.
Qed.

End LayoutRepeatable.

(** ** Rows drawn, trailer and exceptions *)

Section Accounting.

Context {R : Runtime}.

Lemma printTable_draws (rows : list row) (options : TableOptions) :
  rows <> [] -> displayRows_of rows options <> [] ->
  printTable rows options = draw (layout_of rows options) options.
Proof.
  intros Hrows Hdisp. unfold printTable, layout_of.
  destruct rows as [| first more]; [congruence |].
  destruct (displayRows_of (first :: more) options) as [| d ds]; [congruence |].
  reflexivity.
Qed.

(** [Object.keys(undefined)]: when [maxRows] keeps no row of a table
    that has rows, [printTable] throws before it writes a line. *)
Lemma printTable_no_display_row (rows : list row) (options : TableOptions) :
  rows <> [] -> displayRows_of rows options = [] ->
  printTable rows options = ([], inl TypeError).
Proof.
  intros Hrows Hdisp. unfold printTable.
  destruct rows as [| first more]; [congruence |].
  rewrite Hdisp. reflexivity.
Qed.

Lemma infoText_rows (truncated hidden : Z) :
  0 < truncated ->
  infoText truncated hidden
  = lit "... " ++ (numberToString truncated ++ lit " more row" ++ plural truncated)
      ++ (if hidden >? 0
          then lit ", " ++ numberToString hidden ++ lit " more column" ++ plural hidden
          else []).
Proof.
  intros H. unfold infoText.
  assert (E : (truncated >? 0) = true) by (rewrite Z.gtb_ltb; apply Z.ltb_lt; lia).
  rewrite E. cbn [orb]. destruct (hidden >? 0); cbn [app join].
  - reflexivity.
  - rewrite app_nil_r. reflexivity.
Qed.

Lemma infoText_nonempty (truncated hidden : Z) :
  0 < truncated -> infoText truncated hidden <> [].
Proof.
  intros H. rewrite infoText_rows by exact H. discriminate.
Qed.

Lemma slice_firstn {A : Type} (l : list A) (m : nat) :
  slice l 0 (Z.of_nat m) = firstn m l.
Proof. rewrite slice_prefix by lia. rewrite Nat2Z.id. reflexivity. Qed.

Lemma layout_of_info (rows : list row) (options : TableOptions) :
  info (layout_of rows options)
  = infoText (truncatedRows (len rows) (totalRows options)
                (len (displayRows_of rows options)))
      (hiddenCols (layout_of rows options)).
Proof.
  unfold layout_of.
  destruct (layout_fields getTerminalWidth rows (displayRows_of rows options)
              (hd [] (displayRows_of rows options)) options)
    as (_ & _ & _ & _ & _ & _ & _ & Hinfo & _).
  exact Hinfo.
Qed.

(** The lines of [draw] before the footer: the top border, the header,
    the separator and the lines of the rows. *)
Lemma draw_parts (L : Layout) (options : TableOptions) :
  Forall repeatable (visibleColWidths L) ->
  exists top header headerSep rowLines,
    top_line (title options) (visibleColWidths L) = inr top
    /\ header_line L = inr header
    /\ cross_line BOX.headerLeft BOX.headerCross BOX.headerRight
         (visibleColWidths L) = inr headerSep
    /\ draw_rows L options = (rowLines, inr tt)
    /\ (fullContent options <> Some true ->
        Forall2 (fun r line => data_line L r = inr line)
          (visibleFormattedRows L) rowLines)
    /\ emitted (draw L options)
       = top :: header :: headerSep :: rowLines ++ emitted (draw_footer L).
Proof.
  intros Hws. unfold draw.
  destruct (top_line_total (title options) _ Hws) as (top & Htop).
  destruct (header_line_total L) as (header & Hheader).
  destruct (cross_line_total BOX.headerLeft BOX.headerCross BOX.headerRight _ Hws)
    as (sep & Hsep).
  destruct (draw_rows_total L options Hws) as (rowLines & Hrows & Hplain).
  exists top, header, sep, rowLines.
  rewrite Htop, Hheader, Hsep, Hrows.
  destruct (draw_footer L) as [out r]. simpl. repeat split; auto.
Qed.

(** A trailer text that fits the inner width is written whole, before
    its padding. *)
Lemma trailer_legible (L : Layout) (infoLine : jsstring) :
  padRight (truncate (info L) (innerWidth L)) (innerWidth L) = inr infoLine ->
  nleb (Fin (width (info L))) (innerWidth L) = true ->
  exists pad, infoLine = info L ++ pad.
Proof.
  intros Hpad Hfits. unfold truncate in Hpad. rewrite Hfits in Hpad.
  unfold padRight in Hpad.
  destruct (ngeb (Fin (width (info L))) (innerWidth L)).
  - apply inr_eq in Hpad. exists []. rewrite app_nil_r. symmetry. exact Hpad.
  - destruct (str_repeat SPACE (nsub (innerWidth L) (Fin (width (info L)))))
      as [e | pad]; cbn [rbind] in Hpad; [discriminate |].
    apply inr_eq in Hpad. exists pad. symmetry. exact Hpad.
Qed.

Lemma len_slice_le {A : Type} (l : list A) (from to : Z) :
  len (slice l from to) <= len l.
Proof.
  unfold slice, len. rewrite length_firstn, length_skipn. lia.
Qed.

(** [maxRows] never adds a row. *)
Lemma len_displayRows (rows : list row) (options : TableOptions) :
  len (displayRows_of rows options) <= len rows.
Proof.
  unfold displayRows_of.
  destruct (maxRows_of options); try apply len_slice_le; [lia |].
  apply len_nonneg.
Qed.

(** The rows left out, as the trailer counts them: [totalRows] takes
    the place of the number of rows given. *)
Lemma truncatedRows_count (rows : list row) (options : TableOptions) :
  truncatedRows (len rows) (totalRows options) (len (displayRows_of rows options))
  = match totalRows options with
    | Some t =>
      if t >? len (displayRows_of rows options)
      then t - len (displayRows_of rows options)
      else 0
    | None => len rows - len (displayRows_of rows options)
    end.
Proof.
  unfold truncatedRows. destruct (totalRows options) as [t |]; [reflexivity |].
  pose proof (len_displayRows rows options) as Hle.
  destruct (len rows >? len (displayRows_of rows options)) eqn:E; [reflexivity |].
  rewrite Z.gtb_ltb in E. apply Z.ltb_ge in E. lia.
Qed.

(** A table with rows left out: the lines up to the trailer line, and
    the trailer line itself. *)
Lemma printTable_trailer (rows : list row) (options : TableOptions) (count : Z) :
  rows <> [] -> displayRows_of rows options <> [] ->
  truncatedRows (len rows) (totalRows options) (len (displayRows_of rows options))
  = count ->
  0 < count ->
  exists top header headerSep rowLines infoLine rest columnsPart,
    emitted (printTable rows options)
    = top :: header :: headerSep :: rowLines ++ trailer_line infoLine :: rest
    /\ top_line (title options) (visibleColWidths (layout_of rows options))
       = inr top
    /\ header_line (layout_of rows options) = inr header
    /\ cross_line BOX.headerLeft BOX.headerCross BOX.headerRight
         (visibleColWidths (layout_of rows options)) = inr headerSep
    /\ draw_rows (layout_of rows options) options = (rowLines, inr tt)
    /\ (fullContent options <> Some true ->
        Forall2 (fun r line => data_line (layout_of rows options) r = inr line)
          (visibleFormattedRows (layout_of rows options)) rowLines)
    /\ padRight (truncate (info (layout_of rows options))
                   (innerWidth (layout_of rows options)))
         (innerWidth (layout_of rows options)) = inr infoLine
    /\ info (layout_of rows options)
       = lit "... "
           ++ (numberToString count ++ lit " more row" ++ plural count)
           ++ columnsPart
    /\ (nleb (Fin (width (info (layout_of rows options))))
          (innerWidth (layout_of rows options)) = true ->
        exists pad, infoLine = info (layout_of rows options) ++ pad).
Proof.
  intros Hrows Hdisp Hcount Hpos.
  rewrite (printTable_draws rows options Hrows Hdisp).
  destruct (draw_parts (layout_of rows options) options)
    as (top & header & sep & rowLines & Htop & Hheader & Hsep & Hdraw & Hplain
        & Hout).
  { apply layout_repeatable. }
  pose proof (layout_of_info rows options) as Hinfo. rewrite Hcount in Hinfo.
  rewrite infoText_rows in Hinfo by exact Hpos.
  destruct (draw_footer_trailer (layout_of rows options))
    as (infoLine & rest & Hpad & Hfoot & _).
  { rewrite Hinfo. discriminate. }
  exists top, header, sep, rowLines, infoLine, rest. eexists.
  rewrite Hout, Hfoot.
  repeat (split; [first [reflexivity | eassumption] |]).
  intros Hfits. exact (trailer_legible _ _ Hpad Hfits).
Qed.

Lemma length_visible_rows (rows : list row) (options : TableOptions) :
  length (visibleFormattedRows (layout_of rows options))
  = length (displayRows_of rows options).
Proof.
  unfold layout_of.
  destruct (layout_fields getTerminalWidth rows (displayRows_of rows options)
              (hd [] (displayRows_of rows options)) options)
    as (_ & _ & _ & _ & Hr & _).
  cbv zeta in Hr. rewrite Hr, !length_map. reflexivity.
Qed.

(** C10 (amended). With [maxRows] left out the cap is 100: for every
    list of more than 100 rows drawn with the default options, the
    lines written are the top border, the header, the separator,
    exactly 100 data lines, one for each of the first 100 rows, and
    then the trailer line. The trailer line is the trailer text,
    truncated and padded to the inner width; the text starts with the
    number of rows left out, [rows.length - 100], as
    ["... N more row(s)"], and the line shows it whole when the text is
    not wider than the inner width. *)
Theorem default_cap_is_100 (rows : list row) :
  (100 < length rows)%nat ->
  exists top header headerSep rowLines infoLine rest,
    emitted (printTable rows defaultOptions)
    = top :: header :: headerSep :: rowLines ++ trailer_line infoLine :: rest
    /\ length rowLines = 100%nat
    /\ displayRows_of rows defaultOptions = firstn 100 rows
    /\ Forall2 (fun r line => data_line (layout_of rows defaultOptions) r = inr line)
         (visibleFormattedRows (layout_of rows defaultOptions)) rowLines
    /\ padRight (truncate (info (layout_of rows defaultOptions))
                   (innerWidth (layout_of rows defaultOptions)))
         (innerWidth (layout_of rows defaultOptions)) = inr infoLine
    /\ (exists columnsPart,
         info (layout_of rows defaultOptions)
         = lit "... "
             ++ (numberToString (len rows - 100) ++ lit " more row"
                   ++ plural (len rows - 100))
             ++ columnsPart)
    /\ (nleb (Fin (width (info (layout_of rows defaultOptions))))
          (innerWidth (layout_of rows defaultOptions)) = true ->
        exists pad, infoLine = info (layout_of rows defaultOptions) ++ pad).
Proof.
  intros Hlen.
  assert (Hdisp : displayRows_of rows defaultOptions = firstn 100 rows).
  { unfold displayRows_of, maxRows_of. simpl.
    apply (slice_firstn rows 100). }
  assert (Hdlen : length (displayRows_of rows defaultOptions) = 100%nat).
  { rewrite Hdisp, length_firstn. lia. }
  assert (Hrows : rows <> []) by (intros ->; simpl in Hlen; lia).
  assert (Hdne : displayRows_of rows defaultOptions <> []).
  { intros H. rewrite H in Hdlen. discriminate. }
  assert (Htr : truncatedRows (len rows) (totalRows defaultOptions)
                  (len (displayRows_of rows defaultOptions)) = len rows - 100).
  { rewrite truncatedRows_count. unfold len. rewrite Hdlen. reflexivity. }
  destruct (printTable_trailer rows defaultOptions (len rows - 100) Hrows Hdne Htr)
    as (top & header & sep & rowLines & infoLine & rest & columnsPart & Hout & _
        & _ & _ & _ & Hplain & Hpad & Hinfo & Hlegible).
  { unfold len. lia. }
  specialize (Hplain ltac:(discriminate)).
  exists top, header, sep, rowLines, infoLine, rest.
  split; [exact Hout |]. split.
  { rewrite <- (Forall2_length_eq _ _ _ Hplain), length_visible_rows. exact Hdlen. }
  split; [exact Hdisp |]. split; [exact Hplain |]. split; [exact Hpad |].
  split; [exists columnsPart; exact Hinfo | exact Hlegible].
Qed.

Lemma displayRows_count (rows : list row) (options : TableOptions) (m : nat) :
  maxRows options = Some (Count (Z.of_nat m)) ->
  displayRows_of rows options = firstn m rows.
Proof.
  intros H. unfold displayRows_of, maxRows_of. rewrite H. apply slice_firstn.
Qed.


(** [printTable] with [maxRows = 0] on a table that has rows: the
    [TypeError] of [Object.keys(undefined)], and no line written. *)
Theorem maxRows_zero_throws (first : row) (more : list row)
    (options : TableOptions) :
  maxRows options = Some (Count 0) ->
  printTable (first :: more) options = ([], inl TypeError).
Proof.
  intros H. apply printTable_no_display_row; [discriminate |].
  apply (displayRows_count (first :: more) options 0). exact H.
Qed.

Lemma titleWidth_nonneg (t : option jsstring) : 0 <= titleWidth t.
Proof.
  unfold titleWidth. destruct (truthy_title t); [| lia].
  unfold width. lia.
Qed.

Lemma print_empty_returns (options : TableOptions) :
  outcome (print_empty options) = inr tt.
Proof.
  unfold print_empty. destruct (truthy_title (title options)) as [t |]; [| reflexivity].
  cbv zeta.
  destruct (str_repeat_total BOX.horizontal
              (Fin (Z.max 0 (Z.max (width (lit "(empty)")) (width t) + 2
                             - width (SPACE ++ t ++ SPACE) - 1))))
    as (bar & Hbar); [simpl; lia |].
  destruct (padRight_total (lit "(empty)")
              (Fin (Z.max (width (lit "(empty)")) (width t)))) as (padded & Hpad).
  destruct (str_repeat_total BOX.horizontal
              (Fin (Z.max (width (lit "(empty)")) (width t) + 2)))
    as (bottom & Hbottom); [simpl; unfold width; lia |].
  rewrite Hbar, Hpad, Hbottom. reflexivity.
Qed.

(** X1. Apart from the missing first row, the only exception is the
    [RangeError] of a bottom border of negative width, below a trailer,
    on a terminal of one column: with a row to draw and two columns or
    more, [printTable] returns. *)
Theorem printTable_returns (rows : list row) (options : TableOptions) :
  rows = [] \/ displayRows_of rows options <> [] ->
  2 <= getTerminalWidth ->
  outcome (printTable rows options) = inr tt.
Proof.
  intros Hdisp Ht.
  destruct rows as [| first more]; [apply print_empty_returns |].
  destruct Hdisp as [Hnil | Hdisp]; [discriminate |].
  rewrite (printTable_draws (first :: more) options ltac:(discriminate) Hdisp).
  set (L := layout_of (first :: more) options).
  destruct (draw_structure L options (layout_repeatable _ _ _ _ _))
    as (top & header & sep & rowLines & _ & Hout & _).
  rewrite Hout.
  destruct (info L) as [| c text] eqn:Einfo.
  - unfold draw_footer. rewrite Einfo.
    destruct (cross_line_total BOX.bottomLeft BOX.bottomCross BOX.bottomRight
                (visibleColWidths L) (layout_repeatable _ _ _ _ _)) as (line & Hline).
    rewrite Hline. reflexivity.
  - destruct (draw_footer_trailer L ltac:(rewrite Einfo; discriminate))
      as (infoLine & rest & _ & _ & Hrest).
    destruct Hrest as (bottom & _ & Hret); [| exact Hret].
    unfold L, layout_of.
    destruct (layout_fields getTerminalWidth (first :: more)
                (displayRows_of (first :: more) options)
                (hd [] (displayRows_of (first :: more) options)) options)
      as (_ & _ & _ & _ & _ & _ & _ & _ & _ & Hinner & _).
    rewrite Hinner.
    pose proof (titleWidth_nonneg (title options)) as Htw.
    destruct (contentWidth _) as [cw |]; simpl; [lia | exact I].
Qed.

End Accounting.

(** * The renderer on sample tables *)

Lemma plain_additive (t : Z) : additive_widths (plain t).
Proof.
  constructor.
  - intros a b _ _. apply plainWidth_app.
  - intros g Hg. unfold glyphs in Hg. simpl in Hg.
    repeat (destruct Hg as [<- | Hg]; [reflexivity |]). destruct Hg.
  - repeat split; reflexivity.
Qed.

(** The width function of the runtime with colors adds up over whole
    strings, and gives the styling sequences no column. *)
Lemma ansi_scan_app (a b : jsstring) :
  forall st st', esc_run st a = Some st' ->
    ansi_scan st (a ++ b) = (ansi_scan st a + ansi_scan st' b)%nat.
Proof.
  induction a as [| c a IH]; intros st st' Hrun.
  - cbn [esc_run] in Hrun. injection Hrun as ->. reflexivity.
  - cbn [esc_run] in Hrun. cbn [app ansi_scan].
    destruct st; cbn [esc_step] in Hrun.
    + destruct (c =? ESC)%N; rewrite (IH _ _ Hrun); lia.
    + destruct (c =? 91)%N; [| discriminate Hrun]. exact (IH _ _ Hrun).
    + unfold is_parameter in Hrun.
      destruct ((48 <=? c) && (c <=? 59))%N eqn:Ep.
      * apply andb_true_iff in Ep. destruct Ep as [_ Ep]. apply N.leb_le in Ep.
        replace ((64 <=? c) && (c <=? 126))%N with false
          by (symmetry; apply andb_false_iff; left; apply N.leb_gt; lia).
        exact (IH _ _ Hrun).
      * destruct (N.eqb_spec c 109) as [-> | Hne]; [| discriminate Hrun].
        exact (IH _ _ Hrun).
Qed.

Lemma colour_additive (t : Z) : additive_widths (colour t).
Proof.
  constructor.
  - intros a b Ha _. exact (ansi_scan_app a b Ground Ground Ha).
  - intros g Hg. unfold glyphs in Hg. simpl in Hg.
    repeat (destruct Hg as [<- | Hg]; [reflexivity |]). destruct Hg.
  - repeat split; reflexivity.
Qed.

(** Deciding that a code unit does not occur, for texts that are
    given. *)
Lemma not_In_by (x : codeunit) (s : jsstring) :
  forallb (fun c => negb (c =? x)%N) s = true -> ~ In x s.
Proof.
  intros H Hin. rewrite forallb_forall in H. specialize (H x Hin).
  rewrite N.eqb_refl in H. discriminate H.
Qed.

(** ** The snapshots of the test suite *)

Example snapshot_single_column :
  render 120 [id_row 1; id_row 2] (titled "single")
  = ([lit "╭─ single ───╮";
      lit "│         id │";
      lit "├────────────┤";
      lit "│          1 │";
      lit "│          2 │";
      lit "╰────────────╯"], inr tt).
Proof. vm_compute. reflexivity. Qed.

Example snapshot_rows_and_columns :
  render 120 [alice; bob] (titled "users")
  = ([lit "╭─ users ────┬───────────────────╮";
      lit "│ id │ name  │ email             │";
      lit "├────┼───────┼───────────────────┤";
      lit "│  1 │ Alice │ alice@example.com │";
      lit "│  2 │ Bob   │ bob@test.com      │";
      lit "╰────┴───────┴───────────────────╯"], inr tt).
Proof. vm_compute. reflexivity. Qed.

Example snapshot_empty_without_title :
  render 120 [] defaultOptions = ([lit "(empty)"], inr tt).
Proof. vm_compute. reflexivity. Qed.

Example snapshot_unicode :
  render 120
    [[(lit "name", VString (lit "日本語")); (lit "emoji", VString (lit "🎉"))];
     [(lit "name", VString (lit "中文")); (lit "emoji", VString (lit "🚀"))]]
    defaultOptions
  = ([lit "╭────────┬───────╮";
      lit "│ name   │ emoji │";
      lit "├────────┼───────┤";
      lit "│ 日本語 │ 🎉    │";
      lit "│ 中文   │ 🚀    │";
      lit "╰────────┴───────╯"], inr tt).
Proof. vm_compute. reflexivity. Qed.

Example snapshot_maxRows :
  render 120 (ids 10) (capped 3 None)
  = ([lit "╭────╮";
      lit "│ id │";
      lit "├────┤";
      lit "│  0 │";
      lit "│  1 │";
      lit "│  2 │";
      lit "│ .… │";
      lit "╰────╯"], inr tt).
Proof. vm_compute. reflexivity. Qed.

Example snapshot_long_value :
  render 50
    [[(lit "id", VNumber 1);
      (lit "description",
       VString (lit "This is a very long description that should be truncated"))]]
    defaultOptions
  = ([lit "╭────────┬──────────────────────────────────────╮";
      lit "│     id │ description                          │";
      lit "├────────┼──────────────────────────────────────┤";
      lit "│      1 │ This is a very long description tha… │";
      lit "╰────────┴──────────────────────────────────────╯"], inr tt).
Proof. vm_compute. reflexivity. Qed.

Example snapshot_hidden_columns :
  render 30
    [[(lit "a", VNumber 1); (lit "b", VNumber 2); (lit "c", VNumber 3);
      (lit "d", VNumber 4); (lit "e", VNumber 5); (lit "f", VNumber 6);
      (lit "g", VNumber 7); (lit "h", VNumber 8)]]
    defaultOptions
  = ([lit "╭───┬───┬───┬───╮";
      lit "│ a │ b │ c │ d │";
      lit "├───┼───┼───┼───┤";
      lit "│ 1 │ 2 │ 3 │ 4 │";
      lit "│ ... 4 more c… │";
      lit "╰───────────────╯"], inr tt).
Proof. vm_compute. reflexivity. Qed.

Example snapshot_title_expands :
  render 120 [[(lit "a", VNumber 1)]] (titled "this is a very long title")
  = ([lit "╭─ this is a very long title ───╮";
      lit "│                             a │";
      lit "├───────────────────────────────┤";
      lit "│                             1 │";
      lit "╰───────────────────────────────╯"], inr tt).
Proof. vm_compute. reflexivity. Qed.

Example snapshot_totalRows :
  render 120 [id_row 1; id_row 2; id_row 3] (capped 3 (Some 1000))
  = ([lit "╭────╮";
      lit "│ id │";
      lit "├────┤";
      lit "│  1 │";
      lit "│  2 │";
      lit "│  3 │";
      lit "│ .… │";
      lit "╰────╯"], inr tt).
Proof. vm_compute. reflexivity. Qed.

(** ** Witnesses and counterexamples *)


(** A terminal narrower than 7 columns cannot hold a column at its
    floor of 3: the lines are wider than the terminal. *)
Lemma narrow_terminal_overflows :
  render 5 [wide_header_row] defaultOptions
  = ([lit "╭─────╮"; lit "│ ab… │"; lit "├─────┤"; lit "│ x   │"; lit "╰─────╯"],
     inr tt).
Proof. vm_compute. reflexivity. Qed.

(** With a column without name over empty cells the inner width is 0,
    and the trailer, which always holds the ellipsis, sticks out. *)
Lemma blank_column_trailer_sticks_out :
  render 120 [blank_row; blank_row] (capped 1 None)
  = ([lit "╭──╮"; lit "│  │"; lit "├──┤"; lit "│  │"; lit "│ … │"; lit "╰──╯"],
     inr tt).
Proof. vm_compute. reflexivity. Qed.

(** Without rows, a title as wide as ["(empty)"] pushes the corner of
    the top border out by one column. *)
Lemma empty_table_wide_title :
  render 120 [] (titled "abcdefg")
  = ([lit "╭─ abcdefg ╮"; lit "│ (empty) │"; lit "╰─────────╯"], inr tt).
Proof. vm_compute. reflexivity. Qed.

(** C2: the renderer throws when [maxRows] is 0 and there are rows. *)
Lemma maxRows_zero_type_error :
  render 120 [id_row 1] (capped 0 None) = ([], inl TypeError).
Proof. vm_compute. reflexivity. Qed.

(** It also throws on a terminal of one column when there is a trailer:
    the bottom border has a negative width. *)
Lemma one_column_terminal_range_error :
  outcome (render 1 (ids 2) (capped 1 None)) = inl RangeError.
Proof. vm_compute. reflexivity. Qed.

Lemma compression_keeps_floor_witness :
  Forall (fun w => exists z, w = Fin z /\ minColWidth <= z)
    (compressed (@layout (plain 10) 10 [wide_header_row] [wide_header_row]
                   wide_header_row defaultOptions)).
Proof.
  apply (@compression_keeps_floor (plain 10) 10 [wide_header_row] [wide_header_row]
           wide_header_row defaultOptions).
  - vm_compute. reflexivity.
  - vm_compute. apply Exists_cons_hd. intros H. discriminate H.
Defined.

(** C3 as stated fails for a header wider than the width left: the
    shrinking loop stops at 3, not at the header's width. *)
Lemma header_floor_not_kept :
  zsum (natural (@layout (plain 10) 10 [wide_header_row] [wide_header_row]
                   wide_header_row defaultOptions))
    > available (@layout (plain 10) 10 [wide_header_row] [wide_header_row]
                   wide_header_row defaultOptions)
  /\ ~ Forall2 (fun col w =>
                  exists z, w = Fin z /\ Z.max 3 (@width (plain 10) col) <= z)
         (columns (@layout (plain 10) 10 [wide_header_row] [wide_header_row]
                     wide_header_row defaultOptions))
         (compressed (@layout (plain 10) 10 [wide_header_row] [wide_header_row]
                        wide_header_row defaultOptions)).
Proof.
  split; [vm_compute; reflexivity |].
  assert (Ec : columns (@layout (plain 10) 10 [wide_header_row] [wide_header_row]
                          wide_header_row defaultOptions) = [lit "abcdefghij"])
    by (vm_compute; reflexivity).
  assert (Ew : compressed (@layout (plain 10) 10 [wide_header_row] [wide_header_row]
                             wide_header_row defaultOptions) = [Fin 6])
    by (vm_compute; reflexivity).
  rewrite Ec, Ew. intros H.
  inversion H as [| col w cols ws (z & Hz & Hle) _]; subst.
  injection Hz as <-. vm_compute in Hle. apply Hle. reflexivity.
Qed.

Lemma drawn_widths_floor_witness :
  Forall2 (fun n w =>
             exists z, w = Fin z /\ 0 <= n
               /\ (if zsum (natural (@layout (plain 10) 10 [wide_header_row]
                                       [wide_header_row] wide_header_row
                                       defaultOptions))
                      >? available (@layout (plain 10) 10 [wide_header_row]
                                      [wide_header_row] wide_header_row
                                      defaultOptions)
                   then minColWidth else n) <= z)
    (natural (@layout (plain 10) 10 [wide_header_row] [wide_header_row]
                wide_header_row defaultOptions))
    (visibleColWidths (@layout (plain 10) 10 [wide_header_row] [wide_header_row]
                         wide_header_row defaultOptions)).
Proof.
  apply (@drawn_widths_floor (plain 10) 10 [wide_header_row] [wide_header_row]
           wide_header_row defaultOptions).
  intros _. vm_compute. apply Exists_cons_hd. intros H. discriminate H.
Defined.

(** C4 as stated fails for a column without name over empty cells on a
    wide terminal: nothing clamps its natural width of 0. *)
Lemma blank_column_has_no_width :
  visibleColWidths (@layout (plain 120) 120 [blank_row] [blank_row] blank_row
                      defaultOptions) = [Fin 0]
  /\ ~ Forall (fun w => exists z, w = Fin z /\ 0 < z)
         (visibleColWidths (@layout (plain 120) 120 [blank_row] [blank_row]
                              blank_row defaultOptions)).
Proof.
  assert (E : visibleColWidths (@layout (plain 120) 120 [blank_row] [blank_row]
                                  blank_row defaultOptions) = [Fin 0])
    by (vm_compute; reflexivity).
  split; [exact E |]. rewrite E. intros H.
  inversion H as [| w ws (z & Hz & Hpos) _]; subst.
  injection Hz as <-. lia.
Qed.

Lemma blank_column_table :
  render 120 [blank_row] defaultOptions
  = ([lit "╭──╮"; lit "│  │"; lit "├──┤"; lit "│  │"; lit "╰──╯"], inr tt).
Proof. vm_compute. reflexivity. Qed.

Lemma wrapLines_fits_witness :
  Forall (fun line => @width (plain 80) line <= Z.of_nat 5)
    (@wrapLines (plain 80) (lit "the quick brown fox") (Fin (Z.of_nat 5)))
  /\ @wrapLines (plain 80) [] (Fin (Z.of_nat 5)) = [[]].
Proof.
  destruct (@wrapLines_fits (plain 80) plainWidth_app (lit "the quick brown fox") 5)
    as [H1 H2].
  split; [| exact H2]. apply H1; [lia |].
  apply Forall_forall. intros c Hc. simpl in Hc.
  repeat (destruct Hc as [<- | Hc]; [vm_compute; intros H; discriminate H |]).
  destruct Hc.
Defined.

(** C6. The comment of [wrapLines] says that it wraps to fit
    [maxWidth], and so does the claim; the cut loop does not. In
    [printTable([{ a: "ab日cd" }], { fullContent: true })] on a terminal
    of 7 columns the column is 3 wide and [wrapLines] is called on the
    cell with that width: its cut loop stops at the first prefix whose
    width is not less than 3, which is ["ab日"], of width 4, since the
    last glyph takes two columns. The line is wider than the column,
    and [printTable] then truncates it: in full-content mode the table
    shows ["ab…"] and the glyph is lost. *)
Theorem full_content_wide_glyph_cut :
  visibleColWidths (@layout_of (plain 7) [wide_glyph_row] fullContentOptions)
  = [Fin 3]
  /\ visibleFormattedRows (@layout_of (plain 7) [wide_glyph_row] fullContentOptions)
     = [[lit "ab日cd"]]
  /\ @wrapLines (plain 7) (lit "ab日cd") (Fin 3) = [lit "ab日"; lit "cd"]
  /\ @width (plain 7) (lit "ab日") = 4
  /\ ~ Forall (fun line => @width (plain 7) line <= 3)
         (@wrapLines (plain 7) (lit "ab日cd") (Fin 3))
  /\ render 7 [wide_glyph_row] fullContentOptions
     = ([lit "╭─────╮"; lit "│ a   │"; lit "├─────┤"; lit "│ ab… │";
         lit "│ cd  │"; lit "╰─────╯"], inr tt).
Proof.
  assert (E : @wrapLines (plain 7) (lit "ab日cd") (Fin 3) = [lit "ab日"; lit "cd"])
    by (vm_compute; reflexivity).
  repeat (split; [vm_compute; reflexivity |]).
  split; [| vm_compute; reflexivity].
  rewrite E. intros H.
  inversion H as [| l ls Hl _]; subst. vm_compute in Hl. apply Hl. reflexivity.
Qed.



Lemma default_cap_is_100_witness :
  (100 < length (guests 101))%nat
  /\ exists top header headerSep rowLines infoLine rest pad,
       emitted (@printTable (plain 80) (guests 101) defaultOptions)
       = top :: header :: headerSep :: rowLines
           ++ @trailer_line (plain 80) infoLine :: rest
       /\ length rowLines = 100%nat
       /\ info (@layout_of (plain 80) (guests 101) defaultOptions)
          = lit "... 1 more row"
       /\ infoLine = lit "... 1 more row" ++ pad.
Proof.
  assert (H : (100 < length (guests 101))%nat)
    by (unfold guests; rewrite length_map, length_seq; lia).
  split; [exact H |].
  destruct (@default_cap_is_100 (plain 80) (guests 101) H)
    as (top & header & sep & rowLines & infoLine & rest & Hout & Hlen & _ & _ & _
        & _ & Hlegible).
  assert (Hinfo : info (@layout_of (plain 80) (guests 101) defaultOptions)
                  = lit "... 1 more row") by (vm_compute; reflexivity).
  destruct (Hlegible ltac:(vm_compute; reflexivity)) as (pad & Hpad).
  exists top, header, sep, rowLines, infoLine, rest, pad.
  split; [exact Hout |]. split; [exact Hlen |]. split; [exact Hinfo |].
  rewrite <- Hinfo. exact Hpad.
Defined.

(** C10 as stated fails on the table of the test suite with one row
    more than the cap: of the 101 rows [{ id: i }] 100 are drawn, but
    the trailer text is truncated to the inner width of 2 and no line
    written reports the row left out. *)
Lemma default_cap_trailer_not_shown :
  (100 < length (ids 101))%nat
  /\ info (@layout_of (plain 120) (ids 101) defaultOptions) = lit "... 1 more row"
  /\ nth 103 (emitted (render 120 (ids 101) defaultOptions)) [] = lit "│ .… │"
  /\ ~ (exists line,
         In line (emitted (render 120 (ids 101) defaultOptions))
         /\ includes (lit "1 more row") line = true).
Proof.
  split; [vm_compute; lia |].
  split; [vm_compute; reflexivity |].
  split; [vm_compute; reflexivity |].
  intros (line & Hin & Hinc).
  assert (E : existsb (includes (lit "1 more row"))
                (emitted (render 120 (ids 101) defaultOptions)) = false)
    by (vm_compute; reflexivity).
  assert (E' : existsb (includes (lit "1 more row"))
                 (emitted (render 120 (ids 101) defaultOptions)) = true).
  { apply existsb_exists. exists line. split; assumption. }
  rewrite E in E'. discriminate E'.
Qed.

(** The default cap on the table of 101 rows: 100 rows, then the
    trailer, truncated to the inner width of 2. *)
Lemma default_cap_lines :
  length (emitted (render 120 (ids 101) defaultOptions)) = 105%nat
  /\ nth 103 (emitted (render 120 (ids 101) defaultOptions)) [] = lit "│ .… │"
  /\ info (@layout_of (plain 120) (ids 101) defaultOptions) = lit "... 1 more row".
Proof. repeat split; vm_compute; reflexivity. Qed.

(** * More of [table.ts] *)

(** ** [wrapLines] keeps the text *)

Section WrapText.

Context {R : Runtime}.

Lemma fragment_loop_text (maxWidth : num) (fuel : nat) :
  forall lines current fragment lines' current' fragment',
    fragment_loop fuel maxWidth lines current fragment
    = (lines', current', fragment') ->
    concat lines' ++ current' ++ fragment' = concat lines ++ current ++ fragment.
Proof.
  induction fuel as [| fuel IH]; intros lines current fragment lines' current'
    fragment' Hrun; cbn [fragment_loop] in Hrun.
  - injection Hrun as <- <- <-. reflexivity.
  - destruct (len fragment >? 0) eqn:Ef; [| injection Hrun as <- <- <-; reflexivity].
    destruct (ngtb (Fin (width (current ++ fragment))) maxWidth) eqn:Ew.
    + destruct (len current >? 0) eqn:Ec.
      * rewrite (IH _ _ _ _ _ _ Hrun). rewrite concat_app. cbn [concat].
        rewrite app_nil_r, <- app_assoc. reflexivity.
      * rewrite (IH _ _ _ _ _ _ Hrun). rewrite concat_app. cbn [concat].
        rewrite app_nil_r, <- app_assoc.
        assert (Hcur : current = []).
        { apply len_nil_iff. pose proof (len_nonneg current).
          rewrite Z.gtb_ltb, Z.ltb_ge in Ec. lia. }
        subst current. cbn [app].
        rewrite slice_split; [reflexivity |].
        pose proof (cut_loop_lower fragment maxWidth (length fragment) 1). lia.
    + rewrite (IH _ _ _ _ _ _ Hrun). rewrite app_nil_r. reflexivity.
Qed.

Lemma wrap_token_text (maxWidth : num) (st : list jsstring * jsstring)
    (token : jsstring) :
  concat (fst (wrap_token maxWidth st token)) ++ snd (wrap_token maxWidth st token)
  = concat (fst st) ++ snd st ++ token.
Proof.
  destruct st as [lines current]. unfold wrap_token.
  pose proof (wrap_token_done maxWidth lines current token) as Hdone.
  destruct (fragment_loop (2 * length token + 1) maxWidth lines current token)
    as [[lines1 current1] rest] eqn:Erun.
  cbn [snd] in Hdone. subst rest.
  pose proof (fragment_loop_text _ _ _ _ _ _ _ _ Erun) as Htext.
  rewrite app_nil_r in Htext. cbn [fst snd].
  destruct (ngeb (Fin (width current1)) maxWidth); cbn [fst snd].
  - rewrite concat_app. cbn [concat]. rewrite !app_nil_r. exact Htext.
  - exact Htext.
Qed.

Lemma wrap_fold_text (maxWidth : num) (tokens : list jsstring) :
  forall st,
    concat (fst (fold_left (wrap_token maxWidth) tokens st))
      ++ snd (fold_left (wrap_token maxWidth) tokens st)
    = concat (fst st) ++ snd st ++ concat tokens.
Proof.
  induction tokens as [| token tokens IH]; intros st; cbn [fold_left concat].
  - rewrite app_nil_r. reflexivity.
  - rewrite IH, app_assoc, wrap_token_text, <- !app_assoc. reflexivity.
Qed.

Lemma wrapLines_cases (text : jsstring) (maxWidth : num) :
  (join SPACE (split_on 10%N [] text) = [] /\ wrapLines text maxWidth = [[]])
  \/ (join SPACE (split_on 10%N [] text) <> []
      /\ concat (wrapLines text maxWidth) = join SPACE (split_on 10%N [] text)).
Proof.
  unfold wrapLines.
  destruct (join SPACE (split_on 10%N [] text)) as [| c raw'] eqn:Eraw;
    [left; split; reflexivity |].
  right. split; [discriminate |].
  pose proof (wrap_fold_text maxWidth (split_text [] (c :: raw')) ([], [])) as H.
  destruct (split_text_concat (c :: raw')) as [Hcat _]. rewrite Hcat in H.
  destruct (fold_left (wrap_token maxWidth) (split_text [] (c :: raw')) ([], []))
    as [lines current].
  cbn [fst snd concat app] in H.
  destruct (len current >? 0) eqn:Ec.
  - rewrite concat_app. cbn [concat]. rewrite app_nil_r. exact H.
  - assert (Hcur : current = []).
    { apply len_nil_iff. pose proof (len_nonneg current).
      rewrite Z.gtb_ltb, Z.ltb_ge in Ec. lia. }
    subst current. rewrite app_nil_r in H. exact H.
Qed.

Lemma wrapLines_nonempty (text : jsstring) (maxWidth : num) :
  wrapLines text maxWidth <> [].
Proof.
  destruct (wrapLines_cases text maxWidth) as [[_ ->] | [Hraw Hkeep]];
    [discriminate |].
  intros Hnil. rewrite Hnil in Hkeep. cbn [concat] in Hkeep.
  apply Hraw. symmetry. exact Hkeep.
Qed.


(** X2. The lines of [wrapLines], put end to end, are the text with every
    line feed replaced by a space: wrapping drops and adds nothing, not
    even the spaces it breaks at. *)
Theorem wrapLines_keeps_the_text (text : jsstring) (maxWidth : num) :
  concat (wrapLines text maxWidth) = join SPACE (split_on 10%N [] text).
Proof.
  destruct (wrapLines_cases text maxWidth) as [[Hraw Hw] | [_ Hkeep]].
  - rewrite Hw, Hraw. reflexivity.
  - exact Hkeep.
Qed.

End WrapText.

(** ** [wrapLines] on a text that fits, and under [truncate] *)

Section WrapWhole.

Context {R : Runtime}.
Hypothesis Hconcat : forall a b : jsstring,
  stringWidth (a ++ b) = (stringWidth a + stringWidth b)%nat.







End WrapWhole.



(** ** [truncate] keeps as much as fits *)

Section TruncateLongest.

Context {R : Runtime}.

(** A text is at least as wide as each of its prefixes. *)
Hypothesis Hgrow : forall a b : jsstring,
  (stringWidth a <= stringWidth (a ++ b))%nat.

Lemma prefix_width_grows (str : jsstring) (m m' : Z) :
  0 <= m <= m' -> width (slice str 0 m) <= width (slice str 0 m').
Proof.
  intros Hm. rewrite !slice_prefix by lia.
  assert (Hsplit : firstn (Z.to_nat m') str
                   = firstn (Z.to_nat m) str
                       ++ skipn (Z.to_nat m) (firstn (Z.to_nat m') str)).
  { rewrite <- (firstn_skipn (Z.to_nat m) (firstn (Z.to_nat m') str)) at 1.
    rewrite firstn_firstn. replace (Nat.min (Z.to_nat m) (Z.to_nat m')) with (Z.to_nat m)
      by lia. reflexivity. }
  rewrite Hsplit. unfold width.
  pose proof (Hgrow (firstn (Z.to_nat m) str)
                (skipn (Z.to_nat m) (firstn (Z.to_nat m') str))). lia.
Qed.

Lemma room_for_shorter (str : jsstring) (maxWidth : num) (m m' : Z) :
  0 <= m <= m' ->
  room_for_ellipsis str maxWidth m' -> room_for_ellipsis str maxWidth m.
Proof.
  intros Hm. unfold room_for_ellipsis.
  pose proof (prefix_width_grows str m m' Hm) as Hle.
  destruct maxWidth as [w |]; cbn [nleb]; [| discriminate].
  rewrite !Z.leb_le. lia.
Qed.

Lemma truncate_loop_longest (str : jsstring) (maxWidth : num) (fuel : nat) :
  forall low high,
    0 <= low <= high ->
    high - low <= Z.of_nat fuel ->
    (forall m, high < m -> ~ room_for_ellipsis str maxWidth m) ->
    forall m, truncate_loop fuel str maxWidth low high < m ->
              ~ room_for_ellipsis str maxWidth m.
Proof.
  induction fuel as [| fuel IH]; intros low high Hlow Hfuel Habove m Hm.
  - cbn [truncate_loop] in Hm. apply Habove. lia.
  - rewrite truncate_loop_step in Hm.
    destruct (low <? high) eqn:Elt.
    + apply Z.ltb_lt in Elt.
      remember ((low + high + 1) / 2) as mid eqn:Emid.
      assert (Hmid : low < mid <= high).
      { subst mid. Z.div_mod_to_equations. lia. }
      destruct (nleb (Fin (width (slice str 0 mid) + 1)) maxWidth) eqn:Eroom.
      * apply (IH mid high); [lia | lia | exact Habove | exact Hm].
      * apply (IH low (mid - 1)); [lia | lia | | exact Hm].
        intros m' Hm' Hroom.
        assert (Hmidroom : room_for_ellipsis str maxWidth mid)
          by (apply (room_for_shorter str maxWidth mid m'); [lia | exact Hroom]).
        unfold room_for_ellipsis in Hmidroom. congruence.
    + apply Z.ltb_ge in Elt. apply Habove. lia.
Qed.

(** X5. When the text is wider than [maxWidth], [truncate] answers a
    prefix of the text followed by the ellipsis, and that prefix is the
    longest one that leaves a column for the ellipsis: it is empty or
    leaves that column, and no longer prefix does. A text is assumed to
    be at least as wide as each of its prefixes. *)
Theorem truncate_keeps_longest_prefix (str : jsstring) (w : Z) :
  width str > w ->
  exists r,
    0 <= r <= len str
    /\ truncate str (Fin w) = ellipsized (slice str 0 r)
    /\ (r = 0 \/ width (slice str 0 r) + 1 <= w)
    /\ (forall m, r < m -> w < width (slice str 0 m) + 1).
Proof.
  intros Hwide. unfold truncate. cbn [nleb].
  replace (width str <=? w) with false by (symmetry; apply Z.leb_gt; lia).
  exists (truncate_loop (length str) str (Fin w) 0 (len str)).
  pose proof (len_nonneg str) as Hlen.
  destruct (truncate_loop_spec str (Fin w) (length str) 0 (len str) Hlen)
    as [Hbounds Hroom].
  split; [exact Hbounds |]. split; [reflexivity |]. split.
  - destruct Hroom as [-> | Hroom]; [left; reflexivity | right].
    unfold room_for_ellipsis in Hroom. cbn [nleb] in Hroom.
    apply Z.leb_le in Hroom. exact Hroom.
  - intros m Hm.
    assert (Hno : ~ room_for_ellipsis str (Fin w) m).
    { apply (truncate_loop_longest str (Fin w) (length str) 0 (len str));
        [lia | unfold len; lia | | exact Hm].
      intros m' Hm' Hroom'. unfold room_for_ellipsis in Hroom'.
      cbn [nleb] in Hroom'. apply Z.leb_le in Hroom'.
      assert (Hwhole : slice str 0 m' = str).
      { rewrite slice_prefix by lia. apply firstn_all2. unfold len in Hm'. lia. }
      rewrite Hwhole in Hroom'. lia. }
    unfold room_for_ellipsis in Hno. cbn [nleb] in Hno.
    rewrite Z.leb_le in Hno. lia.
Qed.

End TruncateLongest.

Lemma plainWidth_grows (a b : jsstring) :
  (plainWidth a <= plainWidth (a ++ b))%nat.
Proof. rewrite plainWidth_app. lia. Qed.

Lemma truncate_keeps_longest_prefix_witness :
  exists r,
    0 <= r <= len (lit "hello world")
    /\ @truncate (plain 80) (lit "hello world") (Fin 8)
       = @ellipsized (plain 80) (slice (lit "hello world") 0 r)
    /\ (r = 0 \/ @width (plain 80) (slice (lit "hello world") 0 r) + 1 <= 8)
    /\ (forall m, r < m -> 8 < @width (plain 80) (slice (lit "hello world") 0 m) + 1).
Proof.
  apply (@truncate_keeps_longest_prefix (plain 80) plainWidth_grows
           (lit "hello world") 8).
  vm_compute. reflexivity.
Defined.

(** ** Padding twice *)

Section Padding.

Context {R : Runtime}.
Hypothesis Hconcat : forall a b : jsstring, whole a -> whole b ->
  stringWidth (a ++ b) = (stringWidth a + stringWidth b)%nat.
Hypothesis Hspace : stringWidth SPACE = 1%nat.

Lemma padRight_fin (s : jsstring) (a : Z) :
  padRight s (Fin a)
  = if width s >=? a then inr s
    else inr (s ++ concat (repeat SPACE (Z.to_nat (a - width s)))).
Proof.
  unfold padRight. cbn [ngeb nsub str_repeat].
  destruct (width s >=? a) eqn:E; [reflexivity |].
  rewrite Z.geb_leb in E. apply Z.leb_gt in E.
  replace (a - width s <? 0) with false by (symmetry; apply Z.ltb_ge; lia).
  reflexivity.
Qed.

Lemma padLeft_fin (s : jsstring) (a : Z) :
  padLeft s (Fin a)
  = if width s >=? a then inr s
    else inr (concat (repeat SPACE (Z.to_nat (a - width s))) ++ s).
Proof.
  unfold padLeft. cbn [ngeb nsub str_repeat].
  destruct (width s >=? a) eqn:E; [reflexivity |].
  rewrite Z.geb_leb in E. apply Z.leb_gt in E.
  replace (a - width s <? 0) with false by (symmetry; apply Z.ltb_ge; lia).
  reflexivity.
Qed.

Lemma pad_width (k : nat) : width (concat (repeat SPACE k)) = Z.of_nat k.
Proof.
  unfold width. induction k as [| k IH].
  - pose proof (Hconcat [] [] whole_nil whole_nil) as H. cbn [app] in H.
    cbn [repeat concat]. lia.
  - cbn [repeat concat].
    rewrite Hconcat by (try apply whole_repeat; reflexivity).
    rewrite Hspace. lia.
Qed.

Lemma padded_width (s : jsstring) (k : nat) :
  whole s ->
  width (s ++ concat (repeat SPACE k)) = width s + Z.of_nat k
  /\ width (concat (repeat SPACE k) ++ s) = Z.of_nat k + width s.
Proof.
  intros Hs. pose proof (pad_width k) as Hk. unfold width in *.
  rewrite !Hconcat by (try apply whole_repeat; try exact Hs; reflexivity).
  lia.
Qed.

Lemma spaces_app (j k : nat) :
  concat (repeat SPACE j) ++ concat (repeat SPACE k)
  = concat (repeat SPACE (j + k)).
Proof. rewrite repeat_app, concat_app. reflexivity. Qed.

(** X6. Padding a padded text again is padding once to the larger of the
    two widths, on either side, for a text that breaks no styling
    sequence. Display widths are assumed to add up over the
    concatenation of such strings, with one column for a space. *)
Theorem padding_twice (s : jsstring) (a b : Z) :
  whole s ->
  rbind (padRight s (Fin a)) (fun p => padRight p (Fin b))
  = padRight s (Fin (Z.max a b))
  /\ rbind (padLeft s (Fin a)) (fun p => padLeft p (Fin b))
     = padLeft s (Fin (Z.max a b)).
Proof.
  intros Hwhole. pose proof (width_nonneg s) as Hs.
  split.
  - rewrite (padRight_fin s a), (padRight_fin s (Z.max a b)).
    destruct (width s >=? a) eqn:Ea; cbn [rbind]; rewrite Z.geb_leb in Ea.
    + apply Z.leb_le in Ea. rewrite padRight_fin.
      destruct (width s >=? b) eqn:Eb; rewrite Z.geb_leb in Eb.
      * apply Z.leb_le in Eb.
        replace (width s >=? Z.max a b) with true
          by (symmetry; rewrite Z.geb_leb; apply Z.leb_le; lia).
        reflexivity.
      * apply Z.leb_gt in Eb.
        replace (width s >=? Z.max a b) with false
          by (symmetry; rewrite Z.geb_leb; apply Z.leb_gt; lia).
        replace (Z.max a b) with b by lia. reflexivity.
    + apply Z.leb_gt in Ea. rewrite padRight_fin.
      rewrite (proj1 (padded_width s _ Hwhole)).
      replace (width s >=? Z.max a b) with false
        by (symmetry; rewrite Z.geb_leb; apply Z.leb_gt; lia).
      destruct (width s + Z.of_nat (Z.to_nat (a - width s)) >=? b) eqn:Eb;
        rewrite Z.geb_leb in Eb.
      * apply Z.leb_le in Eb. replace (Z.max a b) with a by lia. reflexivity.
      * apply Z.leb_gt in Eb. rewrite <- app_assoc, spaces_app.
        replace (Z.to_nat (a - width s)
                 + Z.to_nat (b - (width s + Z.of_nat (Z.to_nat (a - width s)))))%nat
          with (Z.to_nat (Z.max a b - width s)) by lia.
        reflexivity.
  - rewrite (padLeft_fin s a), (padLeft_fin s (Z.max a b)).
    destruct (width s >=? a) eqn:Ea; cbn [rbind]; rewrite Z.geb_leb in Ea.
    + apply Z.leb_le in Ea. rewrite padLeft_fin.
      destruct (width s >=? b) eqn:Eb; rewrite Z.geb_leb in Eb.
      * apply Z.leb_le in Eb.
        replace (width s >=? Z.max a b) with true
          by (symmetry; rewrite Z.geb_leb; apply Z.leb_le; lia).
        reflexivity.
      * apply Z.leb_gt in Eb.
        replace (width s >=? Z.max a b) with false
          by (symmetry; rewrite Z.geb_leb; apply Z.leb_gt; lia).
        replace (Z.max a b) with b by lia. reflexivity.
    + apply Z.leb_gt in Ea. rewrite padLeft_fin.
      rewrite (proj2 (padded_width s _ Hwhole)).
      replace (width s >=? Z.max a b) with false
        by (symmetry; rewrite Z.geb_leb; apply Z.leb_gt; lia).
      destruct (Z.of_nat (Z.to_nat (a - width s)) + width s >=? b) eqn:Eb;
        rewrite Z.geb_leb in Eb.
      * apply Z.leb_le in Eb. replace (Z.max a b) with a by lia. reflexivity.
      * apply Z.leb_gt in Eb. rewrite app_assoc, spaces_app.
        replace (Z.to_nat (b - (Z.of_nat (Z.to_nat (a - width s)) + width s))
                 + Z.to_nat (a - width s))%nat
          with (Z.to_nat (Z.max a b - width s)) by lia.
        reflexivity.
Qed.

End Padding.

(** ** Which columns are hidden *)

Section HidingThreshold.

Context {R : Runtime}.

(** X7. The visible columns are the first keys of the first row, in
    order, and the hidden ones are the rest. With [n] keys, none is
    hidden exactly when [n] is at most 1 or the terminal has at least
    [6 * n + 1] columns. *)
Theorem columns_hidden_from_the_right (t : Z) (rows displayRows : list row)
    (first : row) (options : TableOptions) :
  columns (layout t rows displayRows first options)
    ++ skipn (length (columns (layout t rows displayRows first options))) (keys first)
  = keys first
  /\ len (columns (layout t rows displayRows first options))
     + hiddenCols (layout t rows displayRows first options)
     = len (keys first)
  /\ (hiddenCols (layout t rows displayRows first options) = 0
      <-> len (keys first) <= 1 \/ 6 * len (keys first) + 1 <= t).
Proof.
  destruct (layout_fields t rows displayRows first options)
    as (Hcols & Hhid & _).
  cbv zeta in Hcols, Hhid. rewrite Hcols, Hhid.
  pose proof (len_nonneg (keys first)) as Hn.
  pose proof (kept_bounds t (len (keys first)) Hn) as Hk.
  assert (Hlen : length (firstn (Z.to_nat (kept t (len (keys first)))) (keys first))
                 = Z.to_nat (kept t (len (keys first)))).
  { rewrite length_firstn. unfold len in *. lia. }
  split; [| split].
  - rewrite Hlen. apply firstn_skipn.
  - unfold len at 1. rewrite Hlen. lia.
  - unfold kept. destruct (len (keys first) <=? 1) eqn:E.
    + apply Z.leb_le in E. lia.
    + apply Z.leb_gt in E. split.
      * intros H. right.
        assert (Hq : len (keys first) <= (t - 1) / 6) by lia.
        Z.div_mod_to_equations. lia.
      * intros [H | H]; [lia |].
        assert (Hq : len (keys first) <= (t - 1) / 6)
          by (Z.div_mod_to_equations; lia).
        lia.
Qed.

End HidingThreshold.

(** ** A table that fits is drawn whole *)

Section FittingTable.

Context {R : Runtime}.

(** X8. When the natural widths of the visible columns fit the width left
    for them, nothing is cut: [truncate] leaves every visible column
    name and every visible cell as it is. *)
Theorem fitting_table_is_not_truncated (t : Z) (rows displayRows : list row)
    (first : row) (options : TableOptions) :
  zsum (natural (layout t rows displayRows first options))
  <= available (layout t rows displayRows first options) ->
  (forall i,
      (i < length (columns (layout t rows displayRows first options)))%nat ->
      truncate (nth i (columns (layout t rows displayRows first options)) [])
        (at_ (visibleColWidths (layout t rows displayRows first options)) i)
      = nth i (columns (layout t rows displayRows first options)) [])
  /\ (forall r i,
         In r (visibleFormattedRows (layout t rows displayRows first options)) ->
         (i < length r)%nat ->
         truncate (nth i r [])
           (at_ (visibleColWidths (layout t rows displayRows first options)) i)
         = nth i r []).
Proof.
  intros Hfit.
  set (L := layout t rows displayRows first options) in *.
  assert (Hvac : zsum (natural L) > available L ->
                 Exists (fun n => n <> 0) (natural L)) by (intros H; lia).
  destruct (layout_widths t rows displayRows first options Hvac)
    as (zs & zs' & _ & Hfinal & Hlen & Hlen' & Hfloor & Hle & _).
  fold L in Hfinal, Hlen, Hfloor.
  replace (zsum (natural L) >? available L) with false in Hfloor
    by (symmetry; rewrite Z.gtb_ltb; apply Z.ltb_ge; exact Hfit).
  destruct (layout_natural t rows displayRows first options) as [Hcols Hrows].
  fold L in Hcols, Hrows.
  assert (Hcell : forall (texts : list jsstring) i,
             Forall2 (fun text w => width text <= w) texts (natural L) ->
             (i < length texts)%nat ->
             truncate (nth i texts []) (at_ (visibleColWidths L) i) = nth i texts []).
  { intros texts i Hbound Hi.
    pose proof (Forall2_length_eq _ _ _ Hbound) as Hl.
    pose proof (Forall2_nth _ _ _ i [] 0 Hbound Hi) as H1.
    pose proof (Forall2_nth _ _ _ i 0 0 Hfloor ltac:(lia)) as H2.
    pose proof (Forall2_nth _ _ _ i 0 0 Hle ltac:(lia)) as H3.
    cbv beta iota in H1, H2, H3.
    rewrite Hfinal, at_fin by lia.
    apply truncate_fits.
    exact (Z.le_trans _ _ _ (Z.le_trans _ _ _ H1 H2) H3). }
  split.
  - intros i Hi. apply Hcell; [exact Hcols | exact Hi].
  - intros r i Hr Hi. apply Hcell; [apply Hrows; exact Hr | exact Hi].
Qed.

End FittingTable.

(** ** A row takes one line *)

Section NoLineFeed.

Context {R : Runtime}.

Lemma clean_iff (s : jsstring) : ~ In 10%N s <-> Forall (fun c => c <> 10%N) s.
Proof.
  rewrite Forall_forall. split.
  - intros H c Hc ->. exact (H Hc).
  - intros H Hin. exact (H _ Hin eq_refl).
Qed.

Lemma Forall_slice {A : Type} (Q : A -> Prop) (l : list A) (from to : Z) :
  Forall Q l -> Forall Q (slice l from to).
Proof.
  intros H. unfold slice.
  set (a := Z.to_nat (rel_index (len l) from)).
  set (k := Z.to_nat (rel_index (len l) to - rel_index (len l) from)).
  assert (Hs : Forall Q (skipn a l)).
  { rewrite <- (firstn_skipn a l) in H. apply Forall_app in H. tauto. }
  rewrite <- (firstn_skipn k (skipn a l)) in Hs. apply Forall_app in Hs. tauto.
Qed.

Lemma dim_clean : Forall (fun c => c <> 10%N) dim.
Proof.
  unfold dim. destruct enableANSIColors; repeat constructor; discriminate.
Qed.

Lemma reset_clean : Forall (fun c => c <> 10%N) reset.
Proof.
  unfold reset. destruct enableANSIColors; repeat constructor; discriminate.
Qed.

Lemma truncate_clean (str : jsstring) (maxWidth : num) :
  Forall (fun c => c <> 10%N) str ->
  Forall (fun c => c <> 10%N) (truncate str maxWidth).
Proof.
  intros H. unfold truncate.
  destruct (nleb (Fin (width str)) maxWidth); [exact H |].
  unfold ellipsized.
  assert (He : Forall (fun c => c <> 10%N)
                 (slice str 0 (truncate_loop (length str) str maxWidth 0 (len str))
                    ++ ELLIPSIS)).
  { apply Forall_app. split; [apply Forall_slice; exact H |].
    repeat constructor; discriminate. }
  destruct enableANSIColors; [| exact He].
  apply Forall_app. split; [exact He | repeat constructor; discriminate].
Qed.

Lemma str_repeat_clean (s r : jsstring) (w : num) :
  Forall (fun c => c <> 10%N) s ->
  str_repeat s w = inr r -> Forall (fun c => c <> 10%N) r.
Proof.
  intros Hs. unfold str_repeat. destruct w as [z |].
  - destruct (z <? 0); [discriminate |]. intros H. apply inr_eq in H. subst r.
    induction (Z.to_nat z) as [| k IH]; [constructor |].
    cbn [repeat concat]. apply Forall_app. split; assumption.
  - intros H. apply inr_eq in H. subst r. constructor.
Qed.

Lemma cell_clean (numeric : list bool) (ws : list num) (text : jsstring)
    (i : nat) (c : jsstring) :
  Forall (fun c => c <> 10%N) text ->
  cell numeric ws text i = inr c -> Forall (fun c => c <> 10%N) c.
Proof.
  intros Htext. unfold cell, padLeft, padRight.
  pose proof (truncate_clean text (at_ ws i) Htext) as Ht.
  set (tr := truncate text (at_ ws i)) in *.
  destruct (nth i numeric false).
  - destruct (ngeb (Fin (width tr)) (at_ ws i)).
    + intros H. apply inr_eq in H. subst c. exact Ht.
    + destruct (str_repeat SPACE (nsub (at_ ws i) (Fin (width tr))))
        as [e | pad] eqn:Epad; cbn [rbind]; [discriminate |].
      intros H. apply inr_eq in H. subst c.
      apply Forall_app. split; [| exact Ht].
      apply (str_repeat_clean SPACE pad _ ltac:(repeat constructor; discriminate) Epad).
  - destruct (ngeb (Fin (width tr)) (at_ ws i)).
    + intros H. apply inr_eq in H. subst c. exact Ht.
    + destruct (str_repeat SPACE (nsub (at_ ws i) (Fin (width tr))))
        as [e | pad] eqn:Epad; cbn [rbind]; [discriminate |].
      intros H. apply inr_eq in H. subst c.
      apply Forall_app. split; [exact Ht |].
      apply (str_repeat_clean SPACE pad _ ltac:(repeat constructor; discriminate) Epad).
Qed.

Lemma Forall2_left {A B : Type} (P : A -> Prop) (xs : list A) (ys : list B) :
  Forall2 (fun x _ => P x) xs ys -> Forall P xs.
Proof. induction 1; constructor; assumption. Qed.

Lemma row_line_clean (cells : list jsstring) :
  Forall (Forall (fun c => c <> 10%N)) cells ->
  Forall (fun c => c <> 10%N) (row_line cells).
Proof.
  intros Hcells. unfold row_line, separator.
  assert (Hv : Forall (fun c => c <> 10%N) BOX.vertical)
    by (repeat constructor; discriminate).
  assert (Hsp : Forall (fun c => c <> 10%N) SPACE)
    by (repeat constructor; discriminate).
  pose proof dim_clean as Hd. pose proof reset_clean as Hr.
  repeat (apply Forall_app; split); try assumption.
  apply join_pieces; [| exact Hcells].
  repeat (apply Forall_app; split); assumption.
Qed.

(** X9. The line drawn for a row outside full-content mode holds no line
    feed, whatever the cells hold: a row of the data takes one line
    of the terminal. (The names of the columns are not escaped, and a
    line feed in one of them breaks the header.) *)
Theorem data_line_has_no_line_feed (t : Z) (rows displayRows : list row)
    (first : row) (options : TableOptions) (r : list jsstring)
    (line : jsstring) :
  In r (visibleFormattedRows (layout t rows displayRows first options)) ->
  data_line (layout t rows displayRows first options) r = inr line ->
  ~ In 10%N line.
Proof.
  intros Hr Hline. apply clean_iff.
  pose proof (visible_rows_clean t rows displayRows first options r Hr) as Hclean.
  unfold data_line in Hline.
  destruct (rmapi _ r) as [e | cells] eqn:Ecells; cbn [rbind] in Hline;
    [discriminate |].
  apply inr_eq in Hline. subst line.
  apply row_line_clean.
  apply (Forall2_left _ cells r).
  apply (rmapi_inr _ (fun (c : jsstring) (_ : jsstring) =>
                        Forall (fun u => u <> 10%N) c) [] r r cells Ecells eq_refl).
  intros i text c Hi Hc.
  refine (cell_clean _ _ text i c _ Hc).
  apply clean_iff. rewrite Forall_forall in Hclean. apply Hclean.
  apply (nth_error_In _ _ Hi).
Qed.

End NoLineFeed.

Lemma fitting_table_is_not_truncated_witness :
  (forall i,
      (i < length (columns (@layout (plain 80) 80 [alice; bob] [alice; bob] alice
                              defaultOptions)))%nat ->
      @truncate (plain 80)
        (nth i (columns (@layout (plain 80) 80 [alice; bob] [alice; bob] alice
                           defaultOptions)) [])
        (@at_ (visibleColWidths (@layout (plain 80) 80 [alice; bob] [alice; bob]
                                   alice defaultOptions)) i)
      = nth i (columns (@layout (plain 80) 80 [alice; bob] [alice; bob] alice
                          defaultOptions)) [])
  /\ (forall r i,
         In r (visibleFormattedRows (@layout (plain 80) 80 [alice; bob] [alice; bob]
                                       alice defaultOptions)) ->
         (i < length r)%nat ->
         @truncate (plain 80) (nth i r [])
           (@at_ (visibleColWidths (@layout (plain 80) 80 [alice; bob] [alice; bob]
                                      alice defaultOptions)) i)
         = nth i r []).
Proof.
  apply (@fitting_table_is_not_truncated (plain 80) 80 [alice; bob] [alice; bob]
           alice defaultOptions).
  vm_compute. intros H. discriminate H.
Defined.

Lemma data_line_has_no_line_feed_witness :
  ~ In 10%N (nth 3 (emitted (render 80 [alice] defaultOptions)) []).
Proof.
  apply (@data_line_has_no_line_feed (plain 80) 80 [alice] [alice] alice
           defaultOptions (@formatRow (plain 80) (keys alice) alice)).
  - vm_compute. left. reflexivity.
  - vm_compute. reflexivity.
Defined.

(** ** The lines of a table *)

Section TableLines.

Context {R : Runtime}.

Lemma starts_with_prefix (n b : jsstring) : starts_with n (n ++ b) = true.
Proof.
  induction n as [| x n IH]; [reflexivity |].
  cbn [app starts_with]. rewrite N.eqb_refl, IH. reflexivity.
Qed.

Lemma includes_prefix (n b : jsstring) : includes n (n ++ b) = true.
Proof.
  destruct (n ++ b) eqn:E; cbn [includes]; rewrite <- E, starts_with_prefix;
    reflexivity.
Qed.

Lemma includes_app_r (n a h : jsstring) :
  includes n h = true -> includes n (a ++ h) = true.
Proof.
  intros H. induction a as [| x a IH]; [exact H |].
  cbn [app includes]. rewrite IH. apply orb_true_r.
Qed.

Lemma footer_bar_repeatable (rows : list row) (options : TableOptions) :
  2 <= getTerminalWidth ->
  repeatable (nadd (innerWidth (layout_of rows options)) (Fin 2)).
Proof.
  intros Ht. unfold layout_of.
  destruct (layout_fields getTerminalWidth rows (displayRows_of rows options)
              (hd [] (displayRows_of rows options)) options)
    as (_ & _ & _ & _ & _ & _ & _ & _ & _ & Hinner & _).
  rewrite Hinner.
  pose proof (titleWidth_nonneg (title options)) as Htw.
  destruct (contentWidth _) as [cw |]; simpl; [lia | exact I].
Qed.

Lemma draw_returns (L : Layout) (options : TableOptions) :
  Forall repeatable (visibleColWidths L) ->
  repeatable (nadd (innerWidth L) (Fin 2)) ->
  outcome (draw L options) = inr tt.
Proof.
  intros Hws Hbar.
  destruct (draw_structure L options Hws)
    as (top & header & sep & rowLines & _ & Hout & _).
  rewrite Hout.
  destruct (info L) as [| c text] eqn:Einfo.
  - unfold draw_footer. rewrite Einfo.
    destruct (cross_line_total BOX.bottomLeft BOX.bottomCross BOX.bottomRight
                (visibleColWidths L) Hws) as (line & Hline).
    rewrite Hline. reflexivity.
  - destruct (draw_footer_trailer L ltac:(rewrite Einfo; discriminate))
      as (infoLine & rest & _ & _ & Hrest).
    destruct (Hrest Hbar) as (bottom & _ & Hret). exact Hret.
Qed.

Lemma draw_line_count (L : Layout) (options : TableOptions) :
  Forall repeatable (visibleColWidths L) ->
  repeatable (nadd (innerWidth L) (Fin 2)) ->
  fullContent options <> Some true ->
  length (emitted (draw L options))
  = (length (visibleFormattedRows L) + 4
     + match info L with
       | [] => 0
       | _ :: _ => 1
       end)%nat.
Proof.
  intros Hws Hbar Hfull.
  destruct (draw_structure L options Hws)
    as (top & header & sep & rowLines & Hemit & _ & Hlines).
  rewrite Hemit. cbn [length]. rewrite length_app.
  pose proof (Forall2_length_eq _ _ _ (Hlines Hfull)) as Hlen.
  rewrite <- Hlen.
  destruct (info L) as [| c text] eqn:Einfo.
  - unfold draw_footer. rewrite Einfo.
    destruct (cross_line_total BOX.bottomLeft BOX.bottomCross BOX.bottomRight
                (visibleColWidths L) Hws) as (line & Hline).
    rewrite Hline. cbn [lift bind console_log emitted fst app length]. lia.
  - destruct (draw_footer_trailer L ltac:(rewrite Einfo; discriminate))
      as (infoLine & rest & _ & Hfooter & Hrest).
    destruct (Hrest Hbar) as (bottom & -> & _).
    rewrite Hfooter. cbn [length]. lia.
Qed.

(** X10. Outside full-content mode, on a terminal of two columns or more,
    a table with a row to draw takes one line for each row drawn and
    four for the frame and the header, and one more when there is a
    trailer. *)
Theorem printTable_line_count (rows : list row) (options : TableOptions) :
  rows <> [] ->
  displayRows_of rows options <> [] ->
  2 <= getTerminalWidth ->
  fullContent options <> Some true ->
  length (emitted (printTable rows options))
  = (length (displayRows_of rows options) + 4
     + match info (layout_of rows options) with
       | [] => 0
       | _ :: _ => 1
       end)%nat.
Proof.
  intros Hrows Hdisp Ht Hfull.
  rewrite (printTable_draws rows options Hrows Hdisp).
  rewrite (draw_line_count (layout_of rows options) options
             (layout_repeatable _ _ _ _ _) (footer_bar_repeatable rows options Ht)
             Hfull).
  rewrite length_visible_rows. reflexivity.
Qed.

(** X11. The title is drawn whole on the first line, whatever its width:
    whenever [printTable] gets as far as drawing (no rows at all, or a
    row to draw), the first line it writes holds the title. *)
Theorem title_is_drawn_whole (rows : list row) (options : TableOptions)
    (t : jsstring) :
  truthy_title (title options) = Some t ->
  rows = [] \/ displayRows_of rows options <> [] ->
  exists top rest,
    emitted (printTable rows options) = top :: rest /\ includes t top = true.
Proof.
  intros Htitle Hdisp.
  destruct rows as [| first more].
  - cbn [printTable]. unfold print_empty. rewrite Htitle. cbv zeta.
    destruct (str_repeat_total BOX.horizontal
                (Fin (Z.max 0 (Z.max (width (lit "(empty)")) (width t) + 2
                               - width (SPACE ++ t ++ SPACE) - 1))))
      as (bar & Hbar); [simpl; lia |].
    rewrite Hbar. rewrite emitted_bind. cbn [lift emitted outcome fst snd app].
    rewrite emitted_bind. cbn [console_log emitted outcome fst snd app].
    eexists. eexists. split; [reflexivity |].
    rewrite <- !app_assoc.
    do 6 apply includes_app_r. apply includes_prefix.
  - destruct Hdisp as [Hnil | Hdisp]; [discriminate |].
    rewrite (printTable_draws (first :: more) options ltac:(discriminate) Hdisp).
    set (L := layout_of (first :: more) options).
    unfold draw.
    destruct (top_line_total (title options) (visibleColWidths L)
                (layout_repeatable _ _ _ _ _)) as (top & Htop).
    rewrite Htop. rewrite emitted_bind. cbn [lift emitted outcome fst snd app].
    rewrite emitted_bind. cbn [console_log emitted outcome fst snd app].
    exists top. eexists. split; [reflexivity |].
    unfold top_line in Htop.
    destruct (rule BOX.topCross (visibleColWidths L)) as [e | topBorder];
      cbn [rbind] in Htop; [discriminate |].
    rewrite Htitle in Htop. apply inr_eq in Htop. subst top.
    rewrite <- !app_assoc.
    do 5 apply includes_app_r. apply includes_prefix.
Qed.

End TableLines.

Lemma printTable_line_count_witness :
  length (emitted (@printTable (plain 80) (ids 10) (capped 3 None)))
  = (length (@displayRows_of (ids 10) (capped 3 None)) + 4
     + match info (@layout_of (plain 80) (ids 10) (capped 3 None)) with
       | [] => 0
       | _ :: _ => 1
       end)%nat.
Proof.
  apply (@printTable_line_count (plain 80) (ids 10) (capped 3 None)).
  - discriminate.
  - vm_compute. discriminate.
  - vm_compute. intros H. discriminate H.
  - discriminate.
Defined.

Lemma title_is_drawn_whole_witness :
  exists top rest,
    emitted (@printTable (plain 30) [[(lit "x", VNumber 1)]] (titled long_title))
    = top :: rest
    /\ includes (lit long_title) top = true.
Proof.
  apply (@title_is_drawn_whole (plain 30) [[(lit "x", VNumber 1)]]
           (titled long_title) (lit long_title)).
  - vm_compute. reflexivity.
  - right. vm_compute. discriminate.
Defined.

(** ** The natural width of a column *)

Section NaturalWidth.

Context {R : Runtime}.

Lemma nth_firstn_lt {A : Type} (k i : nat) (l : list A) (d : A) :
  (i < k)%nat -> nth i (firstn k l) d = nth i l d.
Proof.
  revert i l. induction k as [| k IH]; intros i l Hi; [lia |].
  destruct l as [| x l]; [destruct i; reflexivity |].
  destruct i as [| i]; [reflexivity |]. cbn [firstn nth]. apply IH. lia.
Qed.

Lemma length_widen (ws : list Z) (r : list jsstring) :
  length r = length ws -> length (widen ws r) = length ws.
Proof.
  intros H. unfold widen. rewrite length_map, length_combine. lia.
Qed.

Lemma widen_nth (ws : list Z) (r : list jsstring) (i : nat) :
  length r = length ws ->
  (i < length ws)%nat ->
  nth i (widen ws r) 0 = Z.max (nth i ws 0) (width (nth i r [])).
Proof.
  intros Hlen Hi. unfold widen.
  rewrite (nth_indep _ 0 ((fun p => Z.max (fst p) (width (snd p))) (0, [])))
    by (rewrite length_map, length_combine; lia).
  rewrite (map_nth (fun p => Z.max (fst p) (width (snd p)))).
  rewrite combine_nth by (symmetry; exact Hlen). reflexivity.
Qed.

Lemma widen_fold_attained (formattedRows : list (list jsstring)) :
  forall ws0 i,
    (forall r, In r formattedRows -> length r = length ws0) ->
    (i < length ws0)%nat ->
    nth i (fold_left widen formattedRows ws0) 0 = nth i ws0 0
    \/ exists r, In r formattedRows
                 /\ nth i (fold_left widen formattedRows ws0) 0
                    = width (nth i r []).
Proof.
  induction formattedRows as [| r0 formattedRows IH]; intros ws0 i Hlen Hi;
    cbn [fold_left]; [left; reflexivity |].
  pose proof (Hlen r0 (or_introl eq_refl)) as H0.
  destruct (IH (widen ws0 r0) i) as [Hsame | (r & Hr & Hat)].
  - intros r Hr. rewrite length_widen by exact H0. apply Hlen. right. exact Hr.
  - rewrite length_widen by exact H0. exact Hi.
  - rewrite Hsame, widen_nth by assumption.
    destruct (Z.max_spec (nth i ws0 0) (width (nth i r0 []))) as [[_ ->] | [_ ->]].
    + right. exists r0. split; [left; reflexivity | reflexivity].
    + left. reflexivity.
  - right. exists r. split; [right; exact Hr | exact Hat].
Qed.

(** X12. The natural width of a visible column is the width of the widest
    of its name and its cells in the rows that are drawn: it is at
    least each of these widths, and it is one of them. *)
Theorem natural_width_is_widest_content (t : Z) (rows displayRows : list row)
    (first : row) (options : TableOptions) (i : nat) :
  (i < length (columns (layout t rows displayRows first options)))%nat ->
  width (nth i (columns (layout t rows displayRows first options)) [])
  <= nth i (natural (layout t rows displayRows first options)) 0
  /\ (forall r,
         In r (visibleFormattedRows (layout t rows displayRows first options)) ->
         width (nth i r [])
         <= nth i (natural (layout t rows displayRows first options)) 0)
  /\ (nth i (natural (layout t rows displayRows first options)) 0
      = width (nth i (columns (layout t rows displayRows first options)) [])
      \/ exists r,
           In r (visibleFormattedRows (layout t rows displayRows first options))
           /\ nth i (natural (layout t rows displayRows first options)) 0
              = width (nth i r [])).
Proof.
  intros Hi.
  destruct (layout_natural t rows displayRows first options) as [Hcols Hrows].
  destruct (layout_fields t rows displayRows first options)
    as (Hc & _ & _ & Hn & Hv & _).
  cbv zeta in Hcols, Hrows, Hc, Hn, Hv.
  set (L := layout t rows displayRows first options) in *.
  set (k := Z.to_nat (kept t (len (keys first)))) in *.
  split; [| split].
  - exact (Forall2_nth _ _ _ i [] 0 Hcols Hi).
  - intros r Hr.
    pose proof (Hrows r Hr) as Hbound.
    destruct (Nat.lt_ge_cases i (length r)) as [Hlt | Hge].
    + exact (Forall2_nth _ _ _ i [] 0 Hbound Hlt).
    + pose proof (Forall2_length_eq _ _ _ Hbound) as H1.
      pose proof (Forall2_length_eq _ _ _ Hcols) as H2. lia.
  - assert (Hik : (i < k)%nat /\ (i < length (keys first))%nat).
    { rewrite Hc, length_firstn in Hi. lia. }
    destruct Hik as [Hik Hin].
    rewrite Hn, Hc, Hv, !nth_firstn_lt by exact Hik.
    unfold naturalWidths.
    destruct (widen_fold_attained
                (map (formatRow (keys first)) displayRows)
                (map width (keys first)) i) as [Hsame | (r & Hr & Hat)].
    + intros r Hr. apply in_map_iff in Hr. destruct Hr as (x & <- & _).
      rewrite length_formatRow, length_map. reflexivity.
    + rewrite length_map. exact Hin.
    + left. rewrite Hsame.
      rewrite (nth_indep _ 0 (width [])) by (rewrite length_map; exact Hin).
      apply (map_nth width).
    + right. exists (firstn k r). split.
      * apply in_map. exact Hr.
      * rewrite nth_firstn_lt by exact Hik. exact Hat.
Qed.

End NaturalWidth.

Lemma natural_width_is_widest_content_witness :
  @width (plain 80)
    (nth 1 (columns (@layout (plain 80) 80 [alice; bob] [alice; bob] alice
                       defaultOptions)) [])
  <= nth 1 (natural (@layout (plain 80) 80 [alice; bob] [alice; bob] alice
                       defaultOptions)) 0
  /\ (forall r,
         In r (visibleFormattedRows (@layout (plain 80) 80 [alice; bob] [alice; bob]
                                       alice defaultOptions)) ->
         @width (plain 80) (nth 1 r [])
         <= nth 1 (natural (@layout (plain 80) 80 [alice; bob] [alice; bob] alice
                              defaultOptions)) 0)
  /\ (nth 1 (natural (@layout (plain 80) 80 [alice; bob] [alice; bob] alice
                        defaultOptions)) 0
      = @width (plain 80)
          (nth 1 (columns (@layout (plain 80) 80 [alice; bob] [alice; bob] alice
                             defaultOptions)) [])
      \/ exists r,
           In r (visibleFormattedRows (@layout (plain 80) 80 [alice; bob]
                                         [alice; bob] alice defaultOptions))
           /\ nth 1 (natural (@layout (plain 80) 80 [alice; bob] [alice; bob] alice
                                defaultOptions)) 0
              = @width (plain 80) (nth 1 r [])).
Proof.
  apply (@natural_width_is_widest_content (plain 80) 80 [alice; bob] [alice; bob]
           alice defaultOptions 1).
  vm_compute. lia.
Defined.

(** ** The lines of a table in full-content mode *)

Section FullContentLines.

Context {R : Runtime}.

Lemma draw_lines (L : Layout) (options : TableOptions) :
  Forall repeatable (visibleColWidths L) ->
  exists top header headerSep,
    emitted (draw L options)
    = top :: header :: headerSep
        :: emitted (draw_rows L options) ++ emitted (draw_footer L).
Proof.
  intros Hws. unfold draw.
  destruct (top_line_total (title options) _ Hws) as (top & Htop).
  destruct (header_line_total L) as (header & Hheader).
  destruct (cross_line_total BOX.headerLeft BOX.headerCross BOX.headerRight _ Hws)
    as (sep & Hsep).
  destruct (draw_rows_total L options Hws) as (rowLines & Hrows & _).
  exists top, header, sep.
  rewrite Htop, Hheader, Hsep, Hrows.
  destruct (draw_footer L) as [out r]. reflexivity.
Qed.

Lemma for_each_count {A : Type} (f : A -> io unit) (n : A -> nat)
    (xs : list A) :
  (forall x, In x xs -> exists lines, f x = (lines, inr tt) /\ length lines = n x) ->
  exists lines,
    for_each f xs = (lines, inr tt) /\ length lines = list_sum (map n xs).
Proof.
  induction xs as [| x xs IH]; intros H; [exists []; split; reflexivity |].
  destruct (H x (or_introl eq_refl)) as (l1 & H1 & N1).
  destruct (IH (fun y Hy => H y (or_intror Hy))) as (l2 & H2 & N2).
  cbn [for_each]. rewrite H1.
  unfold bind. rewrite H2. exists (l1 ++ l2). split; [reflexivity |].
  rewrite length_app, N1, N2. reflexivity.
Qed.

Lemma draw_wrapped_row_count (L : Layout) (rowIdx : nat) (r : list jsstring) :
  Forall repeatable (visibleColWidths L) ->
  exists lines,
    draw_wrapped_row L (rowIdx, r) = (lines, inr tt)
    /\ length lines
       = (row_lines L r
          + if (Z.of_nat rowIdx <? len (visibleFormattedRows L) - 1)%Z
            then 1 else 0)%nat.
Proof.
  intros Hws. unfold draw_wrapped_row, row_lines.
  set (wrapped := mapi _ r).
  destruct (for_each_lines (wrapped_line L wrapped) (seq 0 (rowHeight wrapped)))
    as (lines & Heq & Hall); [intros; apply wrapped_line_total |].
  pose proof (Forall2_length_eq _ _ _ Hall) as Hlen. rewrite length_seq in Hlen.
  rewrite Heq.
  destruct (Z.of_nat rowIdx <? len (visibleFormattedRows L) - 1).
  - destruct (cross_line_total BOX.headerLeft BOX.headerCross BOX.headerRight
                (visibleColWidths L) Hws) as (sep & Hsep).
    rewrite Hsep. exists (lines ++ [sep]). split.
    + unfold bind, lift, console_log. rewrite app_nil_l. reflexivity.
    + rewrite length_app. cbn [length]. lia.
  - exists lines. split.
    + unfold bind, ret. rewrite app_nil_r. reflexivity.
    + lia.
Qed.

Lemma list_sum_head (a : nat) (l : list nat) :
  list_sum (a :: l) = (a + list_sum l)%nat.
Proof. reflexivity. Qed.

Lemma separators_count {A : Type} (h : A -> nat) (xs : list A) :
  forall s N,
    N = (s + length xs)%nat ->
    list_sum (map (fun p : nat * A =>
                     (h (snd p)
                      + if (Z.of_nat (fst p) <? Z.of_nat N - 1)%Z
                        then 1 else 0)%nat)
                (combine (seq s (length xs)) xs))
    = (list_sum (map h xs) + (length xs - 1))%nat.
Proof.
  induction xs as [| x xs IH]; intros s N HN; [reflexivity |].
  cbn [length seq combine map] in *. rewrite !list_sum_head.
  cbn [fst snd]. rewrite (IH (S s) N) by lia.
  destruct (Z.of_nat s <? Z.of_nat N - 1) eqn:E;
    [apply Z.ltb_lt in E | apply Z.ltb_ge in E]; lia.
Qed.

(** X13. In full-content mode, on a terminal of two columns or more, a
    table with a row to draw takes, besides the four lines of the frame
    and the header and the line of the trailer when there is one, as
    many lines for each row as its tallest wrapped cell has, and one
    rule between two rows. A row with a cell takes at least one
    line. *)
Theorem full_content_line_count (rows : list row) (options : TableOptions) :
  rows <> [] ->
  displayRows_of rows options <> [] ->
  2 <= getTerminalWidth ->
  fullContent options = Some true ->
  length (emitted (printTable rows options))
  = (list_sum (map (row_lines (layout_of rows options))
                 (visibleFormattedRows (layout_of rows options)))
     + (length (displayRows_of rows options) - 1) + 4
     + match info (layout_of rows options) with
       | [] => 0
       | _ :: _ => 1
       end)%nat
  /\ (forall r, In r (visibleFormattedRows (layout_of rows options)) ->
                r <> [] -> (1 <= row_lines (layout_of rows options) r)%nat).
Proof.
  intros Hrows Hdisp Ht Hfull. split.
  - rewrite (printTable_draws rows options Hrows Hdisp).
    set (L := layout_of rows options).
    assert (Hws : Forall repeatable (visibleColWidths L))
      by apply layout_repeatable.
    destruct (draw_lines L options Hws) as (top & header & sep & Hemit).
    rewrite Hemit. cbn [length]. rewrite length_app.
    assert (Hrowlines : length (emitted (draw_rows L options))
                        = (list_sum (map (row_lines L) (visibleFormattedRows L))
                           + (length (visibleFormattedRows L) - 1))%nat).
    { unfold draw_rows. rewrite Hfull.
      destruct (for_each_count (draw_wrapped_row L)
                  (fun p : nat * list jsstring =>
                     (row_lines L (snd p)
                      + if (Z.of_nat (fst p)
                            <? Z.of_nat (length (visibleFormattedRows L)) - 1)%Z
                        then 1 else 0)%nat)
                  (combine (seq 0 (length (visibleFormattedRows L)))
                     (visibleFormattedRows L))) as (lines & Heq & Hcount).
      { intros [rowIdx r] _. apply draw_wrapped_row_count. exact Hws. }
      rewrite Heq. cbn [emitted fst]. rewrite Hcount.
      apply separators_count. reflexivity. }
    pose proof (length_visible_rows rows options) as Hvis. fold L in Hvis.
    rewrite Hrowlines, Hvis.
    assert (Hfooter : length (emitted (draw_footer L))
                      = match info L with [] => 1%nat | _ :: _ => 2%nat end).
    { destruct (info L) as [| c text] eqn:Einfo.
      - unfold draw_footer. rewrite Einfo.
        destruct (cross_line_total BOX.bottomLeft BOX.bottomCross BOX.bottomRight
                    (visibleColWidths L) Hws) as (line & Hline).
        rewrite Hline. reflexivity.
      - destruct (draw_footer_trailer L ltac:(rewrite Einfo; discriminate))
          as (infoLine & rest & _ & Hfooter & Hrest).
        destruct (Hrest (footer_bar_repeatable rows options Ht))
          as (bottom & -> & _).
        rewrite Hfooter. reflexivity. }
    rewrite Hfooter. destruct (info L); lia.
  - intros r Hr Hne. unfold row_lines.
    destruct r as [| val r']; [contradiction |].
    unfold mapi. cbn [length seq combine map rowHeight fold_right fst snd].
    pose proof (wrapLines_nonempty val
                  (at_ (visibleColWidths (layout_of rows options)) 0)) as Hw.
    destruct (wrapLines val (at_ (visibleColWidths (layout_of rows options)) 0))
      as [| l ls]; [contradiction |].
    cbn [length]. lia.
Qed.

End FullContentLines.

Lemma full_content_line_count_witness :
  length (emitted (@printTable (plain 20) [alice; bob]
                     (mkOptions None None None (Some true))))
  = (list_sum (map (@row_lines (plain 20)
                      (@layout_of (plain 20) [alice; bob]
                         (mkOptions None None None (Some true))))
                 (visibleFormattedRows
                    (@layout_of (plain 20) [alice; bob]
                       (mkOptions None None None (Some true)))))
     + (length (@displayRows_of [alice; bob] (mkOptions None None None (Some true)))
        - 1) + 4
     + match info (@layout_of (plain 20) [alice; bob]
                     (mkOptions None None None (Some true))) with
       | [] => 0
       | _ :: _ => 1
       end)%nat
  /\ (forall r,
         In r (visibleFormattedRows
                 (@layout_of (plain 20) [alice; bob]
                    (mkOptions None None None (Some true)))) ->
         r <> [] ->
         (1 <= @row_lines (plain 20)
                 (@layout_of (plain 20) [alice; bob]
                    (mkOptions None None None (Some true))) r)%nat).
Proof.
  apply (@full_content_line_count (plain 20) [alice; bob]
           (mkOptions None None None (Some true))).
  - discriminate.
  - vm_compute. discriminate.
  - vm_compute. intros H. discriminate H.
  - reflexivity.
Defined.

(** ** The table is a rectangle *)

(** *** Printable texts *)

Lemma printable_plain (s : jsstring) : Forall printable s -> plain_text s.
Proof.
  unfold plain_text, ESC. intros H Hin. rewrite Forall_forall in H.
  specialize (H _ Hin). unfold printable in H. lia.
Qed.

Lemma printable_clean (s : jsstring) : Forall printable s -> ~ In 10%N s.
Proof.
  intros H Hin. rewrite Forall_forall in H.
  specialize (H _ Hin). unfold printable in H. lia.
Qed.

Lemma ascii_units_printable (bs : list N) :
  Forall printable bs -> Forall printable (flat_map utf16_units (utf8_points bs)).
Proof.
  induction 1 as [| b bs Hb _ IH]; [constructor |].
  unfold printable in Hb. cbn [utf8_points].
  replace (b <? 128)%N with true by (symmetry; apply N.ltb_lt; lia).
  cbn [flat_map]. unfold utf16_units at 1.
  replace (b <? 65536)%N with true by (symmetry; apply N.ltb_lt; lia).
  constructor; [exact Hb | exact IH].
Qed.

Lemma uint_string_printable (d : Decimal.uint) :
  Forall printable
    (map N_of_ascii (list_ascii_of_string (NilEmpty.string_of_uint d))).
Proof.
  induction d; cbn [NilEmpty.string_of_uint list_ascii_of_string map];
    constructor; try exact IHd; unfold printable; vm_compute; split; congruence.
Qed.

Lemma numberToString_printable (z : Z) : Forall printable (numberToString z).
Proof.
  unfold numberToString, lit. apply ascii_units_printable.
  unfold NilZero.string_of_int, NilZero.string_of_uint.
  destruct (Z.to_int z) as [d | d].
  - destruct d; try apply uint_string_printable.
    repeat constructor; vm_compute; congruence.
  - cbn [list_ascii_of_string map].
    constructor; [unfold printable; vm_compute; split; congruence |].
    destruct d; try apply uint_string_printable.
    repeat constructor; vm_compute; congruence.
Qed.

Lemma lit_printable (s : string) :
  Forall printable (map N_of_ascii (list_ascii_of_string s)) ->
  Forall printable (lit s).
Proof. apply ascii_units_printable. Qed.

Lemma infoText_printable (truncated hidden : Z) :
  Forall printable (infoText truncated hidden).
Proof.
  assert (Hlit : forall s, Forall printable (map N_of_ascii (list_ascii_of_string s)) ->
                           Forall printable (lit s)) by exact lit_printable.
  assert (Hplural : forall n, Forall printable (plural n)).
  { intros n. unfold plural. destruct (n >? 1); [| constructor].
    repeat constructor; vm_compute; congruence. }
  assert (Hrow : Forall printable
                   (numberToString truncated ++ lit " more row" ++ plural truncated)).
  { apply Forall_app. split; [apply numberToString_printable |].
    apply Forall_app. split; [| apply Hplural].
    repeat constructor; vm_compute; congruence. }
  assert (Hcol : Forall printable
                   (numberToString hidden ++ lit " more column" ++ plural hidden)).
  { apply Forall_app. split; [apply numberToString_printable |].
    apply Forall_app. split; [| apply Hplural].
    repeat constructor; vm_compute; congruence. }
  assert (Hsep : Forall printable (lit ", "))
    by (repeat constructor; vm_compute; congruence).
  unfold infoText.
  destruct ((truncated >? 0) || (hidden >? 0)); [| constructor].
  apply Forall_app. split; [repeat constructor; vm_compute; congruence |].
  apply join_pieces; [exact Hsep |].
  apply Forall_app.
  split; [destruct (truncated >? 0) | destruct (hidden >? 0)];
    repeat constructor; assumption.
Qed.

(** *** Wrapping a text that fits *)

Lemma whole_concat (parts : list jsstring) :
  Forall whole parts -> whole (concat parts).
Proof.
  induction 1 as [| p parts Hp _ IH]; [reflexivity |].
  cbn [concat]. apply whole_app; assumption.
Qed.

(** The tokens of a whole text are whole: a styling sequence holds no
    space. *)
Lemma split_text_whole (s : jsstring) :
  (forall cur st, esc_run Ground cur = Some st -> esc_run st s = Some Ground ->
                  Forall whole (split_text cur s))
  /\ (forall cur, whole cur -> whole s -> Forall whole (split_spaces cur s)).
Proof.
  induction s as [| x s [IHt IHs]].
  - split.
    + intros cur st Hcur Hs. cbn [esc_run] in Hs. injection Hs as ->.
      cbn [split_text]. constructor; [exact Hcur | constructor].
    + intros cur Hcur _. cbn [split_spaces].
      constructor; [exact Hcur |]. constructor; [reflexivity | constructor].
  - split.
    + intros cur st Hcur Hs. cbn [split_text]. cbn [esc_run] in Hs.
      destruct (N.eqb_spec x 32) as [-> | Hx].
      * destruct st; cbn in Hs; try discriminate Hs.
        constructor; [exact Hcur |]. apply IHs; [reflexivity | exact Hs].
      * destruct (esc_step st x) as [st' |] eqn:Estep; [| discriminate Hs].
        apply (IHt (cur ++ [x]) st'); [| exact Hs].
        rewrite esc_run_app, Hcur. cbn [esc_run]. rewrite Estep. reflexivity.
    + intros cur Hcur Hs. cbn [split_spaces]. unfold whole in Hs.
      cbn [esc_run esc_step] in Hs.
      destruct (N.eqb_spec x 32) as [-> | Hx].
      * apply IHs; [apply whole_app; [exact Hcur | reflexivity] | exact Hs].
      * constructor; [exact Hcur |].
        apply (IHt [x] (if (x =? ESC)%N then Escaped else Ground));
          [reflexivity | exact Hs].
Qed.

(** The code units of a wrapped line are code units of the text. *)
Lemma wrapLines_units {R : Runtime} (text : jsstring) (w : num)
    (line : jsstring) (c : codeunit) :
  ~ In 10%N text -> In line (wrapLines text w) -> In c line -> In c text.
Proof.
  intros Hclean Hline Hc.
  destruct (wrapLines_cases text w) as [[_ Hw] | [_ Hkeep]].
  - rewrite Hw in Hline. destruct Hline as [<- | []]. destruct Hc.
  - rewrite split_on_absent in Hkeep by exact Hclean. cbn [app join] in Hkeep.
    rewrite <- Hkeep. apply in_concat. exists line. split; assumption.
Qed.

Section WrapFitting.

Context {R : Runtime}.
Hypothesis Hadd : additive_widths R.

Lemma fragment_loop_roomy (w : Z) (fuel : nat) (lines : list jsstring)
    (current fragment : jsstring) :
  whole current -> whole fragment -> width current + width fragment <= w ->
  fst (fragment_loop (S fuel) (Fin w) lines current fragment)
  = (lines, current ++ fragment).
Proof.
  intros Hc Hf Hw. cbn [fragment_loop].
  destruct (len fragment >? 0) eqn:Elen.
  - cbn [ngtb]. rewrite (width_app Hadd) by assumption.
    replace (width current + width fragment >? w) with false
      by (symmetry; rewrite Z.gtb_ltb; apply Z.ltb_ge; exact Hw).
    destruct fuel as [| fuel]; reflexivity.
  - assert (fragment = []).
    { apply len_nil_iff. pose proof (len_nonneg fragment).
      rewrite Z.gtb_ltb in Elen. apply Z.ltb_ge in Elen. lia. }
    subst fragment. rewrite app_nil_r. reflexivity.
Qed.

Lemma wrap_fold_roomy (w : Z) (tokens : list jsstring) :
  Forall whole tokens ->
  forall lines current,
    Forall (fun l => whole l /\ width l <= w) lines -> whole current ->
    width current + width (concat tokens) <= w ->
    Forall (fun l => whole l /\ width l <= w)
      (fst (fold_left (wrap_token (Fin w)) tokens (lines, current)))
    /\ whole (snd (fold_left (wrap_token (Fin w)) tokens (lines, current)))
    /\ width (snd (fold_left (wrap_token (Fin w)) tokens (lines, current))) <= w.
Proof.
  induction 1 as [| token tokens Ht Hrest IH]; intros lines current Hl Hc Hw.
  - cbn [fold_left fst snd]. cbn [concat] in Hw. rewrite (width_nil Hadd) in Hw.
    repeat split; [exact Hl | exact Hc | lia].
  - cbn [fold_left]. cbn [concat] in Hw.
    pose proof (whole_concat tokens Hrest) as Hwc.
    rewrite (width_app Hadd) in Hw by assumption.
    pose proof (width_nonneg (concat tokens)) as Hn1.
    pose proof (width_nonneg current) as Hn2.
    pose proof (width_nonneg token) as Hn3.
    assert (Hct : whole (current ++ token)) by (apply whole_app; assumption).
    assert (Hwct : width (current ++ token) = width current + width token)
      by (apply (width_app Hadd); assumption).
    assert (Htok : wrap_token (Fin w) (lines, current) token
                   = if ngeb (Fin (width (current ++ token))) (Fin w)
                     then (lines ++ [current ++ token], [])
                     else (lines, current ++ token)).
    { unfold wrap_token.
      pose proof (fragment_loop_roomy w (2 * length token) lines current token
                    Hc Ht ltac:(lia)) as Hloop.
      replace (S (2 * length token)) with (2 * length token + 1)%nat in Hloop by lia.
      destruct (fragment_loop (2 * length token + 1) (Fin w) lines current token)
        as [[lines1 current1] rest].
      cbn [fst] in Hloop. injection Hloop as -> ->. reflexivity. }
    rewrite Htok.
    destruct (ngeb (Fin (width (current ++ token))) (Fin w)).
    + apply IH; [| reflexivity | rewrite (width_nil Hadd); lia].
      apply Forall_app. split; [exact Hl |].
      constructor; [split; [exact Hct | lia] | constructor].
    + apply IH; [exact Hl | exact Hct | lia].
Qed.

(** A whole text that fits the width is wrapped into whole lines that
    fit the width: it is cut at spaces only. *)
Lemma wrapLines_roomy (text : jsstring) (w : Z) :
  whole text -> ~ In 10%N text -> width text <= w ->
  Forall (fun l => whole l /\ width l <= w) (wrapLines text (Fin w)).
Proof.
  intros Hwhole Hclean Hw. unfold wrapLines.
  rewrite split_on_absent by exact Hclean. cbn [app join].
  destruct text as [| c text'].
  - constructor; [split; [reflexivity | exact Hw] | constructor].
  - destruct (split_text_whole (c :: text')) as [Htokens _].
    specialize (Htokens [] Ground eq_refl Hwhole).
    destruct (split_text_concat (c :: text')) as [Hcat _].
    specialize (Hcat []). cbn [app] in Hcat.
    destruct (wrap_fold_roomy w (split_text [] (c :: text')) Htokens [] []
                ltac:(constructor) whole_nil)
      as (H1 & H2 & H3).
    { rewrite Hcat, (width_nil Hadd). lia. }
    revert H1 H2 H3.
    destruct (fold_left _ _ _) as [lines current]. cbn [fst snd].
    intros H1 H2 H3.
    destruct (len current >? 0); [| exact H1].
    apply Forall_app. split; [exact H1 |].
    constructor; [split; assumption | constructor].
Qed.

End WrapFitting.

(** *** The lines of [draw] *)

(** A property of every line of [draw], from the same property of each
    kind of line. *)
Lemma draw_all {R : Runtime} (P : jsstring -> Prop) (L : Layout)
    (options : TableOptions) :
  (forall line, top_line (title options) (visibleColWidths L) = inr line -> P line) ->
  (forall line, header_line L = inr line -> P line) ->
  (forall line,
      cross_line BOX.headerLeft BOX.headerCross BOX.headerRight (visibleColWidths L)
      = inr line -> P line) ->
  (forall r line, In r (visibleFormattedRows L) -> data_line L r = inr line -> P line) ->
  (forall r lineIdx line,
      In r (visibleFormattedRows L) ->
      wrapped_line L (mapi (fun val i => wrapLines val (at_ (visibleColWidths L) i)) r)
        lineIdx = inr line -> P line) ->
  Forall P (emitted (draw_footer L)) ->
  Forall P (emitted (draw L options)).
Proof.
  intros Htop Hheader Hsep Hdata Hwrapped Hfooter. unfold draw.
  apply lines_bind; [apply lines_lift |]. intros top Etop.
  apply lines_bind; [apply lines_log; apply Htop; exact Etop |].
  intros _ _. apply lines_bind; [apply lines_lift |]. intros header Eheader.
  apply lines_bind; [apply lines_log; apply Hheader; exact Eheader |].
  intros _ _. apply lines_bind; [apply lines_lift |]. intros headerSep Esep.
  apply lines_bind; [apply lines_log; apply Hsep; exact Esep |].
  intros _ _. apply lines_bind; [| intros _ _; exact Hfooter].
  unfold draw_rows.
  assert (Hplain :
    Forall P
      (emitted (for_each
                  (fun r => bind (lift (data_line L r)) (fun line => console_log line))
                  (visibleFormattedRows L)))).
  { apply lines_for_each. intros r Hr. apply lines_lift_log.
    intros line Hline. exact (Hdata r line Hr Hline). }
  destruct (fullContent options) as [[|] |]; try exact Hplain.
  apply lines_for_each. intros [rowIdx r] Hin. apply in_combine_r in Hin.
  unfold draw_wrapped_row. apply lines_bind.
  - apply lines_for_each. intros lineIdx _. apply lines_lift_log.
    intros line Hline. exact (Hwrapped r lineIdx line Hin Hline).
  - intros _ _.
    destruct (Z.of_nat rowIdx <? len (visibleFormattedRows L) - 1);
      [| constructor].
    apply lines_lift_log. exact Hsep.
Qed.

Lemma Forall2_map_right {A B C : Type} (P : A -> C -> Prop) (f : B -> C)
    (xs : list A) (ys : list B) :
  Forall2 P xs (map f ys) <-> Forall2 (fun x y => P x (f y)) xs ys.
Proof.
  revert ys. induction xs as [| x xs IH]; intros ys; split; intros H.
  - destruct ys; [constructor | inversion H].
  - inversion H. constructor.
  - destruct ys as [| y ys]; [inversion H |]. inversion H; subst.
    constructor; [assumption | apply IH; assumption].
  - inversion H; subst. cbn [map]. constructor; [assumption | apply IH; assumption].
Qed.

Lemma Forall2_conj {A B : Type} (P Q : A -> B -> Prop) (xs : list A) (ys : list B) :
  Forall2 P xs ys -> Forall2 Q xs ys -> Forall2 (fun x y => P x y /\ Q x y) xs ys.
Proof.
  intros HP. induction HP as [| x y xs ys Hx _ IH]; intros HQ;
    inversion HQ; subst; constructor; [split; assumption | apply IH; assumption].
Qed.

Section Rectangle.

Context {R : Runtime}.
Hypothesis Hadd : additive_widths R.

Lemma header_line_width (L : Layout) (zs : list Z) (line : jsstring) :
  visibleColWidths L = map Fin zs -> zs <> [] ->
  length (columns L) = length zs ->
  Forall2 (fun text z => fits text z /\ drawable text (Fin z)) (columns L) zs ->
  header_line L = inr line -> width line = line_width zs.
Proof.
  intros Hws Hne Hlen Hfits H. unfold header_line in H. rewrite Hws in H.
  destruct (rmapi _ (columns L)) as [e | cells] eqn:E; [discriminate |].
  cbn [rbind] in H. apply inr_eq in H. subst.
  apply (row_line_width Hadd); [exact Hne |].
  eapply (cells_width Hadd); eassumption.
Qed.

Lemma data_line_width (L : Layout) (zs : list Z) (r : list jsstring)
    (line : jsstring) :
  visibleColWidths L = map Fin zs -> zs <> [] ->
  length r = length zs ->
  Forall2 (fun text z => fits text z /\ drawable text (Fin z)) r zs ->
  data_line L r = inr line -> width line = line_width zs.
Proof.
  intros Hws Hne Hlen Hfits H. unfold data_line in H. rewrite Hws in H.
  destruct (rmapi _ r) as [e | cells] eqn:E; [discriminate |].
  cbn [rbind] in H. apply inr_eq in H. subst.
  apply (row_line_width Hadd); [exact Hne |].
  eapply (cells_width Hadd); eassumption.
Qed.

(** The line [lineIdx] of the wrapped cells of a row: each piece can be
    measured in its column, as the cell it comes from can. *)
Lemma wrapped_texts (zs : list Z) (r : list jsstring) (lineIdx : nat) :
  length r = length zs ->
  Forall2 (fun text z => fits text z /\ drawable text (Fin z)) r zs ->
  Forall (fun text => ~ In 10%N text) r ->
  Forall2 (fun text z => fits text z /\ drawable text (Fin z))
    (map (fun cellLines => nth lineIdx cellLines [])
       (mapi (fun val i => wrapLines val (at_ (map Fin zs) i)) r)) zs.
Proof.
  intros Hlen Hfits Hclean.
  apply (Forall2_pointwise _ [] 0).
  - rewrite length_map, length_mapi. exact Hlen.
  - rewrite length_map, length_mapi. intros i Hi.
    rewrite (nth_indep _ [] ((fun cellLines => nth lineIdx cellLines []) [[]]))
      by (rewrite length_map, length_mapi; exact Hi).
    rewrite (map_nth (fun cellLines => nth lineIdx cellLines [])).
    rewrite (nth_mapi (fun (val : jsstring) (i0 : nat) =>
                         wrapLines val (at_ (map Fin zs) i0)) r i [] [[]] Hi).
    rewrite at_fin by lia.
    pose proof (Forall2_nth _ r zs i [] 0 Hfits Hi) as [Hfit Hdraw].
    assert (Hc : ~ In 10%N (nth i r [])).
    { rewrite Forall_forall in Hclean. apply Hclean. apply nth_In. exact Hi. }
    set (text := nth i r []) in *. set (z := nth i zs 0) in *.
    destruct (Nat.lt_ge_cases lineIdx (length (wrapLines text (Fin z))))
      as [Hlt | Hge].
    + pose proof (nth_In (wrapLines text (Fin z)) [] Hlt) as Hin.
      set (part := nth lineIdx (wrapLines text (Fin z)) []) in *.
      assert (Hroomy : whole text -> width text <= z ->
                       whole part /\ width part <= z).
      { intros Hw Hle.
        pose proof (wrapLines_roomy Hadd text z Hw Hc Hle) as Hall.
        rewrite Forall_forall in Hall. exact (Hall part Hin). }
      destruct Hdraw as [Hplain | [Hwhole Hle]].
      * assert (Hpart : plain_text part).
        { intros Hesc. apply Hplain.
          exact (wrapLines_units text (Fin z) part ESC Hc Hin Hesc). }
        split; [| left; exact Hpart].
        destruct Hfit as [Hone | Hle]; [left; exact Hone |].
        right. apply Hroomy; [apply plain_whole; exact Hplain | exact Hle].
      * cbn [nleb] in Hle. apply Z.leb_le in Hle.
        destruct (Hroomy Hwhole Hle) as [Hw' Hle'].
        split; [right; exact Hle' |]. right. split; [exact Hw' |].
        cbn [nleb]. apply Z.leb_le. exact Hle'.
    + rewrite nth_overflow by exact Hge.
      assert (Hz : 0 <= z).
      { destruct Hdraw as [_ | [_ Hle]];
          [| cbn [nleb] in Hle; apply Z.leb_le in Hle;
             pose proof (width_nonneg text); lia].
        destruct Hfit as [Hone | Hle]; [lia |].
        pose proof (width_nonneg text). lia. }
      split; [right; rewrite (width_nil Hadd); exact Hz | left; intros []].
Qed.

Lemma wrapped_line_width (L : Layout) (zs : list Z) (r : list jsstring)
    (lineIdx : nat) (line : jsstring) :
  visibleColWidths L = map Fin zs -> zs <> [] ->
  length r = length zs ->
  Forall2 (fun text z => fits text z /\ drawable text (Fin z)) r zs ->
  Forall (fun text => ~ In 10%N text) r ->
  wrapped_line L (mapi (fun val i => wrapLines val (at_ (visibleColWidths L) i)) r)
    lineIdx = inr line ->
  width line = line_width zs.
Proof.
  intros Hws Hne Hlen Hfits Hclean H. unfold wrapped_line in H.
  rewrite Hws in H.
  rewrite (rmapi_map (cell (visibleIsNumeric L) (map Fin zs))
             (fun cellLines => nth lineIdx cellLines [])) in H.
  destruct (rmapi _ (map _ _)) as [e | cells] eqn:E; [discriminate |].
  cbn [rbind] in H. apply inr_eq in H. subst.
  apply (row_line_width Hadd); [exact Hne |].
  eapply (cells_width Hadd); [| | exact E].
  - rewrite length_map, length_mapi. exact Hlen.
  - apply wrapped_texts; assumption.
Qed.

Lemma draw_footer_width (L : Layout) (zs : list Z) (inner : Z) :
  visibleColWidths L = map Fin zs -> zs <> [] -> plain_text (info L) ->
  innerWidth L = Fin inner -> 1 <= inner -> line_width zs = inner + 4 ->
  Forall (fun line => width line = line_width zs) (emitted (draw_footer L)).
Proof.
  intros Hws Hne Hplain Hinner Hone Hline. unfold draw_footer. rewrite Hinner.
  destruct (info L) as [| c text].
  - apply lines_lift_log. intros line H. rewrite Hws in H.
    apply (cross_line_width Hadd (hd 0%N BOX.bottomLeft) (hd 0%N BOX.bottomCross)
             (hd 0%N BOX.bottomRight) zs line);
      try (unfold glyphs; simpl; tauto); assumption.
  - apply lines_bind; [apply lines_lift |]. intros infoLine Hinfo.
    unfold outcome, lift in Hinfo. simpl in Hinfo.
    pose proof (whole_truncate (c :: text) (Fin inner) Hplain) as Hwt.
    pose proof (padRight_width Hadd _ inner infoLine Hwt Hinfo
                  (width_truncate Hadd (c :: text) inner Hplain Hone)) as Hw.
    pose proof (whole_padRight _ _ _ Hwt Hinfo) as Hwi.
    apply lines_bind.
    + apply lines_log.
      rewrite !(width_app Hadd) by whole_solve.
      rewrite (width_dim Hadd), (width_reset Hadd),
        (width_vertical Hadd), (width_space Hadd), Hw. lia.
    + intros _ _. apply lines_bind; [apply lines_lift |]. intros bar Hbar.
      unfold outcome, lift in Hbar. simpl in Hbar.
      destruct (inner + 2 <? 0); [discriminate |].
      apply inr_eq in Hbar. subst bar. apply lines_log.
      assert (Hwb : whole (concat (repeat BOX.horizontal (Z.to_nat (inner + 2)))))
        by (apply whole_repeat; reflexivity).
      rewrite !(width_app Hadd) by whole_solve.
      rewrite (width_dim Hadd), (width_reset Hadd),
        (width_repeat Hadd), (width_horizontal Hadd) by reflexivity.
      rewrite (width_glyph Hadd BOX.bottomLeft) by (unfold glyphs; simpl; tauto).
      rewrite (width_glyph Hadd BOX.bottomRight) by (unfold glyphs; simpl; tauto).
      lia.
Qed.

(** Every line of [draw] has the width of the frame, for a layout in
    which every text can be measured in its column, the frame has one
    column or more of inner width, and the title ends within the
    frame. *)
Lemma draw_width (L : Layout) (options : TableOptions) (zs : list Z) (inner : Z) :
  visibleColWidths L = map Fin zs -> zs <> [] ->
  length (columns L) = length zs -> Forall2 fits (columns L) zs ->
  (forall r, In r (visibleFormattedRows L) ->
     length r = length zs /\ Forall2 fits r zs
     /\ Forall (fun text => ~ In 10%N text) r) ->
  Forall (fun texts => Forall2 drawable texts (visibleColWidths L))
    (columns L :: visibleFormattedRows L) ->
  plain_text (info L) ->
  innerWidth L = Fin inner -> 1 <= inner -> line_width zs = inner + 4 ->
  (forall s, truthy_title (title options) = Some s -> whole s /\ width s <= inner) ->
  Forall (fun line => width line = inner + 4) (emitted (draw L options)).
Proof.
  intros Hws Hne Hlen Hcols Hrows Hdraw Hinfo Hinner Hone Hline Htitle.
  rewrite <- Hline. rewrite Hws in Hdraw.
  assert (Hmeasure : forall texts,
             In texts (columns L :: visibleFormattedRows L) ->
             Forall2 fits texts zs ->
             Forall2 (fun text z => fits text z /\ drawable text (Fin z)) texts zs).
  { intros texts Hin Hf. rewrite Forall_forall in Hdraw.
    apply Forall2_conj; [exact Hf |].
    apply Forall2_map_right. apply Hdraw. exact Hin. }
  apply draw_all.
  - intros top Htop. rewrite Hws in Htop.
    apply (top_line_width Hadd (title options) zs top Hne); [| | exact Htop].
    + clear - Hcols Hrows Hlen Hws Hdraw Hne Hone Hline.
      apply Forall_forall. intros z Hz.
      destruct (In_nth zs z 0 Hz) as (i & Hi & <-).
      rewrite <- Hlen in Hi.
      pose proof (Forall2_nth _ (columns L) zs i [] 0 Hcols Hi) as Hf.
      pose proof (width_nonneg (nth i (columns L) [])).
      destruct Hf; lia.
    + intros s Hs. destruct (Htitle s Hs) as [Hw Hle]. split; [exact Hw | lia].
  - intros header Hheader.
    apply (header_line_width L zs header Hws Hne Hlen); [| exact Hheader].
    apply Hmeasure; [left; reflexivity | exact Hcols].
  - intros line Hsep. rewrite Hws in Hsep.
    apply (cross_line_width Hadd (hd 0%N BOX.headerLeft) (hd 0%N BOX.headerCross)
             (hd 0%N BOX.headerRight) zs line);
      try (unfold glyphs; simpl; tauto); assumption.
  - intros r line Hr Hdata. destruct (Hrows r Hr) as (Hl & Hf & _).
    apply (data_line_width L zs r line Hws Hne Hl); [| exact Hdata].
    apply Hmeasure; [right; exact Hr | exact Hf].
  - intros r lineIdx line Hr Hwrapped. destruct (Hrows r Hr) as (Hl & Hf & Hc).
    apply (wrapped_line_width L zs r lineIdx line Hws Hne Hl); [| exact Hc | exact Hwrapped].
    apply Hmeasure; [right; exact Hr | exact Hf].
  - eapply draw_footer_width; eassumption.
Qed.

End Rectangle.

(** *** No line feed in a line *)

Section CleanLines.

Context {R : Runtime}.

Lemma bold_clean : Forall (fun c => c <> 10%N) bold.
Proof.
  unfold bold. destruct enableANSIColors; repeat constructor; discriminate.
Qed.

Lemma glyph_clean (g : jsstring) : In g glyphs -> Forall (fun c => c <> 10%N) g.
Proof.
  unfold glyphs. intros Hg. cbn [In] in Hg.
  repeat (destruct Hg as [<- | Hg]; [repeat constructor; discriminate |]).
  destruct Hg.
Qed.

Lemma rule_clean (cross : jsstring) (ws : list num) (r : jsstring) :
  In cross glyphs -> rule cross ws = inr r -> Forall (fun c => c <> 10%N) r.
Proof.
  intros Hcross H. unfold rule in H.
  destruct (rmap (str_repeat BOX.horizontal) ws) as [e | segments] eqn:Es;
    [discriminate |].
  cbn [rbind] in H. apply inr_eq in H. subst r.
  pose proof (glyph_clean BOX.horizontal ltac:(unfold glyphs; cbn [In]; tauto))
    as Hh.
  apply join_pieces.
  - repeat (apply Forall_app; split); try exact Hh. apply glyph_clean. exact Hcross.
  - apply rmap_inr in Es. clear - Es Hh.
    induction Es as [| w seg ws segs Hseg _ IH]; constructor; [| exact IH].
    exact (str_repeat_clean _ _ _ Hh Hseg).
Qed.

Lemma cross_line_clean (left cross right : jsstring) (ws : list num)
    (line : jsstring) :
  In left glyphs -> In cross glyphs -> In right glyphs ->
  cross_line left cross right ws = inr line -> Forall (fun c => c <> 10%N) line.
Proof.
  intros Hl Hc Hr H. unfold cross_line in H.
  destruct (rule cross ws) as [e | r] eqn:Er; [discriminate |].
  cbn [rbind] in H. apply inr_eq in H. subst line.
  pose proof (rule_clean cross ws r Hc Er) as Hrule.
  pose proof (glyph_clean BOX.horizontal ltac:(unfold glyphs; cbn [In]; tauto))
    as Hh.
  pose proof dim_clean as Hd. pose proof reset_clean as Hrs.
  pose proof (glyph_clean left Hl). pose proof (glyph_clean right Hr).
  repeat (apply Forall_app; split); assumption.
Qed.

Lemma top_line_clean (t : option jsstring) (ws : list num) (line : jsstring) :
  (forall s, truthy_title t = Some s -> ~ In 10%N s) ->
  top_line t ws = inr line -> Forall (fun c => c <> 10%N) line.
Proof.
  intros Htitle H. unfold top_line in H.
  destruct (rule BOX.topCross ws) as [e | r] eqn:Er; [discriminate |].
  cbn [rbind] in H.
  pose proof (rule_clean BOX.topCross ws r ltac:(unfold glyphs; cbn [In]; tauto) Er)
    as Hrule.
  pose proof dim_clean as Hd. pose proof reset_clean as Hrs.
  pose proof bold_clean as Hb.
  assert (Hfull : Forall (fun c => c <> 10%N)
                    (BOX.topLeft ++ BOX.horizontal ++ r ++ BOX.horizontal
                       ++ BOX.topRight)).
  { repeat (apply Forall_app; split); try exact Hrule;
      repeat constructor; discriminate. }
  destruct (truthy_title t) as [s |].
  - apply inr_eq in H. subst line.
    assert (Hs : Forall (fun c => c <> 10%N) s)
      by (apply clean_iff; apply Htitle; reflexivity).
    assert (Hsp : Forall (fun c => c <> 10%N) SPACE)
      by (repeat constructor; discriminate).
    pose proof (Forall_slice _ _ 0 2 Hfull).
    assert (Hafter : forall k, Forall (fun c => c <> 10%N)
                                 (slice_from (BOX.topLeft ++ BOX.horizontal ++ r
                                                ++ BOX.horizontal ++ BOX.topRight) k)).
    { intros k. unfold slice_from. apply Forall_slice. exact Hfull. }
    repeat (apply Forall_app; split); try assumption. apply Hafter.
  - apply inr_eq in H. subst line.
    apply Forall_app. split; [exact Hd |].
    apply Forall_app. split; [exact Hfull | exact Hrs].
Qed.

Lemma cells_clean (numeric : list bool) (ws : list num)
    (texts cells : list jsstring) :
  Forall (fun text => ~ In 10%N text) texts ->
  rmapi (cell numeric ws) texts = inr cells ->
  Forall (fun c => c <> 10%N) (row_line cells).
Proof.
  intros Hclean Ecells. apply row_line_clean.
  apply (Forall2_left _ cells texts).
  apply (rmapi_inr _ (fun (c : jsstring) (_ : jsstring) =>
                        Forall (fun u => u <> 10%N) c) [] texts texts cells
           Ecells eq_refl).
  intros i text c Hi Hc.
  refine (cell_clean _ _ text i c _ Hc).
  apply clean_iff. rewrite Forall_forall in Hclean. apply Hclean.
  apply (nth_error_In _ _ Hi).
Qed.

Lemma padRight_clean (s : jsstring) (w : num) (p : jsstring) :
  Forall (fun c => c <> 10%N) s -> padRight s w = inr p ->
  Forall (fun c => c <> 10%N) p.
Proof.
  intros Hs. unfold padRight.
  destruct (ngeb (Fin (width s)) w); [intros H; apply inr_eq in H; subst; exact Hs |].
  destruct (str_repeat SPACE (nsub w (Fin (width s)))) as [e | pad] eqn:Epad;
    cbn [rbind]; [discriminate |].
  intros H. apply inr_eq in H. subst p.
  apply Forall_app. split; [exact Hs |].
  apply (str_repeat_clean SPACE pad _ ltac:(repeat constructor; discriminate) Epad).
Qed.

Lemma draw_footer_clean (L : Layout) :
  ~ In 10%N (info L) ->
  Forall (fun line => ~ In 10%N line) (emitted (draw_footer L)).
Proof.
  intros Hinfo. unfold draw_footer.
  pose proof dim_clean as Hd. pose proof reset_clean as Hrs.
  destruct (info L) as [| c text].
  - apply lines_lift_log. intros line H. apply clean_iff.
    eapply cross_line_clean; cycle 3; [exact H | ..];
      unfold glyphs; cbn [In]; tauto.
  - apply lines_bind; [apply lines_lift |]. intros infoLine Hline.
    unfold outcome, lift in Hline. simpl in Hline.
    assert (Hi : Forall (fun c => c <> 10%N) infoLine).
    { apply (padRight_clean _ _ _ (truncate_clean _ _ (proj1 (clean_iff _) Hinfo))
               Hline). }
    apply lines_bind.
    + apply lines_log. apply clean_iff.
      repeat (apply Forall_app; split); try assumption;
        repeat constructor; discriminate.
    + intros _ _. apply lines_bind; [apply lines_lift |]. intros bar Hbar.
      unfold outcome, lift in Hbar. simpl in Hbar.
      pose proof (str_repeat_clean BOX.horizontal bar _
                    ltac:(repeat constructor; discriminate) Hbar) as Hb.
      apply lines_log. apply clean_iff.
      repeat (apply Forall_app; split); try assumption;
        repeat constructor; discriminate.
Qed.

(** No line of [draw] holds a line feed when the title and the names of
    the columns hold none: the cells are escaped. *)
Lemma draw_clean (L : Layout) (options : TableOptions) :
  (forall s, truthy_title (title options) = Some s -> ~ In 10%N s) ->
  Forall (fun c => ~ In 10%N c) (columns L) ->
  (forall r, In r (visibleFormattedRows L) -> Forall (fun text => ~ In 10%N text) r) ->
  ~ In 10%N (info L) ->
  Forall (fun line => ~ In 10%N line) (emitted (draw L options)).
Proof.
  intros Htitle Hcols Hrows Hinfo.
  apply draw_all.
  - intros top Htop. apply clean_iff. eapply top_line_clean; eassumption.
  - intros header H. unfold header_line in H.
    destruct (rmapi _ (columns L)) as [e | cells] eqn:E; [discriminate |].
    cbn [rbind] in H. apply inr_eq in H. subst header.
    apply clean_iff. eapply cells_clean; eassumption.
  - intros line H. apply clean_iff.
    eapply cross_line_clean; cycle 3; [exact H | ..];
      unfold glyphs; cbn [In]; tauto.
  - intros r line Hr H. unfold data_line in H.
    destruct (rmapi _ r) as [e | cells] eqn:E; [discriminate |].
    cbn [rbind] in H. apply inr_eq in H. subst line.
    apply clean_iff. eapply cells_clean; [apply Hrows; exact Hr | exact E].
  - intros r lineIdx line Hr H. unfold wrapped_line in H.
    rewrite (rmapi_map (cell (visibleIsNumeric L) (visibleColWidths L))
               (fun cellLines => nth lineIdx cellLines [])) in H.
    destruct (rmapi _ (map _ _)) as [e | cells] eqn:E; [discriminate |].
    cbn [rbind] in H. apply inr_eq in H. subst line.
    apply clean_iff. eapply cells_clean; [| exact E].
    apply Forall_forall. intros part Hpart.
    apply in_map_iff in Hpart. destruct Hpart as (cellLines & <- & Hcl).
    unfold mapi in Hcl. apply in_map_iff in Hcl.
    destruct Hcl as ([i val] & <- & Hin). cbn [fst snd].
    apply in_combine_r in Hin.
    assert (Hval : ~ In 10%N val).
    { pose proof (Hrows r Hr) as Hall. rewrite Forall_forall in Hall.
      apply Hall. exact Hin. }
    destruct (Nat.lt_ge_cases lineIdx
                (length (wrapLines val (at_ (visibleColWidths L) i)))) as [Hlt | Hge].
    + intros H10.
      exact (Hval (wrapLines_units val _ _ 10%N Hval (nth_In _ [] Hlt) H10)).
    + rewrite nth_overflow by exact Hge. intros [].
  - apply draw_footer_clean. exact Hinfo.
Qed.

(** The lines of [print_empty] under a title. *)
Lemma print_empty_titled (options : TableOptions) (t : jsstring) :
  truthy_title (title options) = Some t ->
  exists bar padded bottom,
    str_repeat BOX.horizontal
      (Fin (Z.max 0 (Z.max (width (lit "(empty)")) (width t) + 2
                     - width (SPACE ++ t ++ SPACE) - 1))) = inr bar
    /\ padRight (lit "(empty)") (Fin (Z.max (width (lit "(empty)")) (width t)))
       = inr padded
    /\ str_repeat BOX.horizontal
         (Fin (Z.max (width (lit "(empty)")) (width t) + 2)) = inr bottom
    /\ print_empty options
       = ([dim ++ BOX.topLeft ++ BOX.horizontal ++ reset ++ bold
             ++ (SPACE ++ t ++ SPACE) ++ reset ++ dim ++ bar ++ BOX.topRight ++ reset;
           dim ++ BOX.vertical ++ reset ++ SPACE ++ padded ++ SPACE
             ++ dim ++ BOX.vertical ++ reset;
           dim ++ BOX.bottomLeft ++ bottom ++ BOX.bottomRight ++ reset], inr tt).
Proof.
  intros Htitle. unfold print_empty. rewrite Htitle. cbv zeta.
  pose proof (width_nonneg (lit "(empty)")) as He.
  pose proof (width_nonneg t) as Hwt.
  destruct (str_repeat_total BOX.horizontal
              (Fin (Z.max 0 (Z.max (width (lit "(empty)")) (width t) + 2
                             - width (SPACE ++ t ++ SPACE) - 1))))
    as (bar & Hbar); [simpl; lia |].
  destruct (padRight_total (lit "(empty)")
              (Fin (Z.max (width (lit "(empty)")) (width t)))) as (padded & Hpad).
  destruct (str_repeat_total BOX.horizontal
              (Fin (Z.max (width (lit "(empty)")) (width t) + 2)))
    as (bottom & Hbottom); [simpl; lia |].
  exists bar, padded, bottom.
  rewrite Hbar, Hpad, Hbottom. repeat split; reflexivity.
Qed.


End CleanLines.

(** *** The frame of a table *)

Section Frame.

Context {R : Runtime}.

(** The widths of the frame, on a terminal of 7 columns or more, for a
    title that fits and a first column with a name of positive
    width. *)
Lemma layout_frame (first : row) (more ds : list row) (options : TableOptions) :
  7 <= getTerminalWidth ->
  (forall s, truthy_title (title options) = Some s ->
             width s + 4 <= getTerminalWidth) ->
  (exists c cs, keys first = c :: cs /\ 0 < width c) ->
  displayRows_of (first :: more) options = first :: ds ->
  exists zs content,
    visibleColWidths (layout_of (first :: more) options) = map Fin zs
    /\ zs <> []
    /\ length (columns (layout_of (first :: more) options)) = length zs
    /\ Forall2 fits (columns (layout_of (first :: more) options)) zs
    /\ (forall r, In r (visibleFormattedRows (layout_of (first :: more) options)) ->
          length r = length zs /\ Forall2 fits r zs
          /\ Forall (fun text => ~ In 10%N text) r)
    /\ (forall c, In c (columns (layout_of (first :: more) options)) ->
                  In c (keys first))
    /\ contentWidth (layout_of (first :: more) options) = Fin content
    /\ content <= getTerminalWidth - 4
    /\ innerWidth (layout_of (first :: more) options)
       = Fin (Z.min (Z.max content (titleWidth (title options)))
                (getTerminalWidth - 4))
    /\ 1 <= Z.min (Z.max content (titleWidth (title options)))
              (getTerminalWidth - 4)
    /\ line_width zs
       = Z.min (Z.max content (titleWidth (title options)))
           (getTerminalWidth - 4) + 4
    /\ (forall s, truthy_title (title options) = Some s ->
                  width s <= Z.min (Z.max content (titleWidth (title options)))
                               (getTerminalWidth - 4)).
Proof.
  intros Ht Htitle (c & cs & Hkeys & Hc) Edr.
  unfold layout_of. rewrite Edr. cbn [hd].
  set (t := getTerminalWidth) in *.
  set (rows := first :: more).
  destruct (layout_fields t rows (first :: ds) first options)
    as (Hcols & _ & Havail & Hnat & _).
  destruct (layout_natural t rows (first :: ds) first options) as [Hcn Hrn].
  cbv zeta in *.
  set (L := layout t rows (first :: ds) first options) in *.
  assert (Hk1 : 1 <= kept t (len (keys first))).
  { apply kept_positive. rewrite Hkeys. unfold len. simpl. lia. }
  pose proof (kept_bounds t (len (keys first)) (len_nonneg _)) as Hkb.
  assert (Hlencols : len (columns L) = kept t (len (keys first))).
  { rewrite Hcols. unfold len in *. rewrite length_firstn. lia. }
  assert (Hcol0 : exists rest, columns L = c :: rest).
  { rewrite Hcols.
    destruct (Z.to_nat (kept t (len (keys first)))) eqn:E; [lia |].
    rewrite Hkeys. simpl. eexists. reflexivity. }
  destruct Hcol0 as (crest & Hcol0).
  assert (Hn0 : exists n0 nrest, natural L = n0 :: nrest /\ 1 <= n0).
  { rewrite Hcol0 in Hcn. inversion Hcn as [| ? n0 ? nrest Hle _]; subst.
    exists n0, nrest. split; [reflexivity | lia]. }
  destruct Hn0 as (n0 & nrest & Hnat0 & Hn0).
  destruct (layout_widths t rows (first :: ds) first options)
    as (zs & zs' & Hcomp & Hfinal & Hlz & Hlz' & Hfloor & Hle & Hbudget
        & Hcontent & Hinner & Hsum).
  { intros _. fold L. rewrite Hnat0. left. lia. }
  cbv zeta in *. fold L in Hcomp, Hfinal, Hlz, Hfloor, Hbudget, Hcontent, Hinner, Hsum.
  pose proof (bound_nonneg _ _ Hcn) as Hnn.
  destruct (floor_chain_nonneg _ _ _ _ Hnn Hfloor Hle) as [Hzpos Hzpos'].
  remember (zsum zs + (len (columns L) - 1) * 3) as content eqn:Econtent.
  remember (Z.min (Z.max content (titleWidth (title options))) (t - 4)) as inner
    eqn:Einner.
  assert (Hlen_cz : length (columns L) = length zs).
  { rewrite (Forall2_length_eq _ _ _ Hcn). symmetry. exact Hlz. }
  assert (Hlenz : len zs = kept t (len (keys first))).
  { rewrite <- Hlencols. unfold len. rewrite Hlen_cz. reflexivity. }
  assert (Hz1 : 1 <= zsum zs).
  { rewrite Hnat0 in Hfloor.
    inversion Hfloor as [| ? z0 ? zrest Hb Hrest]; subst zs.
    rewrite zsum_cons. inversion Hzpos; subst.
    pose proof (zsum_nonneg zrest ltac:(assumption)).
    unfold minColWidth in Hb. destruct (zsum (n0 :: nrest) >? available L); lia. }
  assert (Hfit : content <= t - 4).
  { rewrite Econtent, Hlencols.
    destruct Hbudget as [Hb | [_ H3]].
    - rewrite Havail in Hb. lia.
    - rewrite (zsum_all_three zs H3), Hlenz.
      pose proof (kept_room t (len (keys first)) Ht
                    ltac:(rewrite Hkeys; unfold len; simpl; lia)).
      lia. }
  assert (Hinner1 : 1 <= inner) by lia.
  assert (Hline : line_width zs' = inner + 4).
  { unfold line_width. rewrite Hsum.
    assert (Hl' : len zs' = len zs) by (unfold len; rewrite Hlz'; reflexivity).
    rewrite Hl'.
    assert (Hpos : (len zs >? 0) = true)
      by (rewrite Z.gtb_ltb; apply Z.ltb_lt; lia).
    rewrite Hpos, andb_true_r.
    destruct (inner >? content) eqn:E; rewrite Z.gtb_ltb in E;
      [apply Z.ltb_lt in E | apply Z.ltb_ge in E]; lia. }
  exists zs', content.
  split; [exact Hfinal |]. split.
  { intros ->. simpl in Hlz'. unfold len in Hlenz at 1. lia. }
  split; [rewrite Hlen_cz; symmetry; exact Hlz' |].
  split; [eapply fits_chain; eassumption |]. split.
  { intros r Hr. split; [| split].
    - rewrite (Forall2_length_eq _ _ _ (Hrn r Hr)). rewrite Hlz'. symmetry. exact Hlz.
    - eapply fits_chain; [apply Hrn; exact Hr | exact Hfloor | exact Hle].
    - eapply visible_rows_clean. exact Hr. }
  split.
  { intros col Hcol. rewrite Hcols in Hcol. eapply in_firstn_in. exact Hcol. }
  split; [exact Hcontent |]. split; [exact Hfit |].
  rewrite <- Einner.
  split; [exact Hinner |]. split; [exact Hinner1 |]. split; [exact Hline |].
  intros s Hs. specialize (Htitle s Hs).
  unfold titleWidth in Einner. rewrite Hs in Einner. lia.
Qed.

Lemma layout_info_printable (rows : list row) (options : TableOptions) :
  Forall printable (info (layout_of rows options)).
Proof. rewrite layout_of_info. apply infoText_printable. Qed.

End Frame.

Section RectangleTheorem.

Context {R : Runtime}.
Hypothesis Hadd : additive_widths R.

(** The widths of the three lines of an empty table under a title. *)
Lemma print_empty_widths (options : TableOptions) (t : jsstring) :
  truthy_title (title options) = Some t ->
  exists top mid bottom,
    print_empty options = ([top; mid; bottom], inr tt)
    /\ (whole t ->
        width mid = Z.max (width (lit "(empty)")) (width t) + 4
        /\ width bottom = Z.max (width (lit "(empty)")) (width t) + 4
        /\ width top
           = Z.max (width (lit "(empty)")) (width t) + 4
             + (if width t <? width (lit "(empty)") then 0 else 1)).
Proof.
  intros Htitle.
  destruct (print_empty_titled options t Htitle)
    as (bar & padded & bottom & Hbar & Hpad & Hbottom & Hprint).
  rewrite Hprint. eexists. eexists. eexists. split; [reflexivity |].
  intros Hwhole.
  pose proof (width_nonneg (lit "(empty)")) as He.
  pose proof (width_nonneg t) as Hwt.
  assert (Hempty : whole (lit "(empty)")) by reflexivity.
  assert (Htd : width (SPACE ++ t ++ SPACE) = width t + 2).
  { rewrite !(width_app Hadd), (width_space Hadd) by whole_solve. lia. }
  rewrite Htd in Hbar.
  remember (width (lit "(empty)")) as e eqn:Ee.
  cbn [str_repeat] in Hbar, Hbottom.
  destruct (Z.max 0 (Z.max e (width t) + 2 - (width t + 2) - 1) <? 0) eqn:E1;
    [apply Z.ltb_lt in E1; lia |].
  destruct (Z.max e (width t) + 2 <? 0) eqn:E2; [apply Z.ltb_lt in E2; lia |].
  apply inr_eq in Hbar. apply inr_eq in Hbottom.
  assert (Wbar : width bar = Z.max 0 (Z.max e (width t) + 2 - (width t + 2) - 1)).
  { subst bar. rewrite (width_repeat Hadd), (width_horizontal Hadd) by reflexivity.
    lia. }
  assert (Wbottom : width bottom = Z.max e (width t) + 2).
  { subst bottom. rewrite (width_repeat Hadd), (width_horizontal Hadd) by reflexivity.
    lia. }
  assert (Hwbar : whole bar) by (subst bar; apply whole_repeat; reflexivity).
  assert (Hwbottom : whole bottom) by (subst bottom; apply whole_repeat; reflexivity).
  assert (Wpad : width padded = Z.max e (width t)).
  { apply (padRight_width Hadd (lit "(empty)") _ padded Hempty Hpad). lia. }
  assert (Hwpad : whole padded) by (apply (whole_padRight _ _ _ Hempty Hpad)).
  assert (Wtl : width BOX.topLeft = 1)
    by (apply (width_glyph Hadd); unfold glyphs; simpl; tauto).
  assert (Wtr : width BOX.topRight = 1)
    by (apply (width_glyph Hadd); unfold glyphs; simpl; tauto).
  assert (Wbl : width BOX.bottomLeft = 1)
    by (apply (width_glyph Hadd); unfold glyphs; simpl; tauto).
  assert (Wbr : width BOX.bottomRight = 1)
    by (apply (width_glyph Hadd); unfold glyphs; simpl; tauto).
  rewrite !(width_app Hadd) by whole_solve.
  rewrite Wbar, Wbottom, Wpad, Wtl, Wtr, Wbl, Wbr,
    (width_dim Hadd), (width_reset Hadd), (width_bold Hadd),
    (width_space Hadd), (width_horizontal Hadd), (width_vertical Hadd).
  repeat split; [lia | lia |].
  destruct (width t <? e) eqn:E;
    [apply Z.ltb_lt in E | apply Z.ltb_ge in E]; lia.
Qed.

Lemma Forall_both {A : Type} (P Q : A -> Prop) (l : list A) :
  Forall P l -> Forall Q l -> Forall (fun x => P x /\ Q x) l.
Proof.
  intros HP HQ. rewrite Forall_forall in *. intros x Hx.
  split; [apply HP | apply HQ]; exact Hx.
Qed.


(** X14. Under the conditions of the rectangle for a table with a row
    to draw (a terminal of 7 columns or more, a title that fits it with
    its 4 columns of frame, a first column with a name of positive
    width, no line feed in the title or in the name of a column), the
    width of every line is known: the columns with their separators
    take a content width of at most the terminal width minus 4, and
    every line is 4 columns wider than the larger of the content width
    and [titleWidth] (the width of the title plus 4, or 0 without a
    title), capped at the terminal width minus 4. A title wider than
    the columns widens the table. Display widths are assumed to add up
    over the concatenation of strings that break no styling sequence,
    with one column for each glyph of the frame and none for the
    styling; the title is taken to be such a string, and every name and
    cell drawn to be plain text or such a string that fits its
    column. *)
Theorem table_width (first : row) (more : list row) (options : TableOptions) :
  7 <= getTerminalWidth ->
  (forall s, truthy_title (title options) = Some s ->
             whole s /\ ~ In 10%N s /\ width s + 4 <= getTerminalWidth) ->
  (exists c cs, keys first = c :: cs /\ 0 < width c) ->
  Forall (fun c => ~ In 10%N c) (keys first) ->
  displayRows_of (first :: more) options <> [] ->
  Forall (fun texts =>
            Forall2 drawable texts
              (visibleColWidths (layout_of (first :: more) options)))
    (columns (layout_of (first :: more) options)
       :: visibleFormattedRows (layout_of (first :: more) options)) ->
  exists content,
    contentWidth (layout_of (first :: more) options) = Fin content
    /\ content <= getTerminalWidth - 4
    /\ Forall (fun line =>
                 width line
                 = Z.min (Z.max content (titleWidth (title options)))
                     (getTerminalWidth - 4) + 4
                 /\ ~ In 10%N line)
         (emitted (printTable (first :: more) options)).
Proof.
  intros Ht Htitle Hfirst Hkeys Hdisp Hdraw.
  rewrite (printTable_draws (first :: more) options ltac:(discriminate) Hdisp).
  destruct (displayRows_of (first :: more) options) as [| d ds] eqn:Edr;
    [contradiction |].
  assert (d = first) by (eapply displayRows_head; exact Edr). subst d.
  destruct (layout_frame first more ds options Ht
              (fun s Hs => proj2 (proj2 (Htitle s Hs))) Hfirst Edr)
    as (zs & content & Hws & Hne & Hlen & Hcols & Hrows & Hsub & Hcw & Hcontent
        & Hinner & Hone & Hline & Htw).
  exists content. split; [exact Hcw |]. split; [exact Hcontent |].
  pose proof (layout_info_printable (first :: more) options) as Hinfo.
  apply Forall_both.
  - apply (draw_width Hadd _ options zs); try assumption.
    + apply printable_plain. exact Hinfo.
    + intros s Hs. split; [exact (proj1 (Htitle s Hs)) | exact (Htw s Hs)].
  - apply draw_clean.
    + intros s Hs. exact (proj1 (proj2 (Htitle s Hs))).
    + apply Forall_forall. intros c Hc. rewrite Forall_forall in Hkeys.
      apply Hkeys. apply Hsub. exact Hc.
    + intros r Hr. exact (proj2 (proj2 (Hrows r Hr))).
    + apply printable_clean. exact Hinfo.
Qed.

End RectangleTheorem.

Section EmptyTable.

Context {R : Runtime}.

(** X15. Without rows and without a title, [printTable] writes the one
    line [(empty)]. With a title it writes a box of three lines around
    [(empty)] and returns. When display widths add up over the
    concatenation of strings that break no styling sequence, with one
    column for each glyph of the frame and none for the styling, and
    the title is such a string, the two lower lines are 4 columns wider
    than the wider of [(empty)] and the title, and under a title
    narrower than [(empty)] the top line has that width too. *)
Theorem empty_table_box (options : TableOptions) :
  (truthy_title (title options) = None ->
   printTable [] options = ([lit "(empty)"], inr tt))
  /\ (forall t, truthy_title (title options) = Some t ->
      exists top mid bottom,
        printTable [] options = ([top; mid; bottom], inr tt)
        /\ (additive_widths R -> whole t ->
            width mid = Z.max (width (lit "(empty)")) (width t) + 4
            /\ width bottom = width mid
            /\ (width t < width (lit "(empty)") -> width top = width mid))).
Proof.
  split.
  - intros Htitle. cbn [printTable]. unfold print_empty. rewrite Htitle.
    reflexivity.
  - intros t Htitle. cbn [printTable].
    destruct (print_empty_titled options t Htitle)
      as (bar & padded & bottom & _ & _ & _ & Hprint).
    match type of Hprint with
    | _ = ([?a; ?b; ?c], _) =>
      remember a as top eqn:Etop; remember b as mid eqn:Emid;
      remember c as low eqn:Elow
    end.
    clear Etop Emid Elow.
    exists top, mid, low. split; [exact Hprint |].
    intros Hadd Hwhole.
    destruct (print_empty_widths Hadd options t Htitle)
      as (top' & mid' & bottom' & Hprint' & Hwidths).
    rewrite Hprint in Hprint'. injection Hprint' as E1 E2 E3.
    rewrite E1, E2, E3.
    destruct (Hwidths Hwhole) as (Hmid & Hbottom & Htop).
    split; [exact Hmid |]. split; [lia |].
    intros Hnarrow.
    replace (width t <? width (lit "(empty)")) with true in Htop
      by (symmetry; apply Z.ltb_lt; exact Hnarrow).
    lia.
Qed.

End EmptyTable.

(** The table of Carol and Dan with colors: the missing values are
    dimmed and the number is colored, by styling sequences that take
    no column. *)
Example snapshot_colours :
  emitted (@printTable (colour 80) [carol; dan] (titled "users"))
  = [DIM ++ lit "╭─" ++ RESET ++ BOLD ++ lit " users " ++ RESET ++ DIM
       ++ lit "───────┬──────╮" ++ RESET;
     DIM ++ lit "│" ++ RESET ++ lit " m     " ++ DIM ++ lit "│" ++ RESET
       ++ lit " name  " ++ DIM ++ lit "│" ++ RESET ++ lit "  age "
       ++ DIM ++ lit "│" ++ RESET;
     DIM ++ lit "├───────┼───────┼──────┤" ++ RESET;
     DIM ++ lit "│" ++ RESET ++ lit " " ++ DIM ++ lit "NULL" ++ RESET
       ++ lit "  " ++ DIM ++ lit "│" ++ RESET ++ lit " Carol "
       ++ DIM ++ lit "│" ++ RESET ++ lit "   "
       ++ (ESC :: lit "[33m") ++ lit "42" ++ (ESC :: lit "[39m") ++ lit " "
       ++ DIM ++ lit "│" ++ RESET;
     DIM ++ lit "│" ++ RESET ++ lit " metre " ++ DIM ++ lit "│" ++ RESET
       ++ lit " Dan   " ++ DIM ++ lit "│" ++ RESET ++ lit " "
       ++ DIM ++ lit "NULL" ++ RESET ++ lit " " ++ DIM ++ lit "│" ++ RESET;
     DIM ++ lit "╰───────┴───────┴──────╯" ++ RESET].
Proof. vm_compute. reflexivity. Qed.

(** The texts of a table that is given can be measured. *)
Ltac drawable_texts :=
  repeat first [apply Forall_cons | apply Forall_nil
               | apply Forall2_cons | apply Forall2_nil];
  first [left; apply not_In_by; vm_compute; reflexivity
        | right; split; vm_compute; reflexivity].


Lemma table_width_witness :
  exists content,
    contentWidth (@layout_of (colour 80) [[(lit "a", VNumber 1)]]
                    (titled "this is a very long title"))
    = Fin content
    /\ content <= @getTerminalWidth (colour 80) - 4
    /\ Forall (fun line =>
                 @width (colour 80) line
                 = Z.min (Z.max content
                            (@titleWidth (colour 80)
                               (title (titled "this is a very long title"))))
                     (@getTerminalWidth (colour 80) - 4) + 4
                 /\ ~ In 10%N line)
         (emitted (@printTable (colour 80) [[(lit "a", VNumber 1)]]
                     (titled "this is a very long title"))).
Proof.
  apply (@table_width (colour 80) (colour_additive 80) [(lit "a", VNumber 1)] []
           (titled "this is a very long title")).
  - vm_compute. intros H. discriminate H.
  - intros s Hs. vm_compute in Hs. injection Hs as <-.
    split; [reflexivity |]. split; [apply not_In_by; reflexivity |].
    vm_compute. intros H. discriminate H.
  - exists (lit "a"). eexists. split; [reflexivity | vm_compute; reflexivity].
  - repeat constructor; apply not_In_by; reflexivity.
  - vm_compute. discriminate.
  - set (ws := visibleColWidths _). vm_compute in ws. subst ws.
    set (cs := columns _). vm_compute in cs. subst cs.
    set (rs := visibleFormattedRows _). vm_compute in rs. subst rs.
    drawable_texts.
Defined.

Lemma empty_table_box_witness :
  exists top mid bottom,
    @printTable (colour 80) [] (titled "dbcat") = ([top; mid; bottom], inr tt)
    /\ @width (colour 80) mid
       = Z.max (@width (colour 80) (lit "(empty)"))
           (@width (colour 80) (lit "dbcat")) + 4
    /\ @width (colour 80) bottom = @width (colour 80) mid
    /\ @width (colour 80) top = @width (colour 80) mid.
Proof.
  destruct (proj2 (@empty_table_box (colour 80) (titled "dbcat"))
              (lit "dbcat") eq_refl)
    as (top & mid & bottom & Hprint & Hwidths).
  exists top, mid, bottom. split; [exact Hprint |].
  destruct (Hwidths (colour_additive 80) eq_refl) as (Hmid & Hbottom & Htop).
  split; [exact Hmid |]. split; [exact Hbottom |].
  apply Htop. vm_compute. reflexivity.
Defined.

(** ** The exceptions of [printTable] *)

Section Exceptions.

Context {R : Runtime}.

Lemma slice_nothing {A : Type} (l : list A) (m : Z) :
  l <> [] -> (slice l 0 m = [] <-> m = 0 \/ m <= - len l).
Proof.
  intros Hl.
  assert (Hn : 1 <= len l).
  { destruct l; [contradiction |]. unfold len. cbn [length]. lia. }
  unfold slice, rel_index. cbn [Z.ltb Z.compare].
  replace (Z.min 0 (len l)) with 0 by lia.
  cbn [Z.to_nat skipn]. rewrite Z.sub_0_r.
  destruct l as [| x l']; [contradiction |].
  destruct (m <? 0) eqn:E; [apply Z.ltb_lt in E | apply Z.ltb_ge in E].
  - split.
    + intros H. right.
      destruct (Z.to_nat (Z.max (len (x :: l') + m) 0)) eqn:Ek; [lia |].
      discriminate H.
    + intros [H | H]; [lia |].
      replace (Z.to_nat (Z.max (len (x :: l') + m) 0)) with 0%nat by lia.
      reflexivity.
  - split.
    + intros H. left.
      destruct (Z.to_nat (Z.min m (len (x :: l')))) eqn:Ek; [lia |].
      discriminate H.
    + intros [H | H]; [| lia].
      replace (Z.to_nat (Z.min m (len (x :: l')))) with 0%nat by lia.
      reflexivity.
Qed.

Lemma draw_footer_outcome (L : Layout) :
  Forall repeatable (visibleColWidths L) ->
  outcome (draw_footer L) = inr tt \/ outcome (draw_footer L) = inl RangeError.
Proof.
  intros Hws. unfold draw_footer.
  destruct (info L) as [| c text].
  - destruct (cross_line_total BOX.bottomLeft BOX.bottomCross BOX.bottomRight
                (visibleColWidths L) Hws) as (line & Hline).
    rewrite Hline. left. reflexivity.
  - destruct (padRight_total (truncate (c :: text) (innerWidth L)) (innerWidth L))
      as (infoLine & Hpad).
    rewrite Hpad.
    destruct (nadd (innerWidth L) (Fin 2)) as [z |]; cbn [str_repeat].
    + destruct (z <? 0); [right | left]; reflexivity.
    + left. reflexivity.
Qed.

Lemma quot_nothing (a : Z) (d : positive) (n : Z) :
  1 <= n ->
  (Z.quot a (Z.pos d) = 0 \/ Z.quot a (Z.pos d) <= - n)
  <-> (Z.abs a < Z.pos d \/ a <= - n * Z.pos d).
Proof.
  intros Hn.
  pose proof (Z.quot_rem' a (Z.pos d)) as Hqr.
  pose proof (Z.rem_bound_abs a (Z.pos d) ltac:(lia)) as Hb.
  pose proof (Z.rem_sign_mul a (Z.pos d) ltac:(lia)) as Hs.
  set (q := Z.quot a (Z.pos d)) in *. set (r := Z.rem a (Z.pos d)) in *.
  assert (Hd : 0 < Z.pos d) by lia.
  split; intros [H | H].
  - left. rewrite H in Hqr. lia.
  - right. assert (Z.pos d * q <= Z.pos d * (- n)) by (apply Z.mul_le_mono_nonneg_l; lia).
    destruct (Z_lt_le_dec 0 r) as [Hr | Hr]; [exfalso | lia].
    assert (Z.pos d * (- n) <= - Z.pos d) by nia.
    assert (Ha : a < 0) by lia.
    assert (r * a < 0) by (apply Z.mul_pos_neg; assumption). lia.
  - left. apply Z.quot_small_iff; lia.
  - right. destruct (Z_lt_le_dec (- n) q) as [Hq | Hq]; [exfalso | exact Hq].
    assert (Z.pos d * (- n + 1) <= Z.pos d * q) by (apply Z.mul_le_mono_nonneg_l; lia).
    assert (Hr : r < 0) by lia.
    assert (Ha : a < 0) by nia.
    lia.
Qed.

(** X16. [printTable] throws a [TypeError] exactly when it is given at
    least one row and a [maxRows] that keeps none of them: [NaN],
    [-Infinity], a number strictly between -1 and 1 (0 among them), or
    a number that is at most [-rows.length]. No line is written before
    it. *)
Theorem printTable_type_error_iff (rows : list row) (options : TableOptions) :
  (outcome (printTable rows options) = inl TypeError
   <-> rows <> []
       /\ match maxRows options with
          | Some (Count m) => m = 0 \/ m <= - len rows
          | Some (Fraction n d) =>
            Z.abs n < Z.pos d \/ n <= - len rows * Z.pos d
          | Some NotANumber | Some MinusInfinity => True
          | Some Infinity | None => False
          end)
  /\ (outcome (printTable rows options) = inl TypeError ->
      emitted (printTable rows options) = []).
Proof.
  assert (Hkept : rows <> [] ->
            (displayRows_of rows options = []
             <-> match maxRows options with
                 | Some (Count m) => m = 0 \/ m <= - len rows
                 | Some (Fraction n d) =>
                   Z.abs n < Z.pos d \/ n <= - len rows * Z.pos d
                 | Some NotANumber | Some MinusInfinity => True
                 | Some Infinity | None => False
                 end)).
  { intros Hrows. unfold displayRows_of, maxRows_of.
    assert (Hn : 1 <= len rows).
    { destruct rows; [contradiction |]. unfold len. cbn [length]. lia. }
    destruct (maxRows options) as [[m | n d | | |] |].
    - apply (slice_nothing rows m Hrows).
    - rewrite (slice_nothing rows _ Hrows). apply quot_nothing. exact Hn.
    - rewrite (slice_nothing rows 0 Hrows). split; [intros _; exact I |].
      intros _. left. reflexivity.
    - split; [intros H; contradiction | intros []].
    - split; [intros _; exact I | reflexivity].
    - rewrite (slice_nothing rows 100 Hrows). split; [| intros []].
      intros [H | H]; [discriminate H | lia]. }
  assert (Hdraw : rows <> [] -> displayRows_of rows options <> [] ->
            outcome (printTable rows options) <> inl TypeError).
  { intros Hrows Hdisp.
    rewrite (printTable_draws rows options Hrows Hdisp).
    destruct (draw_structure (layout_of rows options) options
                (layout_repeatable _ _ _ _ _))
      as (top & header & sep & rowLines & _ & Hout & _).
    rewrite Hout.
    destruct (draw_footer_outcome (layout_of rows options)
                (layout_repeatable _ _ _ _ _)) as [-> | ->]; discriminate. }
  assert (Hmain : outcome (printTable rows options) = inl TypeError ->
            rows <> [] /\ displayRows_of rows options = []).
  { intros Hthrow.
    destruct rows as [| first more].
    - cbn [printTable] in Hthrow. rewrite print_empty_returns in Hthrow.
      discriminate Hthrow.
    - split; [discriminate |].
      destruct (displayRows_of (first :: more) options) as [| d ds] eqn:Edisp;
        [reflexivity |].
      exfalso. apply (Hdraw ltac:(discriminate)); [| exact Hthrow].
      discriminate. }
  split; [split |].
  - intros Hthrow. destruct (Hmain Hthrow) as [Hrows Hnone].
    split; [exact Hrows |]. apply (Hkept Hrows). exact Hnone.
  - intros [Hrows Hm]. apply (Hkept Hrows) in Hm.
    rewrite (printTable_no_display_row rows options Hrows Hm). reflexivity.
  - intros Hthrow. destruct (Hmain Hthrow) as [Hrows Hnone].
    rewrite (printTable_no_display_row rows options Hrows Hnone). reflexivity.
Qed.

End Exceptions.

Lemma printTable_returns_witness :
  outcome (@printTable (plain 80) [alice; bob] (titled "users")) = inr tt.
Proof.
  apply (@printTable_returns (plain 80) [alice; bob] (titled "users")).
  - right. vm_compute. discriminate.
  - vm_compute. intros H. discriminate H.
Defined.

(** * The command line ([index.ts]) *)

(** ** Strings *)

Lemma jsstring_eqb_eq (a b : jsstring) : jsstring_eqb a b = true <-> a = b.
Proof.
  unfold jsstring_eqb. destruct (list_eq_dec N.eq_dec a b) as [E | E].
  - split; [intros _; exact E | reflexivity].
  - split; [discriminate | intros H; contradiction].
Qed.

Lemma jsstring_eqb_neq (a b : jsstring) : jsstring_eqb a b = false <-> a <> b.
Proof.
  unfold jsstring_eqb. destruct (list_eq_dec N.eq_dec a b) as [E | E].
  - split; [discriminate | intros H; contradiction].
  - split; [intros _; exact E | reflexivity].
Qed.

Lemma last_cons {A : Type} (x : A) (l : list A) (d : A) :
  last (x :: l) d = last l x.
Proof.
  revert x d. induction l as [| y l IH]; intros x d; [reflexivity |].
  change (last (x :: y :: l) d) with (last (y :: l) d).
  rewrite !IH. reflexivity.
Qed.

(** ** [createConnection] *)

Section ConnectionFacts.

Variable connection : Type.
Variable SQL : option jsstring -> connection.

(** X17. A path without [://] that ends in [.db], [.sqlite] or [.sqlite3]
    is opened as the URL [sqlite://] followed by the path, and that URL
    given as the input opens the same connection: it is passed on as
    it is. *)
Theorem sqlite_path_and_url_agree (path : jsstring) :
  includes (lit "://") path = false ->
  ends_with (lit ".db") path || ends_with (lit ".sqlite") path
    || ends_with (lit ".sqlite3") path = true ->
  createConnection SQL (Some path) = SQL (Some (lit "sqlite://" ++ path))
  /\ createConnection SQL (Some (lit "sqlite://" ++ path))
     = createConnection SQL (Some path).
Proof.
  intros Hurl Hext.
  assert (Hpath : createConnection SQL (Some path)
                  = SQL (Some (lit "sqlite://" ++ path))).
  { unfold createConnection. destruct path as [| c path'].
    - vm_compute in Hext. discriminate Hext.
    - rewrite Hurl, Hext. reflexivity. }
  split; [exact Hpath |]. rewrite Hpath.
  assert (Hinc : includes (lit "://") (lit "sqlite://" ++ path) = true).
  { replace (lit "sqlite://") with (lit "sqlite" ++ lit "://")
      by (vm_compute; reflexivity).
    rewrite <- app_assoc. apply includes_app_r, includes_prefix. }
  unfold createConnection.
  destruct (lit "sqlite://" ++ path) as [| c url] eqn:E.
  - apply app_eq_nil in E. destruct E as [E _]. vm_compute in E. discriminate E.
  - rewrite Hinc. reflexivity.
Qed.

End ConnectionFacts.

Lemma sqlite_path_and_url_agree_witness :
  createConnection (fun url : option jsstring => url) (Some (lit "./data.db"))
  = Some (lit "sqlite://" ++ lit "./data.db")
  /\ createConnection (fun url : option jsstring => url)
       (Some (lit "sqlite://" ++ lit "./data.db"))
     = createConnection (fun url : option jsstring => url) (Some (lit "./data.db")).
Proof.
  apply (sqlite_path_and_url_agree (option jsstring) (fun url => url)
           (lit "./data.db")); vm_compute; reflexivity.
Defined.

(** ** [getDatabaseName] *)

Lemma split_on_cons (c : codeunit) (s : jsstring) :
  forall cur, exists p ps, split_on c cur s = p :: ps.
Proof.
  induction s as [| x s IH]; intros cur; cbn [split_on].
  - exists cur, []. reflexivity.
  - destruct (x =? c)%N; [exists cur, (split_on c [] s); reflexivity | apply IH].
Qed.

Lemma split_on_last (c : codeunit) (s : jsstring) :
  forall cur,
    ~ In c cur ->
    exists dir,
      cur ++ s = dir ++ last (split_on c cur s) []
      /\ ~ In c (last (split_on c cur s) [])
      /\ (dir = [] \/ exists d, dir = d ++ [c]).
Proof.
  induction s as [| x s IH]; intros cur Hcur; cbn [split_on].
  - exists []. cbn [last app]. rewrite app_nil_r.
    split; [reflexivity |]. split; [exact Hcur | left; reflexivity].
  - destruct (x =? c)%N eqn:E.
    + apply N.eqb_eq in E. subst x.
      destruct (IH [] ltac:(intros H; exact H)) as (dir & Hsplit & Hclean & Hdir).
      rewrite last_cons.
      assert (Hlast : last (split_on c [] s) cur = last (split_on c [] s) []).
      { destruct (split_on_cons c s []) as (p & ps & ->).
        rewrite !last_cons. reflexivity. }
      rewrite Hlast. cbn [app] in Hsplit.
      exists (cur ++ c :: dir). split; [| split; [exact Hclean |]].
      * rewrite <- app_assoc. cbn [app]. rewrite <- Hsplit. reflexivity.
      * right. destruct Hdir as [-> | (d & ->)].
        -- exists cur. reflexivity.
        -- exists (cur ++ c :: d). rewrite <- app_assoc. reflexivity.
    + apply N.eqb_neq in E.
      destruct (IH (cur ++ [x])) as (dir & Hsplit & Hclean & Hdir).
      { intros H. apply in_app_iff in H. destruct H as [H | [H | []]];
          [exact (Hcur H) | exact (E H)]. }
      exists dir. rewrite <- app_assoc in Hsplit. cbn [app] in Hsplit.
      split; [exact Hsplit | split; [exact Hclean | exact Hdir]].
Qed.

Lemma last_unit_in {A : Type} (a b d : list A) (c : A) :
  a ++ b = d ++ [c] -> b <> [] -> In c b.
Proof.
  intros E Hb. apply (f_equal (@rev A)) in E. rewrite !rev_app_distr in E.
  cbn [rev app] in E.
  destruct (rev b) as [| y rb] eqn:Er.
  - apply (f_equal (@rev A)) in Er. rewrite rev_involutive in Er.
    cbn [rev] in Er. contradiction.
  - cbn [app] in E. injection E as -> _. apply in_rev. rewrite Er.
    left. reflexivity.
Qed.

(** X18. For a SQLite connection to a file (a [filename] that is neither
    empty nor [:memory:]), the name of the database is what follows the
    last [/] of the file name: the name holds no [/], and the file name
    is the name itself or a directory part ending in [/] followed by
    the name. A file name ending in [/] gives the empty name, not
    [null]. *)
Theorem sqlite_database_name (sql : Sql) (file : jsstring) :
  adapter sql = lit "sqlite" ->
  filename sql = Some file ->
  file <> [] ->
  file <> lit ":memory:" ->
  exists dir name,
    getDatabaseName sql = Some (VString name)
    /\ file = dir ++ name
    /\ ~ In 47%N name
    /\ (dir = [] \/ exists d, dir = d ++ [47%N])
    /\ (forall d, file = d ++ [47%N] -> name = []).
Proof.
  intros Hadapter Hfile Hne Hmem.
  destruct (split_on_last 47%N file [] ltac:(intros H; exact H))
    as (dir & Hsplit & Hclean & Hdir).
  cbn [app] in Hsplit.
  exists dir, (base_name file). fold (base_name file) in Hsplit, Hclean.
  split; [| split; [exact Hsplit | split; [exact Hclean | split; [exact Hdir |]]]].
  - unfold getDatabaseName. rewrite Hadapter, Hfile.
    replace (jsstring_eqb (lit "sqlite") (lit "postgres")) with false
      by (vm_compute; reflexivity).
    replace (jsstring_eqb (lit "sqlite") (lit "mysql")) with false
      by (vm_compute; reflexivity).
    replace (jsstring_eqb (lit "sqlite") (lit "mariadb")) with false
      by (vm_compute; reflexivity).
    replace (jsstring_eqb (lit "sqlite") (lit "sqlite")) with true
      by (vm_compute; reflexivity).
    cbn [orb]. destruct file as [| c file']; [contradiction |].
    apply jsstring_eqb_neq in Hmem. rewrite Hmem. reflexivity.
  - intros d Hd.
    destruct (base_name file) as [| x name'] eqn:Ename; [reflexivity |].
    exfalso. apply Hclean.
    apply (last_unit_in dir (x :: name') d 47%N); [| discriminate].
    rewrite <- Hsplit. exact Hd.
Qed.

Lemma sqlite_database_name_witness :
  exists dir name,
    getDatabaseName (mkSql (lit "sqlite") (Some (lit "/tmp/data/users.db"))
                       (fun _ => None))
    = Some (VString name)
    /\ lit "/tmp/data/users.db" = dir ++ name
    /\ ~ In 47%N name
    /\ (dir = [] \/ exists d, dir = d ++ [47%N])
    /\ (forall d, lit "/tmp/data/users.db" = d ++ [47%N] -> name = []).
Proof.
  apply (sqlite_database_name
           (mkSql (lit "sqlite") (Some (lit "/tmp/data/users.db")) (fun _ => None))
           (lit "/tmp/data/users.db")).
  - reflexivity.
  - reflexivity.
  - vm_compute. discriminate.
  - vm_compute. discriminate.
Defined.

(** ** [parseArgs] *)

Lemma full_flag_is_option (arg : jsstring) :
  is_full_flag arg = true ->
  starts_with (lit "-") arg = true /\ json_flag arg = None.
Proof.
  intros H. unfold json_flag. rewrite H. split; [| reflexivity].
  unfold is_full_flag in H. apply orb_true_iff in H.
  destruct H as [H | H]; apply jsstring_eqb_eq in H; subst arg;
    vm_compute; reflexivity.
Qed.

Lemma json_flag_is_option (arg : jsstring) (mode : JsonMode) :
  json_flag arg = Some mode -> starts_with (lit "-") arg = true.
Proof.
  unfold json_flag. destruct (is_full_flag arg); [discriminate |].
  destruct (jsstring_eqb arg (lit "--json")) eqn:E1.
  - intros _. apply jsstring_eqb_eq in E1. subst arg. vm_compute. reflexivity.
  - destruct (jsstring_eqb arg (lit "--json=color")) eqn:E2; [| discriminate].
    intros _. apply jsstring_eqb_eq in E2. subst arg. vm_compute. reflexivity.
Qed.

(** One turn of the loop, by the kind of the argument. *)
Lemma parse_arg_cases (st : Args) (arg : jsstring) :
  parse_arg st arg
  = if is_full_flag arg then mkArgs (input st) true (json st)
    else match json_flag arg with
         | Some mode => mkArgs (input st) (full st) mode
         | None =>
           if is_positional arg then mkArgs (Some arg) (full st) (json st)
           else st
         end.
Proof.
  unfold parse_arg, json_flag, is_positional. fold (is_full_flag arg).
  destruct (is_full_flag arg); [reflexivity |].
  destruct (jsstring_eqb arg (lit "--json")); [reflexivity |].
  destruct (jsstring_eqb arg (lit "--json=color")); reflexivity.
Qed.

Lemma parse_fold (args : list jsstring) :
  forall st,
    full (fold_left parse_arg args st) = full st || existsb is_full_flag args
    /\ json (fold_left parse_arg args st) = last (json_flags args) (json st)
    /\ input (fold_left parse_arg args st)
       = last (map Some (filter is_positional args)) (input st).
Proof.
  induction args as [| arg args IH]; intros st.
  - cbn. rewrite orb_false_r. repeat split; reflexivity.
  - cbn [fold_left]. destruct (IH (parse_arg st arg)) as (Hfull & Hjson & Hinput).
    rewrite Hfull, Hjson, Hinput. rewrite parse_arg_cases.
    unfold json_flags. cbn [existsb flat_map filter].
    destruct (is_full_flag arg) eqn:Efull.
    + destruct (full_flag_is_option arg Efull) as [Hopt Hnone].
      rewrite Hnone. unfold is_positional at 2. rewrite Hopt.
      cbn [negb app full json input]. rewrite orb_true_r.
      repeat split; reflexivity.
    + destruct (json_flag arg) as [mode |] eqn:Ejson.
      * pose proof (json_flag_is_option arg mode Ejson) as Hopt.
        unfold is_positional at 2. rewrite Hopt.
        cbn [negb app full json input]. rewrite last_cons.
        repeat split; reflexivity.
      * cbn [app]. destruct (is_positional arg) eqn:Epos.
        -- cbn [map full json input]. rewrite last_cons.
           repeat split; reflexivity.
        -- repeat split; reflexivity.
Qed.

(** X19. What [parseArgs] answers, read off the arguments after the first
    two of [process.argv]: [full] is set exactly when one of them is
    [--full] or [-f]; [json] is what the last of the [--json] and
    [--json=color] among them asks for, and [false] without any;
    [input] is the last of them that does not start with [-], and
    [undefined] without any. *)
Theorem parseArgs_reads_flags (argv : list jsstring) :
  full (parseArgs argv) = existsb is_full_flag (slice_from argv 2)
  /\ json (parseArgs argv) = last (json_flags (slice_from argv 2)) JsonOff
  /\ input (parseArgs argv) = last_of (filter is_positional (slice_from argv 2)).
Proof.
  unfold parseArgs, last_of. cbv zeta.
  destruct (parse_fold (slice_from argv 2) (mkArgs None false JsonOff))
    as (Hfull & Hjson & Hinput).
  rewrite Hfull, Hjson, Hinput. repeat split; reflexivity.
Qed.

Lemma slice_from_app (pre rest : list jsstring) :
  (2 <= length pre)%nat ->
  slice_from (pre ++ rest) 2 = slice_from pre 2 ++ rest.
Proof.
  intros Hpre. rewrite !slice_suffix by lia.
  change (Z.to_nat 2) with 2%nat.
  rewrite skipn_app.
  replace (2 - length pre)%nat with 0%nat by lia. reflexivity.
Qed.

(** X20. An argument that starts with [-] and is none of [--full], [-f],
    [--json] and [--json=color] changes nothing: the command line
    without it is parsed to the same answer. *)
Theorem unknown_options_are_ignored (pre post : list jsstring)
    (arg : jsstring) :
  (2 <= length pre)%nat ->
  starts_with (lit "-") arg = true ->
  is_full_flag arg = false ->
  json_flag arg = None ->
  parseArgs (pre ++ arg :: post) = parseArgs (pre ++ post).
Proof.
  intros Hpre Hopt Hfull Hjson. unfold parseArgs. cbv zeta.
  rewrite !slice_from_app by exact Hpre.
  rewrite !fold_left_app. cbn [fold_left].
  rewrite (parse_arg_cases _ arg), Hfull, Hjson.
  unfold is_positional. rewrite Hopt. reflexivity.
Qed.

(** X21. An option and the database next to it can change places: the
    options may come before or after the database. *)
Theorem options_and_database_commute (pre post : list jsstring)
    (flag database : jsstring) :
  (2 <= length pre)%nat ->
  starts_with (lit "-") flag = true ->
  starts_with (lit "-") database = false ->
  parseArgs (pre ++ flag :: database :: post)
  = parseArgs (pre ++ database :: flag :: post).
Proof.
  intros Hpre Hopt Hdb. unfold parseArgs. cbv zeta.
  rewrite !slice_from_app by exact Hpre.
  rewrite !fold_left_app. cbn [fold_left]. f_equal.
  set (st := fold_left parse_arg (slice_from pre 2) (mkArgs None false JsonOff)).
  assert (Hdbfull : is_full_flag database = false).
  { destruct (is_full_flag database) eqn:E; [| reflexivity].
    destruct (full_flag_is_option database E) as [H _]. congruence. }
  assert (Hdbjson : json_flag database = None).
  { destruct (json_flag database) as [mode |] eqn:E; [| reflexivity].
    pose proof (json_flag_is_option database mode E). congruence. }
  assert (Hdbstep : forall s, parse_arg s database
                              = mkArgs (Some database) (full s) (json s)).
  { intros s. rewrite parse_arg_cases, Hdbfull, Hdbjson.
    unfold is_positional. rewrite Hdb. reflexivity. }
  rewrite !Hdbstep. rewrite !(parse_arg_cases _ flag).
  unfold is_positional. rewrite Hopt. cbn [negb].
  destruct (is_full_flag flag); [reflexivity |].
  destruct (json_flag flag); reflexivity.
Qed.

Lemma unknown_options_are_ignored_witness :
  parseArgs ([lit "bun"; lit "index.ts"] ++ lit "--verbose" :: [lit "data.db"])
  = parseArgs ([lit "bun"; lit "index.ts"] ++ [lit "data.db"]).
Proof.
  apply (unknown_options_are_ignored [lit "bun"; lit "index.ts"] [lit "data.db"]
           (lit "--verbose")).
  - cbn [length]. lia.
  - vm_compute. reflexivity.
  - vm_compute. reflexivity.
  - vm_compute. reflexivity.
Defined.

Lemma options_and_database_commute_witness :
  parseArgs ([lit "bun"; lit "index.ts"] ++ lit "--full" :: lit "data.db" :: [])
  = parseArgs ([lit "bun"; lit "index.ts"] ++ lit "data.db" :: lit "--full" :: []).
Proof.
  apply (options_and_database_commute [lit "bun"; lit "index.ts"] []
           (lit "--full") (lit "data.db")).
  - cbn [length]. lia.
  - vm_compute. reflexivity.
  - vm_compute. reflexivity.
Defined.

(** ** [readStdin] *)

Lemma trim_start_spec (s : jsstring) :
  exists a,
    s = a ++ trim_start s
    /\ forallb is_space a = true
    /\ (forall c r, trim_start s = c :: r -> is_space c = false).
Proof.
  induction s as [| c s IH]; cbn [trim_start].
  - exists []. split; [reflexivity |]. split; [reflexivity |].
    intros c r H. discriminate H.
  - destruct (is_space c) eqn:E.
    + destruct IH as (a & Ha & Hsp & Hhd). exists (c :: a).
      cbn [app forallb]. rewrite E, Hsp.
      split; [f_equal; exact Ha | split; [reflexivity | exact Hhd]].
    + exists []. split; [reflexivity |]. split; [reflexivity |].
      intros c' r H. injection H as <- _. exact E.
Qed.

Lemma trim_start_blank (s : jsstring) :
  forallb is_space s = true -> trim_start s = [].
Proof.
  induction s as [| c s IH]; [reflexivity |].
  cbn [forallb trim_start]. intros H. apply andb_true_iff in H.
  destruct H as [Hc Hs]. rewrite Hc. apply IH. exact Hs.
Qed.

Lemma forallb_rev {A : Type} (f : A -> bool) (l : list A) :
  forallb f l = true -> forallb f (rev l) = true.
Proof.
  rewrite !forallb_forall. intros H x Hx. apply H. apply in_rev. exact Hx.
Qed.

Lemma trim_spec (s : jsstring) :
  exists a b,
    s = a ++ trim s ++ b
    /\ forallb is_space a = true
    /\ forallb is_space b = true
    /\ (forall c r, trim s = c :: r -> is_space c = false)
    /\ (forall r c, trim s = r ++ [c] -> is_space c = false).
Proof.
  unfold trim.
  destruct (trim_start_spec s) as (a & Ha & Hsa & Hhead).
  destruct (trim_start_spec (rev (trim_start s))) as (b & Hb & Hsb & Hhead').
  set (v := trim_start (rev (trim_start s))) in *.
  assert (Hu : trim_start s = rev v ++ rev b).
  { rewrite <- (rev_involutive (trim_start s)), Hb, rev_app_distr. reflexivity. }
  exists a, (rev b). split; [rewrite <- Hu; exact Ha |].
  split; [exact Hsa |]. split; [apply forallb_rev; exact Hsb |]. split.
  - intros c r Hq. apply (Hhead c (r ++ rev b)). rewrite Hu, Hq. reflexivity.
  - intros r c Hq. apply (Hhead' c (rev r)).
    rewrite <- (rev_involutive v), Hq, rev_app_distr. reflexivity.
Qed.

(** X22. What [readStdin] answers is the piped text without the white
    space around it: it is not empty, it neither starts nor ends with a
    white-space code unit, and the text is white space, the answer,
    white space. The answer is [null] exactly on a terminal, when the
    text cannot be read, and when the text is white space only. *)
Theorem readStdin_trims (isTTY : bool) (text : option jsstring) :
  (forall q, readStdin isTTY text = Some q ->
     isTTY = false
     /\ q <> []
     /\ (exists t a b,
            text = Some t /\ t = a ++ q ++ b
            /\ forallb is_space a = true /\ forallb is_space b = true)
     /\ (forall c r, q = c :: r -> is_space c = false)
     /\ (forall r c, q = r ++ [c] -> is_space c = false))
  /\ (readStdin isTTY text = None
      <-> isTTY = true \/ text = None
          \/ exists t, text = Some t /\ forallb is_space t = true).
Proof.
  unfold readStdin. split.
  - intros q Hq. destruct isTTY; [discriminate Hq |].
    destruct text as [t |]; [| discriminate Hq].
    destruct (trim_spec t) as (a & b & Ht & Ha & Hb & Hhead & Hlast).
    destruct (trim t) as [| c q'] eqn:Etrim; [discriminate Hq |].
    injection Hq as <-.
    split; [reflexivity |]. split; [discriminate |]. split.
    + exists t, a, b.
      split; [reflexivity |]. split; [exact Ht |]. split; [exact Ha | exact Hb].
    + split; [exact Hhead | exact Hlast].
  - split.
    + intros Hnone. destruct isTTY; [left; reflexivity |].
      destruct text as [t |]; [| right; left; reflexivity].
      right. right. exists t. split; [reflexivity |].
      destruct (trim_spec t) as (a & b & Ht & Ha & Hb & _).
      destruct (trim t) as [| c q']; [| discriminate Hnone].
      rewrite Ht. cbn [app]. rewrite forallb_app, Ha, Hb. reflexivity.
    + intros [-> | [-> | (t & -> & Hblank)]].
      * reflexivity.
      * destruct isTTY; reflexivity.
      * destruct isTTY; [reflexivity |].
        unfold trim. rewrite (trim_start_blank t Hblank). reflexivity.
Qed.

(** ** [formatTableOutput] and [formatQueryResult] *)

Lemma join_snoc (sep : jsstring) (lines : list jsstring) (x : jsstring) :
  lines <> [] -> join sep (lines ++ [x]) = join sep lines ++ sep ++ x.
Proof.
  induction lines as [| p lines IH]; [contradiction |]. intros _.
  destruct lines as [| q lines]; [reflexivity |].
  change (join sep ((p :: q :: lines) ++ [x]))
    with (p ++ sep ++ join sep ((q :: lines) ++ [x])).
  rewrite IH by discriminate.
  change (join sep (p :: q :: lines)) with (p ++ sep ++ join sep (q :: lines)).
  rewrite <- !app_assoc. reflexivity.
Qed.

Lemma split_on_app_clean (c : codeunit) (p s : jsstring) :
  forall cur, ~ In c p -> split_on c cur (p ++ s) = split_on c (cur ++ p) s.
Proof.
  induction p as [| x p IH]; intros cur Hp.
  - rewrite app_nil_r. reflexivity.
  - cbn [app split_on].
    replace (x =? c)%N with false
      by (symmetry; apply N.eqb_neq; intros ->; apply Hp; left; reflexivity).
    rewrite IH by (intros H; apply Hp; right; exact H).
    rewrite <- app_assoc. reflexivity.
Qed.

Lemma split_join (c : codeunit) (parts : list jsstring) :
  forall cur,
    parts <> [] ->
    Forall (fun p => ~ In c p) parts ->
    split_on c cur (join [c] parts) = (cur ++ hd [] parts) :: tl parts.
Proof.
  induction parts as [| p parts IH]; intros cur Hne Hclean; [contradiction |].
  inversion Hclean as [| p' parts' Hp Hrest]; subst.
  destruct parts as [| q parts].
  - cbn [join hd tl]. rewrite <- (app_nil_r p) at 1.
    rewrite split_on_app_clean by exact Hp. reflexivity.
  - change (join [c] (p :: q :: parts)) with (p ++ [c] ++ join [c] (q :: parts)).
    rewrite split_on_app_clean by exact Hp.
    cbn [app split_on]. rewrite N.eqb_refl.
    rewrite (IH [] ltac:(discriminate) Hrest). reflexivity.
Qed.

Lemma ascii_units_clean (bs : list N) :
  Forall (fun b => b <> 10 /\ b < 128)%N bs ->
  Forall (fun c => c <> 10%N) (flat_map utf16_units (utf8_points bs)).
Proof.
  induction 1 as [| b bs [Hb Hsmall] _ IH]; [constructor |].
  cbn [utf8_points].
  replace (b <? 128)%N with true by (symmetry; apply N.ltb_lt; exact Hsmall).
  cbn [flat_map]. unfold utf16_units at 1.
  replace (b <? 65536)%N with true by (symmetry; apply N.ltb_lt; lia).
  constructor; [exact Hb | exact IH].
Qed.

Lemma uint_string_clean (d : Decimal.uint) :
  Forall (fun b => b <> 10 /\ b < 128)%N
    (map N_of_ascii (list_ascii_of_string (NilEmpty.string_of_uint d))).
Proof.
  induction d; cbn [NilEmpty.string_of_uint list_ascii_of_string map];
    constructor; try exact IHd; split; vm_compute; congruence.
Qed.

Lemma numberToString_clean (z : Z) :
  Forall (fun c => c <> 10%N) (numberToString z).
Proof.
  unfold numberToString, lit. apply ascii_units_clean.
  unfold NilZero.string_of_int, NilZero.string_of_uint.
  destruct (Z.to_int z) as [d | d].
  - destruct d; try apply uint_string_clean.
    repeat constructor; vm_compute; congruence.
  - cbn [list_ascii_of_string map]. constructor; [split; vm_compute; congruence |].
    destruct d; try apply uint_string_clean.
    repeat constructor; vm_compute; congruence.
Qed.

Lemma join_snoc2 (sep : jsstring) (lines : list jsstring) (x y : jsstring) :
  lines <> [] ->
  join sep (lines ++ [x; y]) = join sep lines ++ sep ++ x ++ sep ++ y.
Proof.
  induction lines as [| p lines IH]; [contradiction |]. intros _.
  destruct lines as [| q lines]; [reflexivity |].
  change (join sep ((p :: q :: lines) ++ [x; y]))
    with (p ++ sep ++ join sep ((q :: lines) ++ [x; y])).
  rewrite IH by discriminate.
  change (join sep (p :: q :: lines)) with (p ++ sep ++ join sep (q :: lines)).
  rewrite <- !app_assoc. reflexivity.
Qed.

Lemma join_blank_line (body : list jsstring) (count : jsstring) :
  body <> [] ->
  join NEWLINE (body ++ [NEWLINE ++ count]) = join NEWLINE (body ++ [[]; count]).
Proof.
  intros Hbody.
  rewrite join_snoc by exact Hbody. rewrite join_snoc2 by exact Hbody.
  reflexivity.
Qed.

Section PlainTextFacts.

Variable String_of : value -> jsstring.

(** X23. [formatTableOutput] shows the first 100 rows: for more rows, its
    answer is its answer on the first 100 of them, followed by one more
    line that counts the others. *)
Theorem formatTableOutput_caps_at_100 (tableName : jsstring)
    (rows : list row) :
  (100 < length rows)%nat ->
  formatTableOutput String_of tableName rows
  = formatTableOutput String_of tableName (firstn 100 rows)
      ++ NEWLINE ++ lit "... and " ++ numberToString (len rows - 100)
      ++ lit " more rows".
Proof.
  intros Hmany.
  destruct rows as [| r rest]; [cbn [length] in Hmany; lia |].
  assert (Hkept : firstn 100 (r :: rest) = r :: firstn 99 rest) by reflexivity.
  rewrite Hkept. unfold formatTableOutput. cbv zeta.
  change 100 with (Z.of_nat 100). rewrite !slice_firstn.
  rewrite <- Hkept, firstn_firstn. change (Nat.min 100 100) with 100%nat.
  rewrite Hkept.
  replace (len (r :: rest) >? Z.of_nat 100) with true
    by (symmetry; apply Z.gtb_lt; unfold len; lia).
  replace (len (r :: firstn 99 rest) >? Z.of_nat 100) with false.
  - apply join_snoc.
    intros H. apply app_eq_nil in H. destruct H as [H _]. discriminate H.
  - symmetry. rewrite Z.gtb_ltb. apply Z.ltb_ge. unfold len. cbn [length].
    rewrite length_firstn. lia.
Qed.

(** X24. The answer of [formatQueryResult] on at least one row, cut at its
    line feeds, is the header, the rule, one line for each row, an
    empty line, and the count: a row never spills over to a second
    line, as long as no column name and no shown value holds a line
    feed. *)
Theorem formatQueryResult_lines (first : row) (more : list row) :
  Forall (fun k => ~ In 10%N k) (keys first) ->
  (forall r k, In r (first :: more) -> In k (keys first) ->
               ~ In 10%N (shown_or_null String_of (get r k))) ->
  split_on 10%N [] (formatQueryResult String_of (first :: more))
  = plain_header (keys first)
      ++ map (plain_row String_of (keys first)) (first :: more)
      ++ [[]; numberToString (len (first :: more)) ++ lit " row(s)"].
Proof.
  intros Hkeys Hcells. unfold formatQueryResult. cbv zeta.
  set (body := plain_header (keys first)
                 ++ map (plain_row String_of (keys first)) (first :: more)).
  set (count := numberToString (len (first :: more)) ++ lit " row(s)").
  assert (Hbody : body <> []) by discriminate.
  assert (Hmore : body ++ [[]; count] <> [])
    by (intros H; apply app_eq_nil in H; destruct H as [H _]; exact (Hbody H)).
  transitivity (split_on 10%N [] (join [10%N] (body ++ [[]; count]))).
  { f_equal. etransitivity; [| exact (join_blank_line body count Hbody)].
    reflexivity. }
  etransitivity; [apply split_join; [exact Hmore |] |].
  2: { unfold body, plain_header. cbn [app hd tl]. reflexivity. }
  - assert (Hsep : Forall (fun c => c <> 10%N) (lit " | "))
      by (repeat constructor; discriminate).
    apply Forall_app. split; [unfold body; apply Forall_app; split |].
    + unfold plain_header. constructor; [| constructor; [| constructor]].
      * apply clean_iff. apply join_pieces; [exact Hsep |].
        apply Forall_forall. intros k Hk. apply clean_iff.
        rewrite Forall_forall in Hkeys. apply Hkeys. exact Hk.
      * apply clean_iff.
        induction (length (join (lit " | ") (keys first))) as [| n IH];
          [constructor |].
        cbn [repeat concat]. apply Forall_app. split; [| exact IH].
        repeat constructor; discriminate.
    + apply Forall_forall. intros line Hline. apply in_map_iff in Hline.
      destruct Hline as (r & <- & Hr). apply clean_iff.
      unfold plain_row. apply join_pieces; [exact Hsep |].
      apply Forall_forall. intros cell Hcell. apply in_map_iff in Hcell.
      destruct Hcell as (k & <- & Hk). apply clean_iff. apply Hcells; assumption.
    + constructor; [intros H; exact H |]. constructor; [| constructor].
      apply clean_iff. unfold count. apply Forall_app. split.
      * apply numberToString_clean.
      * repeat constructor; discriminate.
Qed.

End PlainTextFacts.

Lemma formatTableOutput_caps_at_100_witness :
  formatTableOutput plainInspect (lit "users") (ids 101)
  = formatTableOutput plainInspect (lit "users") (firstn 100 (ids 101))
      ++ NEWLINE ++ lit "... and " ++ numberToString (len (ids 101) - 100)
      ++ lit " more rows".
Proof.
  apply (formatTableOutput_caps_at_100 plainInspect (lit "users") (ids 101)).
  unfold ids. rewrite length_map, length_seq. lia.
Defined.

Lemma formatQueryResult_lines_witness :
  split_on 10%N [] (formatQueryResult plainInspect (alice :: [bob]))
  = plain_header (keys alice)
      ++ map (plain_row plainInspect (keys alice)) (alice :: [bob])
      ++ [[]; numberToString (len (alice :: [bob])) ++ lit " row(s)"].
Proof.
  apply (formatQueryResult_lines plainInspect alice [bob]).
  - repeat constructor; vm_compute;
      intros H; repeat (destruct H as [H | H]; [discriminate H |]); exact H.
  - intros r k Hr Hk.
    destruct Hr as [<- | [<- | []]];
      repeat (destruct Hk as [<- | Hk];
              [vm_compute; intros H;
               repeat (destruct H as [H | H]; [discriminate H |]); exact H |]);
      destruct Hk.
Defined.

(** ** [displayTable] and [displayQueryResult] *)

Section DisplayFacts.

Context {R : Runtime}.

Lemma table_returns (rows : list row) (options : TableOptions) :
  maxRows options = Some Infinity \/ maxRows options = Some (Count DEFAULT_LIMIT) ->
  2 <= getTerminalWidth ->
  outcome (printTable rows options) = inr tt.
Proof.
  intros Hmax Ht.
  destruct rows as [| first more]; [apply print_empty_returns |].
  assert (Hdisp : displayRows_of (first :: more) options <> []).
  { unfold displayRows_of, maxRows_of.
    destruct Hmax as [-> | ->]; [discriminate |].
    intros H. apply slice_nothing in H; [| discriminate].
    unfold DEFAULT_LIMIT in H. pose proof (len_nonneg (first :: more)). lia. }
  rewrite (printTable_draws (first :: more) options ltac:(discriminate) Hdisp).
  apply draw_returns; [apply layout_repeatable |].
  apply footer_bar_repeatable. exact Ht.
Qed.

(** X25. As [main] calls them, on a terminal of two columns or more, the
    functions that show a table return without an exception:
    [displayQueryResult] on any rows, and [displayTable] with
    [Infinity] or [DEFAULT_LIMIT] for [maxRows], whatever the rows, the
    name and the count. [displayTable] writes an empty line first, then
    what [printTable] writes. *)
Theorem display_returns (tableName : jsstring) (rows : list row)
    (totalRows : option Z) (maxRows : option limit) :
  2 <= getTerminalWidth ->
  outcome (displayQueryResult rows) = inr tt
  /\ (maxRows = Some Infinity \/ maxRows = Some (Count DEFAULT_LIMIT) ->
      outcome (displayTable tableName rows totalRows maxRows) = inr tt
      /\ emitted (displayTable tableName rows totalRows maxRows)
         = [] :: emitted (printTable rows
                            (mkOptions maxRows (Some tableName) totalRows None))).
Proof.
  intros Ht. split.
  - unfold displayQueryResult. apply table_returns; [left; reflexivity | exact Ht].
  - intros Hmax. unfold displayTable.
    rewrite outcome_bind, emitted_bind.
    cbn [console_log emitted outcome fst snd app].
    split; [| reflexivity].
    apply table_returns; [exact Hmax | exact Ht].
Qed.

(** X26. [displayQueryResult] draws every row of the result under the
    title [Result]: on a terminal of two columns or more the output has
    one line for each row and four for the frame and the header, and
    one more, for the trailer, exactly when columns are hidden; no row
    is ever counted as left out. *)
Theorem displayQueryResult_draws_every_row (rows : list row) :
  rows <> [] ->
  2 <= getTerminalWidth ->
  length (emitted (displayQueryResult rows))
  = (length rows + 4
     + if hiddenCols (layout_of rows (mkOptions (Some Infinity)
                                        (Some (lit "Result")) None None)) >? 0
       then 1 else 0)%nat
  /\ exists top rest,
       emitted (displayQueryResult rows) = top :: rest
       /\ includes (lit "Result") top = true.
Proof.
  intros Hrows Ht. unfold displayQueryResult.
  set (options := mkOptions (Some Infinity) (Some (lit "Result")) None None).
  assert (Hdisp : displayRows_of rows options = rows) by reflexivity.
  split.
  - rewrite (printTable_draws rows options Hrows ltac:(rewrite Hdisp; exact Hrows)).
    rewrite (draw_line_count (layout_of rows options) options
               (layout_repeatable _ _ _ _ _) (footer_bar_repeatable rows options Ht)
               ltac:(discriminate)).
    rewrite length_visible_rows, Hdisp.
    rewrite layout_of_info, Hdisp.
    unfold truncatedRows, options at 1. cbn [totalRows].
    replace (len rows >? len rows) with false
      by (symmetry; rewrite Z.gtb_ltb; apply Z.ltb_ge; lia).
    unfold infoText. cbn [Z.gtb Z.compare orb].
    destruct (hiddenCols (layout_of rows options) >? 0); reflexivity.
  - assert (Htitle : truthy_title (title options) = Some (lit "Result"))
      by (vm_compute; reflexivity).
    rewrite (printTable_draws rows options Hrows ltac:(rewrite Hdisp; exact Hrows)).
    unfold draw.
    destruct (top_line_total (title options)
                (visibleColWidths (layout_of rows options))
                (layout_repeatable _ _ _ _ _)) as (top & Htop).
    rewrite Htop. rewrite emitted_bind. cbn [lift emitted outcome fst snd app].
    rewrite emitted_bind. cbn [console_log emitted outcome fst snd app].
    exists top. eexists. split; [reflexivity |].
    unfold top_line in Htop.
    destruct (rule BOX.topCross (visibleColWidths (layout_of rows options)))
      as [e | topBorder]; cbn [rbind] in Htop; [discriminate |].
    rewrite Htitle in Htop. apply inr_eq in Htop. subst top.
    rewrite <- !app_assoc.
    do 5 apply includes_app_r. apply includes_prefix.
Qed.

End DisplayFacts.

Lemma display_returns_witness :
  outcome (@displayQueryResult (plain 80) [alice; bob]) = inr tt
  /\ (Some (Count DEFAULT_LIMIT) = Some Infinity
      \/ Some (Count DEFAULT_LIMIT) = Some (Count DEFAULT_LIMIT) ->
      outcome (@displayTable (plain 80) (lit "users") [alice; bob] (Some 2)
                 (Some (Count DEFAULT_LIMIT))) = inr tt
      /\ emitted (@displayTable (plain 80) (lit "users") [alice; bob] (Some 2)
                    (Some (Count DEFAULT_LIMIT)))
         = [] :: emitted (@printTable (plain 80) [alice; bob]
                            (mkOptions (Some (Count DEFAULT_LIMIT))
                               (Some (lit "users")) (Some 2) None))).
Proof.
  apply (@display_returns (plain 80) (lit "users") [alice; bob] (Some 2)
           (Some (Count DEFAULT_LIMIT))).
  vm_compute. intros H. discriminate H.
Defined.

Lemma displayQueryResult_draws_every_row_witness :
  length (emitted (@displayQueryResult (plain 80) [alice; bob]))
  = (length [alice; bob] + 4
     + if hiddenCols (@layout_of (plain 80) [alice; bob]
                        (mkOptions (Some Infinity) (Some (lit "Result")) None None))
          >? 0
       then 1 else 0)%nat
  /\ exists top rest,
       emitted (@displayQueryResult (plain 80) [alice; bob]) = top :: rest
       /\ includes (lit "Result") top = true.
Proof.
  apply (@displayQueryResult_draws_every_row (plain 80) [alice; bob]).
  - discriminate.
  - vm_compute. intros H. discriminate H.
Defined.

Lemma padding_twice_witness :
  rbind (@padRight (plain 80) (lit "ab") (Fin 4))
    (fun p => @padRight (plain 80) p (Fin 6))
  = @padRight (plain 80) (lit "ab") (Fin (Z.max 4 6))
  /\ rbind (@padLeft (plain 80) (lit "ab") (Fin 4))
       (fun p => @padLeft (plain 80) p (Fin 6))
     = @padLeft (plain 80) (lit "ab") (Fin (Z.max 4 6)).
Proof.
  apply (@padding_twice (plain 80) (fun a b _ _ => plainWidth_app a b) eq_refl
           (lit "ab") 4 6).
  reflexivity.
Defined.
